(** * ofxMaps: tile addressing and visible-tile resolution of [TileLayer]

    A shallow embedding of [ofx::Maps::TileLayer], whose implementation
    follows the provider's header in [BaseTileProvider.h], together with the
    collaborators it calls.

    Numbers.  A C++ [double] is modelled as a real number (rounding error is
    not modelled), an [int] as an integer of [Z] (values are assumed to stay
    in the range of [int]).  Conversions between the two are written out
    where the source has them: [to_int] is the truncation of a
    double-to-int conversion, [IZR] the int-to-double conversion. *)

From Stdlib Require Import Reals Zfloor Lra Lia ZArith List Bool String.
From Stdlib Require Import Permutation Sorted.
Import ListNotations.

Open Scope R_scope.

(** ** The C and openFrameworks arithmetic the layer uses *)

Module CMath.

(** [pow(2.0, e)] *)
Definition pow2 (e : R) : R := Rpower 2 e.

(** [std::floor] and [std::ceil], which return doubles. *)
Definition std_floor (x : R) : R := IZR (Zfloor x).
Definition std_ceil (x : R) : R := IZR (Zceil x).

(** Conversion of a double to [int]: the fractional part is discarded. *)
Definition to_int (x : R) : Z :=
  if Rle_dec 0 x then Zfloor x else Zceil x.

(** C's [round]: to the nearest integer, halfway cases away from zero. *)
Definition round (x : R) : R :=
  if Rle_dec 0 x then IZR (Zfloor (x + / 2)) else IZR (Zceil (x - / 2)).

(** [std::min(a, b)] is [(b < a) ? b : a], [std::max(a, b)] is
    [(a < b) ? b : a]. *)
Definition std_min (a b : R) : R := if Rlt_dec b a then b else a.
Definition std_max (a b : R) : R := if Rlt_dec a b then b else a.

(** openFrameworks' macro
    [#define CLAMP(val,min,max) ((val) < (min) ? (min) : ((val > max) ? (max) : (val)))]
    with all three operands promoted to double. *)
Definition CLAMP (val min max : R) : R :=
  if Rlt_dec val min then min else if Rgt_dec val max then max else val.

End CMath.
Import CMath.

(** ** TileCoordinate *)

(** Modelled from the spec: [TileCoordinate.h] is not among the sources.
    Section 3: a coordinate has a row, a column and a zoom, all real-valued.
    As the layer uses it, the type is a [glm::dvec3] whose [x] is the column
    and whose [y] is the row, and its constructor takes (row, column,
    zoom). *)
Record TileCoordinate : Type := mkCoord {
  getRow : R;
  getColumn : R;
  getZoom : R
}.

(** Modelled from the spec: [TileCoordinate::zoomTo] is declared in
    [TileCoordinate.h], which is not among the sources.  Section 4.1:
    multiply row and column by [2^(z - zoom)], set zoom to [z]. *)
Definition zoomTo (c : TileCoordinate) (z : R) : TileCoordinate :=
  let scale := pow2 (z - getZoom c) in
  mkCoord (getRow c * scale) (getColumn c * scale) z.

(** Modelled from the spec: [TileCoordinate::getFloored] is not among the
    sources.  Section 4.1: integer-truncate row and column, leave zoom. *)
Definition getFloored (c : TileCoordinate) : TileCoordinate :=
  mkCoord (IZR (to_int (getRow c))) (IZR (to_int (getColumn c))) (getZoom c).

(** Modelled from the spec: [TileCoordinate::getClamped] is not among the
    sources.  Section 4.1: clamp row and column to [[0, 2^zoom)].  A value
    inside the interval is kept; the spec does not say where a value at or
    above [2^zoom] goes inside the half-open interval, and the last whole
    cell [2^zoom - 1] is taken here.  No theorem below depends on that
    choice. *)
Definition clampGrid (x gridSize : R) : R :=
  if Rlt_dec x 0 then 0
  else if Rle_dec gridSize x then gridSize - 1
  else x.

(** Modelled from the spec: [TileCoordinate::getClamped], with [clampGrid]
    on the row and on the column and the zoom as it is. *)
Definition getClamped (c : TileCoordinate) : TileCoordinate :=
  let gridSize := pow2 (getZoom c) in
  mkCoord (clampGrid (getRow c) gridSize)
          (clampGrid (getColumn c) gridSize)
          (getZoom c).

(** Modelled from the spec: [TileCoordinate::operator<] is not among the
    sources.  Section 3: the ordering used for sets and cache keys is
    lexicographic over (zoom, row, column). *)
Definition coord_lt (a b : TileCoordinate) : Prop :=
  getZoom a < getZoom b
  \/ (getZoom a = getZoom b /\ getRow a < getRow b)
  \/ (getZoom a = getZoom b /\ getRow a = getRow b
      /\ getColumn a < getColumn b).

Definition coord_lt_dec (a b : TileCoordinate) :
  {coord_lt a b} + {~ coord_lt a b}.
Proof.
  unfold coord_lt.
  destruct (Rlt_dec (getZoom a) (getZoom b)) as [Hz | Hz];
    [left; now left |].
  destruct (Req_dec_T (getZoom a) (getZoom b)) as [Ez | Ez];
    [| right; intros [H | [[H _] | [H _]]]; contradiction].
  destruct (Rlt_dec (getRow a) (getRow b)) as [Hr | Hr];
    [left; right; left; now split |].
  destruct (Req_dec_T (getRow a) (getRow b)) as [Er | Er];
    [| right; intros [H | [[_ H] | [_ [H _]]]]; contradiction].
  destruct (Rlt_dec (getColumn a) (getColumn b)) as [Hc | Hc];
    [left; right; right; now repeat split |].
  right; intros [H | [[_ H] | [_ [_ H]]]]; contradiction.
Defined.

Definition coord_eq_dec (a b : TileCoordinate) : {a = b} + {a <> b}.
Proof.
  destruct a as [r1 c1 z1], b as [r2 c2 z2].
  destruct (Req_dec_T r1 r2) as [Hr | Hr];
    [| right; intros H; inversion H; contradiction].
  destruct (Req_dec_T c1 c2) as [Hc | Hc];
    [| right; intros H; inversion H; contradiction].
  destruct (Req_dec_T z1 z2) as [Hz | Hz];
    [| right; intros H; inversion H; contradiction].
  left; now subst.
Defined.

(** ** [std::set<TileCoordinate>] *)

(** A [std::set] is kept as the list of its elements in ascending
    [operator<] order; two elements neither of which is less than the other
    are the same key, and [insert] then leaves the set as it is. *)
Module StdSet.

Definition t := list TileCoordinate.

Definition empty : t := [].

Fixpoint insert (c : TileCoordinate) (s : t) : t :=
  match s with
  | [] => [c]
  | x :: rest =>
      if coord_lt_dec c x then c :: s
      else if coord_lt_dec x c then x :: insert c rest
      else s
  end.

(** Iteration from [begin()] to [end()], and from [rbegin()] to [rend()]. *)
Definition elements (s : t) : list TileCoordinate := s.
Definition reverse_elements (s : t) : list TileCoordinate := rev s.

End StdSet.

(** ** The tile provider *)

Module Geo.
Record Coordinate : Type := mkGeo { getLatitude : R; getLongitude : R }.
End Geo.

(** [BaseTileProvider]: the four integers fixed at construction, and
    [geoToTile], which goes through the provider's projection (a reference to
    a [BaseProjection], polymorphic) and is kept as a function. *)
Record BaseTileProvider : Type := mkProvider {
  getMinZoom : Z;
  getMaxZoom : Z;
  getTileWidth : Z;
  getTileHeight : Z;
  geoToTile : Geo.Coordinate -> TileCoordinate
}.

(** ** The tile loader *)

(** Modelled from the spec: the loader ([_loader], the TileCache/Loader of
    section 4.3) is not among the sources.  It owns the cached tiles and the
    pending fetches: those still waiting ([queued]) and those already
    transferring ([active]).  Tiles are opaque; the cache is kept as the list
    of the coordinates that have a tile. *)
Module Loader.

(** Modelled from the spec: the state of the loader. *)
Record t : Type := mk {
  cached : list TileCoordinate;
  queued : list TileCoordinate;
  active : list TileCoordinate
}.

Definition mem (c : TileCoordinate) (l : list TileCoordinate) : bool :=
  if in_dec coord_eq_dec c l then true else false.

(** Modelled from the spec: [getTile] is a non-blocking lookup that never
    starts a fetch; [true] stands for a non-null [SharedTile]. *)
Definition getTile (l : t) (c : TileCoordinate) : bool := mem c (cached l).

(** Modelled from the spec: [cancelQueued] drops the fetches that have not
    started transferring and leaves the others alone. *)
Definition cancelQueued (l : t) : t := mk (cached l) [] (active l).

(** Modelled from the spec: a fetch is pending while it waits or
    transfers. *)
Definition pending (l : t) (c : TileCoordinate) : bool :=
  mem c (queued l) || mem c (active l).

(** How a call of [start] ends: it returns, or it throws
    [Poco::ExistsException], the exception the layer catches. *)
Inductive outcome : Type :=
| Returned (l : t)
| ExistsException.

(** Modelled from the spec: [start] fails when the coordinate is already
    pending, does nothing when it is already cached, and queues a fetch
    otherwise. *)
Definition start (l : t) (c : TileCoordinate) : outcome :=
  if pending l c then ExistsException
  else if getTile l c then Returned l
  else Returned (mk (cached l) (c :: queued l) (active l)).

End Loader.

(** ** What the layer does to its collaborators *)

(** The calls a layer operation makes on the logger, the loader and the
    drawing surface, in the order it makes them. *)
Inductive Event : Type :=
| LogError (source message : string)
| GetTile (c : TileCoordinate)
| CancelQueued
| Start (c : TileCoordinate)
| StartExists (c : TileCoordinate)
| FboBegin
| OfClear
| TileDraw (c : TileCoordinate) (tx ty w h : R)
| FboEnd
| FboDraw (x y : R)
| OfPushMatrix
| OfScale (sx sy : R)
| OfPopMatrix.

(** [ofLogError(source) << "Provider is not defined."] *)
Definition providerNotDefined (source : string) : Event :=
  LogError source "Provider is not defined.".

(** The calls that belong to the resolution of the visible set. *)
Definition is_resolve_event (e : Event) : bool :=
  match e with
  | LogError _ _ | CancelQueued | Start _ | StartExists _ => true
  | _ => false
  end.

(** The calls that ask the loader for a fetch. *)
Definition is_request_event (e : Event) : bool :=
  match e with
  | Start _ | StartExists _ => true
  | _ => false
  end.

(** ** TileLayer *)

Record dvec2 : Type := mkVec2 { vx : R; vy : R }.

(** The members of [TileLayer], as the constructor lists them.  Modelled
    from the spec: their declarations ([TileLayer.h]) are not among the
    sources; section 3 has the width and height in pixels and the padding
    in whole tiles.  [_provider] is a shared pointer and may be null. *)
Record TileLayer : Type := mkLayer {
  _width : R;
  _height : R;
  _loader : Loader.t;
  _coordsDirty : bool;
  _center : TileCoordinate;
  _padColumn : Z;
  _padRow : Z;
  _provider : option BaseTileProvider;
  _visisbleCoords : StdSet.t
}.

(** [TileLayer::TileLayer()] *)
Definition TileLayer_new : TileLayer :=
  mkLayer 0 0 (Loader.mk [] [] []) true (mkCoord 0.5 0.5 0) 0 0 None
          StdSet.empty.

Definition setWidth (st : TileLayer) (width : R) : TileLayer :=
  mkLayer width (_height st) (_loader st) true (_center st)
          (_padColumn st) (_padRow st) (_provider st) (_visisbleCoords st).

Definition setHeight (st : TileLayer) (height : R) : TileLayer :=
  mkLayer (_width st) height (_loader st) true (_center st)
          (_padColumn st) (_padRow st) (_provider st) (_visisbleCoords st).

Definition getCenter (st : TileLayer) : TileCoordinate := _center st.

Definition setCenter (st : TileLayer) (center : TileCoordinate) : TileLayer :=
  mkLayer (_width st) (_height st) (_loader st) true center
          (_padColumn st) (_padRow st) (_provider st) (_visisbleCoords st).

(** [setCenter(const Geo::Coordinate&, double)] *)
Definition setCenterGeo (st : TileLayer) (center : Geo.Coordinate) (zoom : R)
  : TileLayer * list Event :=
  match _provider st with
  | Some p => (setCenter st (zoomTo (geoToTile p center) zoom), [])
  | None => (st, [providerNotDefined "TileLayer::setCenter"])
  end.

Definition onTileCached (st : TileLayer) (args : TileCoordinate) : TileLayer :=
  mkLayer (_width st) (_height st) (_loader st) true (_center st)
          (_padColumn st) (_padRow st) (_provider st) (_visisbleCoords st).

Definition onTileUncached (st : TileLayer) (args : TileCoordinate)
  : TileLayer :=
  mkLayer (_width st) (_height st) (_loader st) true (_center st)
          (_padColumn st) (_padRow st) (_provider st) (_visisbleCoords st).

Definition layerPointToTileCoordinate (st : TileLayer) (layerPoint : dvec2)
  : TileCoordinate * list Event :=
  let coord := getCenter st in
  match _provider st with
  | Some p =>
      let factor_x :=
        (vx layerPoint - _width st / 2) / IZR (getTileWidth p) in
      let factor_y :=
        (vy layerPoint - _height st / 2) / IZR (getTileHeight p) in
      (mkCoord (getRow coord + factor_y) (getColumn coord + factor_x)
               (getZoom coord), [])
  | None => (coord, [providerNotDefined "TileLayer::layerPointToTileCoordinate"])
  end.

(** *** Loops *)

(** The values of [i] in [for (int i = lo; i < hi; ++i)]. *)
Definition intRange (lo hi : Z) : list Z :=
  map (fun k => (lo + Z.of_nat k)%Z) (seq 0 (Z.to_nat (hi - lo))).

(** The values of [i] in [for (int i = from; i >= downTo; --i)]. *)
Definition intRangeDown (from downTo : Z) : list Z :=
  map (fun k => (from - Z.of_nat k)%Z) (seq 0 (Z.to_nat (from - downTo + 1))).

(** [std::sort(first, last, comp)], as an insertion sort. *)
Fixpoint sort_insert {A : Type} (comp : A -> A -> bool) (x : A) (l : list A)
  : list A :=
  match l with
  | [] => [x]
  | y :: rest => if comp x y then x :: l else y :: sort_insert comp x rest
  end.

Definition std_sort {A : Type} (comp : A -> A -> bool) (l : list A) : list A :=
  fold_right (sort_insert comp) [] l.

(** *** The visible set *)

(** The rectangle of grid cells that [getVisibleCoordinates] iterates. *)
Record GridBounds : Type := mkBounds {
  minCol : Z;
  maxCol : Z;
  minRow : Z;
  maxRow : Z
}.

(** The two local sets of [getVisibleCoordinates], and (a ghost field) the
    cache lookups made so far. *)
Record Collected : Type := mkCollected {
  coordinatesToDraw : StdSet.t;
  requestedCoordinates : StdSet.t;
  lookups : list Event
}.

(** [int baseZoom = CLAMP(round(_center.getZoom()), getMinZoom(), getMaxZoom())] *)
Definition baseZoomOf (st : TileLayer) (p : BaseTileProvider) : Z :=
  to_int (CLAMP (round (getZoom (_center st)))
                (IZR (getMinZoom p)) (IZR (getMaxZoom p))).

(** The four corners of the layer, as tile coordinates at [baseZoom]. *)
Definition cornerPoints (st : TileLayer) : list dvec2 :=
  [ mkVec2 0 0; mkVec2 (_width st) 0;
    mkVec2 0 (_height st); mkVec2 (_width st) (_height st) ].

Definition cornerCoordinate (st : TileLayer) (baseZoom : Z) (pt : dvec2)
  : TileCoordinate :=
  zoomTo (fst (layerPointToTileCoordinate st pt)) (IZR baseZoom).

Definition cornerEvents (st : TileLayer) : list Event :=
  flat_map (fun pt => snd (layerPointToTileCoordinate st pt))
           (cornerPoints st).

Definition visibleBounds (st : TileLayer) (baseZoom : Z) : GridBounds :=
  let gridSize := pow2 (IZR baseZoom) in
  let topLeft := cornerCoordinate st baseZoom (mkVec2 0 0) in
  let topRight := cornerCoordinate st baseZoom (mkVec2 (_width st) 0) in
  let bottomLeft := cornerCoordinate st baseZoom (mkVec2 0 (_height st)) in
  let bottomRight :=
    cornerCoordinate st baseZoom (mkVec2 (_width st) (_height st)) in
  let minCol :=
    to_int (std_floor (std_min (std_min (getColumn topLeft)
                                        (getColumn topRight))
                               (std_min (getColumn bottomLeft)
                                        (getColumn bottomRight)))) in
  let maxCol :=
    to_int (std_ceil (std_max (std_max (getColumn topLeft)
                                       (getColumn topRight))
                              (std_max (getColumn bottomLeft)
                                       (getColumn bottomRight)))) in
  let minRow :=
    to_int (std_floor (std_min (std_min (getRow topLeft)
                                        (getRow topRight))
                               (std_min (getRow bottomLeft)
                                        (getRow bottomRight)))) in
  let maxRow :=
    to_int (std_ceil (std_max (std_max (getRow topLeft)
                                       (getRow topRight))
                              (std_max (getRow bottomLeft)
                                       (getRow bottomRight)))) in
  let minCol := (minCol - _padColumn st)%Z in
  let minRow := (minRow - _padRow st)%Z in
  let maxCol := (maxCol + _padColumn st)%Z in
  let maxRow := (maxRow + _padRow st)%Z in
  mkBounds (to_int (CLAMP (IZR minCol) 0 gridSize))
           (to_int (CLAMP (IZR maxCol) 0 gridSize))
           (to_int (CLAMP (IZR minRow) 0 gridSize))
           (to_int (CLAMP (IZR maxRow) 0 gridSize)).

(** [parentCoord] at level [i] of the walk from [coord]. *)
Definition parentAt (coord : TileCoordinate) (i : Z) : TileCoordinate :=
  getClamped (getFloored (zoomTo coord (IZR i))).

(** The walk over the coarser levels: the first level whose tile is cached
    goes to the draw set and ends the walk ([break]); every level before it
    goes to the request set. *)
Fixpoint walkParents (loader : Loader.t) (coord : TileCoordinate)
    (levels : list Z) (acc : Collected) : Collected :=
  match levels with
  | [] => acc
  | i :: rest =>
      let parentCoord := parentAt coord i in
      if negb (Loader.getTile loader parentCoord) then
        walkParents loader coord rest
          (mkCollected (coordinatesToDraw acc)
                       (StdSet.insert parentCoord (requestedCoordinates acc))
                       (lookups acc ++ [GetTile parentCoord]))
      else
        mkCollected (StdSet.insert parentCoord (coordinatesToDraw acc))
                    (requestedCoordinates acc)
                    (lookups acc ++ [GetTile parentCoord])
  end.

(** The body of the two nested loops, for one cell. *)
Definition visitCell (loader : Loader.t) (minZoom baseZoom : Z)
    (col : Z) (acc : Collected) (row : Z) : Collected :=
  let coord := mkCoord (IZR row) (IZR col) (IZR baseZoom) in
  if negb (Loader.getTile loader coord) then
    walkParents loader coord
      (intRangeDown (to_int (getZoom coord)) minZoom)
      (mkCollected (coordinatesToDraw acc)
                   (StdSet.insert coord (requestedCoordinates acc))
                   (lookups acc ++ [GetTile coord]))
  else
    mkCollected (StdSet.insert coord (coordinatesToDraw acc))
                (requestedCoordinates acc)
                (lookups acc ++ [GetTile coord]).

Definition visitColumn (loader : Loader.t) (minZoom baseZoom : Z)
    (b : GridBounds) (acc : Collected) (col : Z) : Collected :=
  fold_left (visitCell loader minZoom baseZoom col)
            (intRange (minRow b) (maxRow b)) acc.

Definition collectVisible (loader : Loader.t) (minZoom baseZoom : Z)
    (b : GridBounds) : Collected :=
  fold_left (visitColumn loader minZoom baseZoom b)
            (intRange (minCol b) (maxCol b))
            (mkCollected StdSet.empty StdSet.empty []).

(** The loop that starts the fetches: an [ExistsException] is caught and the
    loop goes on with the next coordinate. *)
Fixpoint issueRequests (loader : Loader.t) (tiles : list TileCoordinate)
  : Loader.t * list Event :=
  match tiles with
  | [] => (loader, [])
  | c :: rest =>
      match Loader.start loader c with
      | Loader.Returned loader' =>
          let (final, events) := issueRequests loader' rest in
          (final, Start c :: events)
      | Loader.ExistsException =>
          let (final, events) := issueRequests loader rest in
          (final, StartExists c :: events)
      end
  end.

Section Layer.

(** [QueueSorter] is not among the sources: [QueueSorter center c0 c1] is
    the comparison [QueueSorter(center)(c0, c1)] handed to [std::sort]. *)
Variable QueueSorter :
  TileCoordinate -> TileCoordinate -> TileCoordinate -> bool.

(** The set the loops collect for a layer with provider [p]. *)
Definition collected (st : TileLayer) (p : BaseTileProvider) : Collected :=
  let baseZoom := baseZoomOf st p in
  collectVisible (_loader st) (getMinZoom p) baseZoom
                 (visibleBounds st baseZoom).

(** [tilesToRequest] after [std::sort]. *)
Definition tilesToRequest (st : TileLayer) (p : BaseTileProvider)
  : list TileCoordinate :=
  std_sort (QueueSorter (_center st))
           (StdSet.elements (requestedCoordinates (collected st p))).

(** [getVisibleCoordinates] returns the draw set; it also changes the
    loader (a mutable member), and the calls it makes are recorded. *)
Definition getVisibleCoordinates (st : TileLayer)
  : StdSet.t * Loader.t * list Event :=
  match _provider st with
  | None =>
      (StdSet.empty, _loader st,
       [providerNotDefined "TileLayer::layerPointToTileCoordinate"])
  | Some p =>
      let found := collected st p in
      let loader := Loader.cancelQueued (_loader st) in
      let (loader', starts) := issueRequests loader (tilesToRequest st p) in
      (coordinatesToDraw found, loader',
       cornerEvents st ++ lookups found ++ [CancelQueued] ++ starts)
  end.

(** The loop of [draw] over the visible coordinates.  [_provider] is
    dereferenced without a test once a tile is found: with a null provider
    the loop does not return, which is [None] here. *)
Fixpoint drawTiles (st : TileLayer) (coords : list TileCoordinate)
  : option (list Event) :=
  match coords with
  | [] => Some []
  | coord :: rest =>
      if Loader.getTile (_loader st) coord then
        match _provider st with
        | None => None
        | Some p =>
            let scale := pow2 (getZoom (_center st) - getZoom coord) in
            let tileSize_x := IZR (getTileWidth p) * scale in
            let tileSize_y := IZR (getTileHeight p) * scale in
            let center_x := _width st * 0.5 in
            let center_y := _height st * 0.5 in
            let theCoord := zoomTo (_center st) (getZoom coord) in
            let tx :=
              center_x
              + tileSize_x * (getColumn coord - getColumn theCoord) in
            let ty :=
              center_y + tileSize_y * (getRow coord - getRow theCoord) in
            option_map
              (fun events =>
                 GetTile coord
                 :: TileDraw coord tx ty tileSize_x tileSize_y :: events)
              (drawTiles st rest)
        end
      else option_map (cons (GetTile coord)) (drawTiles st rest)
  end.

(** The first statement of [draw]: recompute the visible set when the
    flag is set. *)
Definition refreshVisible (st : TileLayer) : TileLayer * list Event :=
  if _coordsDirty st then
    let '(visible, loader, events) := getVisibleCoordinates st in
    (mkLayer (_width st) (_height st) loader false (_center st)
             (_padColumn st) (_padRow st) (_provider st) visible,
     events)
  else (st, []).

(** [draw(float x, float y)] *)
Definition draw (st : TileLayer) (x y : R)
  : option (TileLayer * list Event) :=
  let (st', resolved) := refreshVisible st in
  match drawTiles st' (StdSet.reverse_elements (_visisbleCoords st')) with
  | None => None
  | Some drawn =>
      Some (st',
            resolved ++ [FboBegin; OfClear] ++ drawn ++ [FboEnd; FboDraw x y])
  end.

(** [draw(float x, float y, float w, float h)] *)
Definition drawScaled (st : TileLayer) (x y w h : R)
  : option (TileLayer * list Event) :=
  match draw st x y with
  | None => None
  | Some (st', events) =>
      Some (st',
            [OfPushMatrix; OfScale (_width st / w) (_height st / h)]
            ++ events ++ [OfPopMatrix])
  end.

End Layer.

(** ** [setup] *)

(** C's [log2] on doubles, for a positive argument.  At 0 and below the C
    function gives an infinity or a NaN, which the reals do not have; no
    statement below uses the value there. *)
Definition c_log2 (x : R) : R := ln x / ln 2.

(** [TileLayer::setup].  The two sizes arrive as [int]s and are stored in
    the members; the zoom of the center becomes the binary logarithm of the
    smaller side of the layer over the smaller side of a tile.  Beside the
    layer and the log, the result has the size [_fbo.allocate] is called
    with, when it is called. *)
Definition setup (st : TileLayer) (provider : option BaseTileProvider)
    (width height : Z) : TileLayer * list Event * option dvec2 :=
  match provider with
  | Some p =>
      let _width' := IZR width in
      let _height' := IZR height in
      let z :=
        c_log2 (std_min _width' _height'
                / IZR (Z.min (getTileWidth p) (getTileHeight p))) in
      (mkLayer _width' _height' (_loader st) (_coordsDirty st)
               (zoomTo (_center st) z) (_padColumn st) (_padRow st)
               (Some p) (_visisbleCoords st),
       [],
       Some (mkVec2 _width' _height'))
  | None => (st, [providerNotDefined "TileLayer::setup"], None)
  end.

(** The layer [st] with the loader [l] in place of its own. *)
Definition withLoader (st : TileLayer) (l : Loader.t) : TileLayer :=
  mkLayer (_width st) (_height st) l (_coordsDirty st) (_center st)
          (_padColumn st) (_padRow st) (_provider st) (_visisbleCoords st).

(** ** The loader between the calls *)

(** Modelled from the spec: what the loader does on its own threads is not
    among the sources.  Sections 4.3 and 5: a queued fetch starts
    transferring; a transfer completes, the tile enters the cache and the
    "tile cached" event fires; a tile is evicted, or a fetch is cancelled
    or fails, and the "tile uncached" event fires.  Each is taken as one
    step between two calls of the layer; a step in the middle of a call is
    not modelled. *)
Module LoaderActivity.

Definition without (c : TileCoordinate) (l : list TileCoordinate)
  : list TileCoordinate :=
  List.remove coord_eq_dec c l.

(** Modelled from the spec: the queued fetch of [c] passes the point where
    it starts transferring.  Without such a fetch nothing happens. *)
Definition transfer (l : Loader.t) (c : TileCoordinate) : Loader.t :=
  if Loader.mem c (Loader.queued l)
  then Loader.mk (Loader.cached l) (without c (Loader.queued l))
                 (c :: Loader.active l)
  else l.

(** Modelled from the spec: the transfer of [c] completes and its tile is
    in the cache from then on; [None] when [c] is not transferring. *)
Definition complete (l : Loader.t) (c : TileCoordinate) : option Loader.t :=
  if Loader.mem c (Loader.active l)
  then Some (Loader.mk (c :: Loader.cached l) (Loader.queued l)
                       (without c (Loader.active l)))
  else None.

(** Modelled from the spec: the tile of [c] is evicted, or the fetch of [c]
    is cancelled or fails: the loader holds neither of them afterwards. *)
Definition drop (l : Loader.t) (c : TileCoordinate) : Loader.t :=
  Loader.mk (without c (Loader.cached l)) (without c (Loader.queued l))
            (without c (Loader.active l)).

End LoaderActivity.

(** ** Sequences of operations *)

Section Calls.

Variable QueueSorter :
  TileCoordinate -> TileCoordinate -> TileCoordinate -> bool.

(** What happens to a layer: the calls of a client, and the steps of the
    loader with the notification each of them sends to the layer.
    [OpTileCached] is the completion of a transfer, followed by
    [onTileCached]; when the coordinate is not transferring there is no
    such event and nothing happens.  [OpTileUncached] is an eviction, a
    failure or a cancellation, followed by [onTileUncached]; the
    notification of a fetch that [cancelQueued] dropped earlier may arrive
    at any later time, so it is not tied to what the loader still holds. *)
Inductive Op : Type :=
| OpSetup (provider : option BaseTileProvider) (width height : Z)
| OpSetWidth (width : R)
| OpSetHeight (height : R)
| OpSetCenter (center : TileCoordinate)
| OpSetCenterGeo (center : Geo.Coordinate) (zoom : R)
| OpTransfer (args : TileCoordinate)
| OpTileCached (args : TileCoordinate)
| OpTileUncached (args : TileCoordinate)
| OpDraw (x y : R).

Definition step (st : TileLayer) (op : Op)
  : option (TileLayer * list Event) :=
  match op with
  | OpSetup provider width height =>
      Some (fst (setup st provider width height))
  | OpSetWidth width => Some (setWidth st width, [])
  | OpSetHeight height => Some (setHeight st height, [])
  | OpSetCenter center => Some (setCenter st center, [])
  | OpSetCenterGeo center zoom => Some (setCenterGeo st center zoom)
  | OpTransfer args =>
      Some (withLoader st (LoaderActivity.transfer (_loader st) args), [])
  | OpTileCached args =>
      match LoaderActivity.complete (_loader st) args with
      | Some l => Some (onTileCached (withLoader st l) args, [])
      | None => Some (st, [])
      end
  | OpTileUncached args =>
      Some (onTileUncached
              (withLoader st (LoaderActivity.drop (_loader st) args)) args,
            [])
  | OpDraw x y => draw QueueSorter st x y
  end.

Fixpoint run (st : TileLayer) (ops : list Op)
  : option (TileLayer * list Event) :=
  match ops with
  | [] => Some (st, [])
  | op :: rest =>
      match step st op with
      | None => None
      | Some (st', events) =>
          match run st' rest with
          | None => None
          | Some (final, events') => Some (final, events ++ events')
          end
      end
  end.

End Calls.

(** ** Vocabulary of the statements *)

(** [a] comes before [b] in [l]. *)
Definition before {A : Type} (l : list A) (a b : A) : Prop :=
  exists l1 l2 l3, l = l1 ++ a :: l2 ++ b :: l3.

(** The coordinates whose tiles are drawn, in the order of drawing. *)
Definition drawnTiles (events : list Event) : list TileCoordinate :=
  flat_map (fun e => match e with
                     | TileDraw c _ _ _ _ => [c]
                     | _ => []
                     end) events.

(** The fetches asked of the loader, in the order of asking. *)
Definition requestEvents (events : list Event) : list Event :=
  filter is_request_event events.

(** The coordinates looked up in the cache, in the order of the lookups. *)
Definition lookedUp (events : list Event) : list TileCoordinate :=
  flat_map (fun e => match e with
                     | GetTile c => [c]
                     | _ => []
                     end) events.

(** The coordinates handed to [_loader.start], in the order of the calls. *)
Definition started (events : list Event) : list TileCoordinate :=
  flat_map (fun e => match e with
                     | Start c | StartExists c => [c]
                     | _ => []
                     end) events.

(** The coordinate with whole numbers [row], [col] and [zoom]. *)
Definition tileAt (row col zoom : Z) : TileCoordinate :=
  mkCoord (IZR row) (IZR col) (IZR zoom).

(** Row and column are whole numbers inside the grid of the zoom level. *)
Definition inGrid (c : TileCoordinate) : Prop :=
  (exists row col : Z, getRow c = IZR row /\ getColumn c = IZR col)
  /\ 0 <= getRow c < pow2 (getZoom c)
  /\ 0 <= getColumn c < pow2 (getZoom c).

(** A cell of the iterated rectangle. *)
Definition inBounds (b : GridBounds) (row col : Z) : Prop :=
  (minRow b <= row < maxRow b)%Z /\ (minCol b <= col < maxCol b)%Z.

(** The memoized set is a [std::set]: ascending and without duplicates. *)
Definition visibleSorted (st : TileLayer) : Prop :=
  StronglySorted coord_lt (_visisbleCoords st).

(** Only [getVisibleCoordinates] fills the memoized set, and it returns the
    empty set while there is no provider. *)
Definition providerOk (st : TileLayer) : Prop :=
  _provider st = None -> _visisbleCoords st = [].

(** Two layers that differ at most in the pending fetches of the loader. *)
Definition samePendingApart (st1 st2 : TileLayer) : Prop :=
  _width st1 = _width st2 /\ _height st1 = _height st2
  /\ _center st1 = _center st2
  /\ _padColumn st1 = _padColumn st2 /\ _padRow st1 = _padRow st2
  /\ _provider st1 = _provider st2
  /\ Loader.cached (_loader st1) = Loader.cached (_loader st2).

(** ** The bounds as the specification words them *)

(** [v] clamped to the interval from [lo] to [hi]. *)
Definition spec_clamp (v lo hi : R) : R := Rmax lo (Rmin v hi).

(** The whole number [v] clamped to the whole numbers from 0 to
    [gridSize]. *)
Definition spec_clamp_cell (v : Z) (gridSize : R) : Z :=
  Z.max 0 (Z.min v (Zfloor gridSize)).

Definition spec_minimum (l : list R) : R :=
  match l with
  | [] => 0
  | x :: rest => fold_left Rmin rest x
  end.

Definition spec_maximum (l : list R) : R :=
  match l with
  | [] => 0
  | x :: rest => fold_left Rmax rest x
  end.

(** Step 1 of the resolution: round the zoom of the center and clamp it to
    the zoom range of the provider. *)
Definition spec_baseZoom (st : TileLayer) (p : BaseTileProvider) : R :=
  spec_clamp (round (getZoom (_center st)))
             (IZR (getMinZoom p)) (IZR (getMaxZoom p)).

(** Steps 2 and 3: floor of the least and ceiling of the greatest column and
    row over the four corners, padded outward, clamped to the grid. *)
Definition spec_visibleBounds (st : TileLayer) (baseZoom : Z) : GridBounds :=
  let corners := map (cornerCoordinate st baseZoom) (cornerPoints st) in
  let columns := map getColumn corners in
  let rows := map getRow corners in
  let gridSize := pow2 (IZR baseZoom) in
  mkBounds
    (spec_clamp_cell (Zfloor (spec_minimum columns) - _padColumn st) gridSize)
    (spec_clamp_cell (Zceil (spec_maximum columns) + _padColumn st) gridSize)
    (spec_clamp_cell (Zfloor (spec_minimum rows) - _padRow st) gridSize)
    (spec_clamp_cell (Zceil (spec_maximum rows) + _padRow st) gridSize).

(** ** What the loops keep true of the two sets *)

(** Both sets are ascending; the draw set holds cells of the grid that have
    a tile, the request set cells of the grid that have none, and every
    lookup was for a cell of the grid. *)
Definition collectedOk (loader : Loader.t) (acc : Collected) : Prop :=
  StronglySorted coord_lt (coordinatesToDraw acc)
  /\ StronglySorted coord_lt (requestedCoordinates acc)
  /\ (forall c, In c (coordinatesToDraw acc) ->
                inGrid c /\ Loader.getTile loader c = true)
  /\ (forall c, In c (requestedCoordinates acc) ->
                inGrid c /\ Loader.getTile loader c = false)
  /\ (forall c, In c (lookedUp (lookups acc)) -> inGrid c).

(** Everything in the two sets of [acc] is still in those of [acc']. *)
Definition keeps (acc acc' : Collected) : Prop :=
  (forall c, In c (coordinatesToDraw acc) -> In c (coordinatesToDraw acc'))
  /\ (forall c, In c (requestedCoordinates acc) ->
                In c (requestedCoordinates acc')).

(** The ghost field records cache lookups and nothing else. *)
Definition onlyLookups (events : list Event) : Prop :=
  forall e, In e events -> exists c, e = GetTile c.

(** ** Layers used as examples *)

(** A sorter that keeps the first of two coordinates first. *)
Definition exampleSorter
  : TileCoordinate -> TileCoordinate -> TileCoordinate -> bool :=
  fun _ _ _ => true.

Definition exampleGeoToTile (g : Geo.Coordinate) : TileCoordinate :=
  mkCoord 0.5 0.5 0.

(** A provider of 256 by 256 tiles for the zoom levels 0 to 18. *)
Definition exampleProvider : BaseTileProvider :=
  mkProvider 0 18 256 256 exampleGeoToTile.

(** A new layer after its first [draw]: no provider, flag cleared. *)
Definition idleLayer : TileLayer :=
  mkLayer 0 0 (Loader.mk [] [] []) false (mkCoord 0.5 0.5 0) 0 0 None
          StdSet.empty.

(** The upper half of the world at zoom 1, in a layer of 512 by 256 pixels:
    the cells (row 0, column 0) and (row 0, column 1).  The loader holds the
    tile of the first cell and the tile of the whole world at zoom 0, and is
    transferring the second cell. *)
Definition halfWorldLoader : Loader.t :=
  Loader.mk [tileAt 0 0 0; tileAt 0 0 1] [] [tileAt 0 1 1].

Definition halfWorldLayer : TileLayer :=
  mkLayer 512 256 halfWorldLoader true (mkCoord 0.5 1 1) 0 0
          (Some exampleProvider) StdSet.empty.

(** A new layer that was given the example provider and no size. *)
Definition zeroLayer : TileLayer :=
  mkLayer 0 0 (Loader.mk [] [] []) true (mkCoord 0.5 0.5 0) 0 0
          (Some exampleProvider) StdSet.empty.




(** The upper half of the world with the tiles of both cells in the
    cache. *)
Definition cachedHalfWorldLayer : TileLayer :=
  mkLayer 512 256 (Loader.mk [tileAt 0 0 1; tileAt 0 1 1] [] []) true
          (mkCoord 0.5 1 1) 0 0 (Some exampleProvider) StdSet.empty.

(** The whole world at zoom 0 in a layer of 256 by 256 pixels, one tile,
    with the loader [l], the flag [dirty] and the memoized set [visible]. *)
Definition worldWith (l : Loader.t) (dirty : bool) (visible : StdSet.t)
  : TileLayer :=
  mkLayer 256 256 l dirty (mkCoord 0.5 0.5 0) 0 0 (Some exampleProvider)
          visible.

(** A client sets a new layer up and draws; the loader fetches the one
    tile; the client draws again. *)
Definition fetchScenario : list Op :=
  [ OpSetup (Some exampleProvider) 256 256; OpDraw 0 0;
    OpTransfer (tileAt 0 0 0); OpTileCached (tileAt 0 0 0); OpDraw 0 0 ].

(** ** More vocabulary *)

(** The number of [cancelQueued] calls in a trace: one for each resolution
    made with a provider. *)
Definition cancelCount (events : list Event) : nat :=
  List.length (filter (fun e => match e with
                           | CancelQueued => true
                           | _ => false
                           end) events).

(** The number of draws in a sequence of operations. *)
Definition drawCount (ops : list Op) : nat :=
  List.length (filter (fun op => match op with
                            | OpDraw _ _ => true
                            | _ => false
                            end) ops).

(** The zoom of [c] is the whole number [i]. *)
Definition atLevel (c : TileCoordinate) (i : Z) : Prop := getZoom c = IZR i.

(** Every coordinate in the two sets and among the lookups of [acc]
    satisfies [L]. *)
Definition allOf (L : TileCoordinate -> Prop) (acc : Collected) : Prop :=
  forall c,
    In c (coordinatesToDraw acc) \/ In c (requestedCoordinates acc)
    \/ In c (lookedUp (lookups acc)) ->
    L c.

(** The cells of the rectangle in the order the loops visit them: column by
    column, and in a column row by row. *)
Definition cellsOf (b : GridBounds) (zoom : Z) : list TileCoordinate :=
  flat_map (fun col => map (fun row => tileAt row col zoom)
                           (intRange (minRow b) (maxRow b)))
           (intRange (minCol b) (maxCol b)).

(** The number of [setup] calls in a sequence of operations. *)
Definition setupCount (ops : list Op) : nat :=
  List.length (filter (fun op => match op with
                                 | OpSetup _ _ _ => true
                                 | _ => false
                                 end) ops).

(** The steps of the loader among the operations. *)
Definition isLoaderStep (op : Op) : bool :=
  match op with
  | OpTransfer _ | OpTileCached _ | OpTileUncached _ => true
  | _ => false
  end.

(** What a sequence of operations leaves alone, and how often it calls
    the loader. *)
Definition callsFrame (st st' : TileLayer) (ops : list Op)
    (events : list Event) : Prop :=
  _padColumn st' = _padColumn st /\ _padRow st' = _padRow st
  /\ (_provider st <> None -> _provider st' <> None)
  /\ (setupCount ops = 0%nat -> _provider st' = _provider st)
  /\ (cancelCount events <= drawCount ops)%nat
  /\ (drawCount ops = 0%nat ->
      _visisbleCoords st' = _visisbleCoords st
      /\ lookedUp events = [] /\ started events = [])
  /\ (forallb (fun op => negb (isLoaderStep op)) ops = true ->
      Loader.cached (_loader st') = Loader.cached (_loader st)
      /\ Loader.active (_loader st') = Loader.active (_loader st)).

(** * Proofs *)

(** ** Arithmetic *)

Lemma pow2_pos (e : R) : 0 < pow2 e.
Proof. unfold pow2, Rpower. apply exp_pos. Qed.

Lemma pow2_add (a b : R) : pow2 (a + b) = pow2 a * pow2 b.
Proof. unfold pow2. apply Rpower_plus. Qed.

Lemma pow2_0 : pow2 0 = 1.
Proof. unfold pow2. apply Rpower_O. lra. Qed.

Lemma pow2_1 : pow2 1 = 2.
Proof. unfold pow2. apply Rpower_1. lra. Qed.

Lemma pow2_opp (e : R) : pow2 (- e) = / pow2 e.
Proof. unfold pow2. apply Rpower_Ropp. Qed.

Lemma pow2_nat (n : nat) : pow2 (INR n) = 2 ^ n.
Proof. unfold pow2. apply Rpower_pow. lra. Qed.

Lemma pow2_IZR (n : Z) : (0 <= n)%Z -> pow2 (IZR n) = IZR (2 ^ n).
Proof.
  intros Hn.
  rewrite <- (Z2Nat.id n Hn) at 1.
  rewrite <- INR_IZR_INZ, pow2_nat.
  rewrite <- (Z2Nat.id n Hn) at 2.
  rewrite <- pow_IZR. reflexivity.
Qed.

Lemma to_int_IZR (n : Z) : to_int (IZR n) = n.
Proof.
  unfold to_int. destruct (Rle_dec 0 (IZR n)).
  - apply ZfloorZ.
  - unfold Zceil. rewrite <- opp_IZR, ZfloorZ. lia.
Qed.

Lemma to_int_nonneg (x : R) : 0 <= x -> to_int x = Zfloor x.
Proof.
  intros Hx. unfold to_int. destruct (Rle_dec 0 x); [reflexivity | lra].
Qed.

Lemma Zfloor_nonneg (x : R) : 0 <= x -> (0 <= Zfloor x)%Z.
Proof. intros Hx. apply Zfloor_lub. simpl. exact Hx. Qed.

Lemma to_int_range (x : R) :
  0 <= x -> (0 <= to_int x)%Z /\ IZR (to_int x) <= x.
Proof.
  intros Hx. rewrite (to_int_nonneg x Hx). split.
  - now apply Zfloor_nonneg.
  - apply (Zfloor_bound x).
Qed.

Lemma Zfloor_div (r d : Z) :
  (0 < d)%Z -> Zfloor (IZR r / IZR d) = (r / d)%Z.
Proof.
  intros Hd. apply Zfloor_eq.
  assert (HdR : 0 < IZR d) by (apply IZR_lt in Hd; exact Hd).
  pose proof (Z.mul_div_le r d Hd) as Hlo.
  pose proof (Z.mul_succ_div_gt r d Hd) as Hhi.
  apply IZR_le in Hlo. apply IZR_lt in Hhi.
  rewrite mult_IZR in Hlo. rewrite mult_IZR, succ_IZR in Hhi.
  split.
  - apply Rmult_le_reg_r with (IZR d); [exact HdR |].
    unfold Rdiv. rewrite Rmult_assoc, Rinv_l by lra. lra.
  - apply Rmult_lt_reg_r with (IZR d); [exact HdR |].
    unfold Rdiv. rewrite Rmult_assoc, Rinv_l by lra. lra.
Qed.

Lemma CLAMP_range (v lo hi : R) :
  lo <= hi -> lo <= CLAMP v lo hi <= hi.
Proof.
  intros H. unfold CLAMP.
  destruct (Rlt_dec v lo); [lra |].
  destruct (Rgt_dec v hi); lra.
Qed.

Lemma CLAMP_spec_clamp (v lo hi : R) :
  lo <= hi -> CLAMP v lo hi = spec_clamp v lo hi.
Proof.
  intros H. unfold CLAMP, spec_clamp, Rmax, Rmin.
  destruct (Rlt_dec v lo), (Rgt_dec v hi), (Rle_dec v hi);
    try destruct (Rle_dec lo hi); try destruct (Rle_dec lo v); lra.
Qed.

Lemma std_min_Rmin (a b : R) : std_min a b = Rmin a b.
Proof.
  unfold std_min, Rmin. destruct (Rlt_dec b a), (Rle_dec a b); lra.
Qed.

Lemma std_max_Rmax (a b : R) : std_max a b = Rmax a b.
Proof.
  unfold std_max, Rmax. destruct (Rlt_dec a b), (Rle_dec a b); lra.
Qed.

(** A grid bound: the clamped value truncated to [int]. *)
Lemma clamp_cell (v : Z) (g : R) :
  0 < g -> to_int (CLAMP (IZR v) 0 g) = spec_clamp_cell v g.
Proof.
  intros Hg. unfold CLAMP, spec_clamp_cell.
  assert (H0 : (0 <= Zfloor g)%Z) by (apply Zfloor_nonneg; lra).
  destruct (Rlt_dec (IZR v) 0) as [Hv | Hv].
  - change 0 with (IZR 0). rewrite to_int_IZR.
    apply lt_IZR in Hv. lia.
  - assert (Hv' : (0 <= v)%Z) by (apply le_IZR; simpl; lra).
    destruct (Rgt_dec (IZR v) g) as [Hgt | Hle].
    + rewrite to_int_nonneg by lra.
      assert ((Zfloor g <= v)%Z).
      { pose proof (Zfloor_le g (IZR v)) as Hm.
        rewrite ZfloorZ in Hm. apply Hm. lra. }
      lia.
    + rewrite to_int_IZR.
      assert ((v <= Zfloor g)%Z) by (apply Zfloor_lub; lra).
      lia.
Qed.

(** ** Coordinates and sets of coordinates *)

Lemma coord_lt_irrefl (a : TileCoordinate) : ~ coord_lt a a.
Proof. unfold coord_lt. intros [H | [[_ H] | [_ [_ H]]]]; lra. Qed.

Lemma coord_lt_trans (a b c : TileCoordinate) :
  coord_lt a b -> coord_lt b c -> coord_lt a c.
Proof.
  unfold coord_lt.
  intros [H1 | [[E1 H1] | [E1 [F1 H1]]]] [H2 | [[E2 H2] | [E2 [F2 H2]]]].
  all: try (left; lra).
  all: try (right; left; split; lra).
  right; right; repeat split; lra.
Qed.

Lemma coord_lt_total (a b : TileCoordinate) :
  ~ coord_lt a b -> ~ coord_lt b a -> a = b.
Proof.
  destruct a as [r1 c1 z1], b as [r2 c2 z2]. unfold coord_lt. simpl.
  intros H1 H2.
  assert (z1 = z2).
  { destruct (Rtotal_order z1 z2) as [H | [H | H]]; [| exact H |].
    - exfalso. apply H1. now left.
    - exfalso. apply H2. now left. }
  subst z2.
  assert (r1 = r2).
  { destruct (Rtotal_order r1 r2) as [H | [H | H]]; [| exact H |].
    - exfalso. apply H1. right; left. now split.
    - exfalso. apply H2. right; left. now split. }
  subst r2.
  assert (c1 = c2).
  { destruct (Rtotal_order c1 c2) as [H | [H | H]]; [| exact H |].
    - exfalso. apply H1. right; right. now repeat split.
    - exfalso. apply H2. right; right. now repeat split. }
  now subst c2.
Qed.

Lemma coord_lt_zoom (a b : TileCoordinate) :
  getZoom a < getZoom b -> coord_lt a b.
Proof. intros H. now left. Qed.

Lemma tileAt_inj (r1 c1 z1 r2 c2 z2 : Z) :
  tileAt r1 c1 z1 = tileAt r2 c2 z2 -> r1 = r2 /\ c1 = c2 /\ z1 = z2.
Proof.
  unfold tileAt. intros H. inversion H as [[Hr Hc Hz]].
  apply eq_IZR in Hr, Hc, Hz. now repeat split.
Qed.

Module StdSetFacts.
Import StdSet.

Lemma In_insert (c x : TileCoordinate) (s : t) :
  In x (insert c s) <-> x = c \/ In x s.
Proof.
  induction s as [| y rest IH]; simpl.
  - intuition.
  - destruct (coord_lt_dec c y) as [Hcy | Hcy]; simpl.
    + intuition.
    + destruct (coord_lt_dec y c) as [Hyc | Hyc]; simpl.
      * rewrite IH. intuition.
      * assert (c = y) by now apply coord_lt_total.
        subst y. intuition.
Qed.

Lemma In_insert_same (c : TileCoordinate) (s : t) : In c (insert c s).
Proof. apply In_insert. now left. Qed.

Lemma In_insert_keep (c x : TileCoordinate) (s : t) :
  In x s -> In x (insert c s).
Proof. intros H. apply In_insert. now right. Qed.

Lemma insert_idem (c : TileCoordinate) (s : t) :
  insert c (insert c s) = insert c s.
Proof.
  induction s as [| y rest IH]; simpl.
  - destruct (coord_lt_dec c c) as [H | H]; [| reflexivity].
    now apply coord_lt_irrefl in H.
  - destruct (coord_lt_dec c y) as [Hcy | Hcy]; simpl.
    + destruct (coord_lt_dec c c) as [H | H]; [| reflexivity].
      now apply coord_lt_irrefl in H.
    + destruct (coord_lt_dec y c) as [Hyc | Hyc]; simpl.
      * destruct (coord_lt_dec c y); [contradiction |].
        destruct (coord_lt_dec y c); [| contradiction].
        now rewrite IH.
      * destruct (coord_lt_dec c y); [contradiction |].
        destruct (coord_lt_dec y c); [contradiction | reflexivity].
Qed.

Lemma insert_sorted (c : TileCoordinate) (s : t) :
  StronglySorted coord_lt s -> StronglySorted coord_lt (insert c s).
Proof.
  induction s as [| y rest IH]; intros Hs; simpl.
  - constructor; constructor.
  - inversion Hs as [| ? ? Hrest Hall]; subst.
    destruct (coord_lt_dec c y) as [Hcy | Hcy].
    + constructor; [exact Hs |].
      constructor; [exact Hcy |].
      eapply Forall_impl; [| exact Hall].
      intros z Hz. now apply coord_lt_trans with y.
    + destruct (coord_lt_dec y c) as [Hyc | Hyc]; [| exact Hs].
      constructor; [now apply IH |].
      apply Forall_forall. intros z Hz.
      apply In_insert in Hz. destruct Hz as [-> | Hz]; [exact Hyc |].
      rewrite Forall_forall in Hall. now apply Hall.
Qed.

Lemma sorted_NoDup (s : t) : StronglySorted coord_lt s -> NoDup s.
Proof.
  induction 1 as [| y rest Hrest IH Hall]; constructor.
  - intros Hin. rewrite Forall_forall in Hall.
    apply Hall in Hin. now apply coord_lt_irrefl in Hin.
  - exact IH.
Qed.

(** In the order of [rbegin() .. rend()], the greater key comes first. *)
Lemma reverse_elements_before (s : t) (a b : TileCoordinate) :
  StronglySorted coord_lt s -> In a s -> In b s -> coord_lt a b ->
  before (reverse_elements s) b a.
Proof.
  unfold reverse_elements.
  induction 1 as [| y rest Hrest IH Hall]; intros Ha Hb Hab.
  - destruct Ha.
  - rewrite Forall_forall in Hall. simpl.
    destruct Ha as [-> | Ha], Hb as [-> | Hb].
    + now apply coord_lt_irrefl in Hab.
    + apply in_rev in Hb. apply in_split in Hb.
      destruct Hb as [l1 [l2 Hb]].
      exists l1, l2, []. rewrite Hb, <- app_assoc. reflexivity.
    + exfalso. apply Hall in Ha.
      apply (coord_lt_irrefl a). now apply coord_lt_trans with b.
    + destruct (IH Ha Hb Hab) as [l1 [l2 [l3 E]]].
      exists l1, l2, (l3 ++ [y]). rewrite E.
      repeat (rewrite <- app_assoc; simpl). reflexivity.
Qed.

End StdSetFacts.

Lemma before_NoDup_asym {A : Type} (l : list A) (a b : A) :
  NoDup l -> before l a b -> ~ before l b a.
Proof.
  intros Hnd [l1 [l2 [l3 E]]] [m1 [m2 [m3 E']]].
  subst l.
  revert m1 E' Hnd.
  induction l1 as [| x l1 IH]; intros m1 E' Hnd.
  - simpl in *. destruct m1 as [| y m1]; simpl in E'.
    + inversion E' as [[Hab Hrest]]. subst b.
      inversion Hnd as [| ? ? Hnot _]; subst.
      apply Hnot. apply in_or_app. right. now left.
    + inversion E' as [[Hay Hrest]]. subst y.
      inversion Hnd as [| ? ? Hnot _]; subst.
      apply Hnot. rewrite Hrest.
      apply in_or_app. right. right. apply in_or_app. right. now left.
  - destruct m1 as [| y m1]; simpl in E'.
    + inversion E' as [[Hxb Hrest]]. subst x.
      inversion Hnd as [| ? ? Hnot _]; subst.
      apply Hnot. apply in_or_app. right. right.
      apply in_or_app. right. now left.
    + inversion E' as [[Hxy Hrest]]. subst y.
      inversion Hnd as [| ? ? _ Hnd']; subst.
      now apply (IH m1).
Qed.

(** ** Loops over ranges *)

Lemma In_intRange (lo hi i : Z) :
  In i (intRange lo hi) <-> (lo <= i < hi)%Z.
Proof.
  unfold intRange. rewrite in_map_iff. split.
  - intros [k [Hk Hin]]. apply in_seq in Hin. lia.
  - intros H. exists (Z.to_nat (i - lo)). split; [lia |].
    apply in_seq. lia.
Qed.


Lemma intRangeDown_cons (from downTo : Z) :
  (downTo <= from)%Z ->
  intRangeDown from downTo = from :: intRangeDown (from - 1) downTo.
Proof.
  intros H. unfold intRangeDown.
  replace (Z.to_nat (from - downTo + 1))
    with (S (Z.to_nat (from - 1 - downTo + 1))) by lia.
  simpl. f_equal; [lia |].
  rewrite <- seq_shift, map_map.
  apply map_ext. intros k. lia.
Qed.


Lemma fold_left_invariant {A B : Type} (f : A -> B -> A) (P : A -> Prop)
    (l : list B) (a : A) :
  P a -> (forall acc x, In x l -> P acc -> P (f acc x)) ->
  P (fold_left f l a).
Proof.
  revert a. induction l as [| y l IH]; intros a Ha Hstep; simpl.
  - exact Ha.
  - apply IH.
    + apply Hstep; [now left | exact Ha].
    + intros acc x Hx. apply Hstep. now right.
Qed.

(** A property that visiting [x] establishes and that every later step
    keeps holds at the end of the loop. *)
Lemma fold_left_reaches {A B : Type} (f : A -> B -> A) (Q : A -> Prop)
    (l : list B) (x : B) (a : A) :
  In x l -> (forall acc, Q (f acc x)) ->
  (forall acc y, Q acc -> Q (f acc y)) ->
  Q (fold_left f l a).
Proof.
  intros Hin Hvisit Hkeep. apply in_split in Hin.
  destruct Hin as [l1 [l2 ->]].
  rewrite fold_left_app. simpl.
  apply fold_left_invariant; [apply Hvisit |].
  intros acc y _. apply Hkeep.
Qed.

(** ** Cells of the grid *)

Lemma clampGrid_id (x g : R) : 0 <= x < g -> clampGrid x g = x.
Proof.
  intros [H0 Hg]. unfold clampGrid.
  destruct (Rlt_dec x 0); [lra |].
  destruct (Rle_dec g x); lra.
Qed.

Lemma getClamped_inGrid (c : TileCoordinate) :
  inGrid c -> getClamped c = c.
Proof.
  intros [_ [Hr Hc]]. destruct c as [r k z]. unfold getClamped. simpl in *.
  now rewrite !clampGrid_id.
Qed.

(** A whole number inside the grid at [z], rescaled to level [i] and
    truncated, is a whole number inside the grid at [i]. *)
Lemma rescaled_cell (r z i : Z) :
  0 <= IZR r < pow2 (IZR z) ->
  let t := to_int (IZR r * pow2 (IZR i - IZR z)) in
  0 <= IZR t < pow2 (IZR i).
Proof.
  intros [H0 Hz] t. subst t.
  set (x := IZR r * pow2 (IZR i - IZR z)).
  assert (Hs : 0 < pow2 (IZR i - IZR z)) by apply pow2_pos.
  assert (Hx0 : 0 <= x) by (unfold x; apply Rmult_le_pos; lra).
  assert (Hxi : x < pow2 (IZR i)).
  { assert (E : pow2 (IZR i) = pow2 (IZR z) * pow2 (IZR i - IZR z)).
    { rewrite <- pow2_add. f_equal. lra. }
    rewrite E. unfold x. apply Rmult_lt_compat_r; assumption. }
  destruct (to_int_range x Hx0) as [Ht0 Htx].
  split.
  - apply IZR_le in Ht0. exact Ht0.
  - lra.
Qed.

Lemma tileAt_inGrid (row col zoom : Z) :
  0 <= IZR row < pow2 (IZR zoom) -> 0 <= IZR col < pow2 (IZR zoom) ->
  inGrid (tileAt row col zoom).
Proof.
  intros Hr Hc. unfold inGrid, tileAt. simpl.
  split; [now exists row, col | now split].
Qed.

(** The coordinate the walk looks up at level [i]. *)
Lemma parentAt_tileAt (row col zoom i : Z) :
  inGrid (tileAt row col zoom) ->
  parentAt (tileAt row col zoom) i
  = tileAt (to_int (IZR row * pow2 (IZR i - IZR zoom)))
           (to_int (IZR col * pow2 (IZR i - IZR zoom))) i
  /\ inGrid (parentAt (tileAt row col zoom) i).
Proof.
  intros [_ [Hr Hc]]. simpl in Hr, Hc.
  pose proof (rescaled_cell row zoom i Hr) as Hr'.
  pose proof (rescaled_cell col zoom i Hc) as Hc'.
  simpl in Hr', Hc'.
  assert (E : parentAt (tileAt row col zoom) i
              = tileAt (to_int (IZR row * pow2 (IZR i - IZR zoom)))
                       (to_int (IZR col * pow2 (IZR i - IZR zoom))) i).
  { unfold parentAt. apply getClamped_inGrid.
    unfold getFloored, zoomTo, tileAt. simpl.
    split; [eexists; eexists; split; reflexivity | now split]. }
  split; [exact E |].
  rewrite E. now apply tileAt_inGrid.
Qed.

(** At its own level the walk looks up the coordinate itself. *)
Lemma parentAt_self (row col zoom : Z) :
  inGrid (tileAt row col zoom) ->
  parentAt (tileAt row col zoom) zoom = tileAt row col zoom.
Proof.
  intros H. destruct (parentAt_tileAt row col zoom zoom H) as [E _].
  rewrite E. unfold Rminus. rewrite Rplus_opp_r, pow2_0, !Rmult_1_r.
  now rewrite !to_int_IZR.
Qed.

Lemma half_cell (r : Z) :
  0 <= IZR r -> to_int (IZR r * pow2 (-1)) = (r / 2)%Z.
Proof.
  intros H.
  replace (IZR r * pow2 (-1)) with (IZR r / IZR 2).
  - rewrite to_int_nonneg.
    + apply Zfloor_div. lia.
    + apply Rmult_le_pos; [exact H |].
      apply Rlt_le, Rinv_0_lt_compat. simpl. lra.
  - unfold Rdiv. f_equal.
    replace (-1) with (- (1)) by lra.
    rewrite pow2_opp, pow2_1. reflexivity.
Qed.

(** One level up, the walk looks up the parent cell. *)
Lemma parentAt_parent (row col zoom : Z) :
  inGrid (tileAt row col zoom) ->
  parentAt (tileAt row col zoom) (zoom - 1)
  = tileAt (row / 2) (col / 2) (zoom - 1).
Proof.
  intros H.
  destruct (parentAt_tileAt row col zoom (zoom - 1) H) as [E _].
  destruct H as [_ [Hr Hc]]. simpl in Hr, Hc.
  rewrite E. rewrite minus_IZR.
  replace (IZR zoom - 1 - IZR zoom) with (-1) by lra.
  rewrite !half_cell by lra.
  unfold tileAt. now rewrite minus_IZR.
Qed.

(** ** The iterated rectangle lies in the grid *)

Lemma clamped_bound (v : Z) (g : R) :
  0 < g ->
  (0 <= to_int (CLAMP (IZR v) 0 g))%Z /\ IZR (to_int (CLAMP (IZR v) 0 g)) <= g.
Proof.
  intros Hg.
  destruct (CLAMP_range (IZR v) 0 g) as [H0 H1]; [lra |].
  destruct (to_int_range _ H0) as [Ha Hb].
  split; [exact Ha | lra].
Qed.

Lemma visibleBounds_range (st : TileLayer) (baseZoom : Z) :
  let b := visibleBounds st baseZoom in
  (0 <= minCol b)%Z /\ IZR (maxCol b) <= pow2 (IZR baseZoom)
  /\ (0 <= minRow b)%Z /\ IZR (maxRow b) <= pow2 (IZR baseZoom).
Proof.
  pose proof (pow2_pos (IZR baseZoom)) as Hg.
  unfold visibleBounds. simpl.
  repeat split; apply clamped_bound; exact Hg.
Qed.

Lemma inBounds_inGrid (st : TileLayer) (baseZoom row col : Z) :
  inBounds (visibleBounds st baseZoom) row col ->
  inGrid (tileAt row col baseZoom).
Proof.
  intros [[Hr0 Hr1] [Hc0 Hc1]].
  destruct (visibleBounds_range st baseZoom) as [Hc [HC [Hr HR]]].
  apply tileAt_inGrid; split.
  - apply IZR_le. lia.
  - apply IZR_lt in Hr1. lra.
  - apply IZR_le. lia.
  - apply IZR_lt in Hc1. lra.
Qed.

(** ** The loops of [getVisibleCoordinates] *)

Lemma lookedUp_app (l1 l2 : list Event) :
  lookedUp (l1 ++ l2) = lookedUp l1 ++ lookedUp l2.
Proof. unfold lookedUp. apply flat_map_app. Qed.

Lemma started_app (l1 l2 : list Event) :
  started (l1 ++ l2) = started l1 ++ started l2.
Proof. unfold started. apply flat_map_app. Qed.

Lemma keeps_refl (acc : Collected) : keeps acc acc.
Proof. split; auto. Qed.

Lemma keeps_trans (a b c : Collected) : keeps a b -> keeps b c -> keeps a c.
Proof. intros [H1 H2] [H3 H4]. split; auto. Qed.

Module Import Collect.
Import StdSetFacts.

Lemma collectedOk_draw (loader : Loader.t) (acc : Collected)
    (c : TileCoordinate) :
  collectedOk loader acc -> inGrid c -> Loader.getTile loader c = true ->
  collectedOk loader
    (mkCollected (StdSet.insert c (coordinatesToDraw acc))
                 (requestedCoordinates acc)
                 (lookups acc ++ [GetTile c])).
Proof.
  intros [Sd [Sr [Hd [Hr Hl]]]] Hgrid Hget.
  split; [| split; [| split; [| split]]]; simpl.
  - now apply insert_sorted.
  - exact Sr.
  - intros x Hx. apply In_insert in Hx.
    destruct Hx as [-> | Hx]; [now split | now apply Hd].
  - exact Hr.
  - intros x Hx. rewrite lookedUp_app in Hx. apply in_app_or in Hx.
    destruct Hx as [Hx | Hx]; [now apply Hl |].
    simpl in Hx. destruct Hx as [<- | []]. exact Hgrid.
Qed.

Lemma collectedOk_request (loader : Loader.t) (acc : Collected)
    (c : TileCoordinate) :
  collectedOk loader acc -> inGrid c -> Loader.getTile loader c = false ->
  collectedOk loader
    (mkCollected (coordinatesToDraw acc)
                 (StdSet.insert c (requestedCoordinates acc))
                 (lookups acc ++ [GetTile c])).
Proof.
  intros [Sd [Sr [Hd [Hr Hl]]]] Hgrid Hget.
  split; [| split; [| split; [| split]]]; simpl.
  - exact Sd.
  - now apply insert_sorted.
  - exact Hd.
  - intros x Hx. apply In_insert in Hx.
    destruct Hx as [-> | Hx]; [now split | now apply Hr].
  - intros x Hx. rewrite lookedUp_app in Hx. apply in_app_or in Hx.
    destruct Hx as [Hx | Hx]; [now apply Hl |].
    simpl in Hx. destruct Hx as [<- | []]. exact Hgrid.
Qed.

Lemma onlyLookups_snoc (events : list Event) (c : TileCoordinate) :
  onlyLookups events -> onlyLookups (events ++ [GetTile c]).
Proof.
  intros H e He. apply in_app_or in He. destruct He as [He | [<- | []]].
  - now apply H.
  - now exists c.
Qed.

Lemma onlyLookups_no_request (events : list Event) :
  onlyLookups events ->
  requestEvents events = [] /\ started events = [].
Proof.
  induction events as [| e rest IH]; intros H; [now split |].
  destruct (H e (or_introl eq_refl)) as [c ->].
  destruct IH as [IH1 IH2]; [intros x Hx; apply H; now right |].
  split; simpl; assumption.
Qed.

Lemma walkParents_lookups (loader : Loader.t) (coord : TileCoordinate)
    (levels : list Z) (acc : Collected) :
  onlyLookups (lookups acc) ->
  onlyLookups (lookups (walkParents loader coord levels acc)).
Proof.
  revert acc. induction levels as [| i rest IH]; intros acc Hacc; simpl.
  - exact Hacc.
  - destruct (Loader.getTile loader (parentAt coord i)); simpl.
    + now apply onlyLookups_snoc.
    + apply IH. simpl. now apply onlyLookups_snoc.
Qed.

Lemma visitCell_lookups (loader : Loader.t) (minZoom zoom col row : Z)
    (acc : Collected) :
  onlyLookups (lookups acc) ->
  onlyLookups (lookups (visitCell loader minZoom zoom col acc row)).
Proof.
  intros Hacc. unfold visitCell.
  destruct (Loader.getTile loader _); simpl.
  - now apply onlyLookups_snoc.
  - apply walkParents_lookups. simpl. now apply onlyLookups_snoc.
Qed.


Section Walk.
Variable loader : Loader.t.
Variables row col zoom : Z.
Hypothesis cell : inGrid (tileAt row col zoom).

Lemma walkParents_keeps (levels : list Z) (acc : Collected) :
  keeps acc (walkParents loader (tileAt row col zoom) levels acc).
Proof.
  revert acc. induction levels as [| i rest IH]; intros acc; simpl.
  - apply keeps_refl.
  - destruct (Loader.getTile loader (parentAt (tileAt row col zoom) i));
      simpl.
    + split; simpl; intros c Hc; [now apply In_insert_keep | exact Hc].
    + eapply keeps_trans; [| apply IH].
      split; simpl; intros c Hc; [exact Hc | now apply In_insert_keep].
Qed.

Lemma walkParents_ok (levels : list Z) (acc : Collected) :
  collectedOk loader acc ->
  collectedOk loader
    (walkParents loader (tileAt row col zoom) levels acc).
Proof.
  revert acc. induction levels as [| i rest IH]; intros acc Hacc; simpl.
  - exact Hacc.
  - destruct (parentAt_tileAt row col zoom i cell) as [_ Hgrid].
    destruct (Loader.getTile loader (parentAt (tileAt row col zoom) i))
      eqn:Hget; simpl.
    + now apply collectedOk_draw.
    + apply IH. now apply collectedOk_request.
Qed.

Lemma visitCell_keeps (minZoom : Z) (acc : Collected) :
  keeps acc (visitCell loader minZoom zoom col acc row).
Proof.
  unfold visitCell. fold (tileAt row col zoom).
  destruct (Loader.getTile loader (tileAt row col zoom)); simpl.
  - split; simpl; intros c Hc; [now apply In_insert_keep | exact Hc].
  - eapply keeps_trans; [| apply walkParents_keeps].
    split; simpl; intros c Hc; [exact Hc | now apply In_insert_keep].
Qed.

Lemma visitCell_ok (minZoom : Z) (acc : Collected) :
  collectedOk loader acc ->
  collectedOk loader (visitCell loader minZoom zoom col acc row).
Proof.
  intros Hacc.
  unfold visitCell. fold (tileAt row col zoom).
  destruct (Loader.getTile loader (tileAt row col zoom)) eqn:Hget; simpl.
  - now apply collectedOk_draw.
  - apply walkParents_ok. now apply collectedOk_request.
Qed.

(** A cell that has its tile goes to the draw set. *)
Lemma visitCell_cached (minZoom : Z) (acc : Collected) :
  Loader.getTile loader (tileAt row col zoom) = true ->
  In (tileAt row col zoom)
     (coordinatesToDraw (visitCell loader minZoom zoom col acc row)).
Proof.
  intros Hget. unfold visitCell. fold (tileAt row col zoom).
  rewrite Hget. simpl. apply In_insert_same.
Qed.

(** A cell without a tile goes to the request set. *)
Lemma visitCell_missing (minZoom : Z) (acc : Collected) :
  Loader.getTile loader (tileAt row col zoom) = false ->
  In (tileAt row col zoom)
     (requestedCoordinates (visitCell loader minZoom zoom col acc row)).
Proof.
  intros Hget. unfold visitCell. fold (tileAt row col zoom).
  rewrite Hget. simpl.
  apply walkParents_keeps. simpl. apply In_insert_same.
Qed.

(** A cell without a tile whose parent has one: the walk looks at the
    cell's own level, then at the parent, and ends there. *)
Lemma visitCell_parent (minZoom : Z) (acc : Collected) :
  (minZoom < zoom)%Z ->
  Loader.getTile loader (tileAt row col zoom) = false ->
  Loader.getTile loader (tileAt (row / 2) (col / 2) (zoom - 1)) = true ->
  visitCell loader minZoom zoom col acc row
  = mkCollected
      (StdSet.insert (tileAt (row / 2) (col / 2) (zoom - 1))
                     (coordinatesToDraw acc))
      (StdSet.insert (tileAt row col zoom) (requestedCoordinates acc))
      (lookups acc ++ [GetTile (tileAt row col zoom);
                       GetTile (tileAt row col zoom);
                       GetTile (tileAt (row / 2) (col / 2) (zoom - 1))]).
Proof.
  intros Hmin Hget Hparent.
  unfold visitCell. fold (tileAt row col zoom).
  rewrite Hget. simpl negb. cbv iota.
  replace (getZoom (tileAt row col zoom)) with (IZR zoom) by reflexivity.
  rewrite to_int_IZR.
  rewrite (intRangeDown_cons zoom minZoom) by lia.
  rewrite (intRangeDown_cons (zoom - 1) minZoom) by lia.
  simpl walkParents.
  rewrite (parentAt_self row col zoom cell), Hget. simpl negb. cbv iota.
  rewrite (parentAt_parent row col zoom cell), Hparent.
  simpl. rewrite insert_idem, <- !app_assoc. reflexivity.
Qed.


End Walk.

Section Rectangle.
Variable st : TileLayer.
Variables minZoom baseZoom : Z.

Let loader := _loader st.
Let b := visibleBounds st baseZoom.

Lemma collectVisible_invariant (P : Collected -> Prop) :
  P (mkCollected StdSet.empty StdSet.empty []) ->
  (forall acc row col, inBounds b row col -> P acc ->
                       P (visitCell loader minZoom baseZoom col acc row)) ->
  P (collectVisible loader minZoom baseZoom b).
Proof.
  intros Hinit Hstep. unfold collectVisible.
  apply fold_left_invariant; [exact Hinit |].
  intros acc col Hcol Hacc. unfold visitColumn.
  apply fold_left_invariant; [exact Hacc |].
  intros acc' row Hrow Hacc'. apply Hstep; [| exact Hacc'].
  apply In_intRange in Hcol, Hrow. now split.
Qed.

Lemma collectVisible_ok :
  collectedOk loader (collectVisible loader minZoom baseZoom b).
Proof.
  apply collectVisible_invariant.
  - unfold collectedOk, StdSet.empty. simpl.
    split; [constructor |]. split; [constructor |].
    repeat split; contradiction.
  - intros acc row col Hin Hacc. apply visitCell_ok; [| exact Hacc].
    now apply (inBounds_inGrid st).
Qed.

Lemma collectVisible_lookups :
  onlyLookups (lookups (collectVisible loader minZoom baseZoom b)).
Proof.
  apply collectVisible_invariant.
  - intros e [].
  - intros acc row col _ Hacc. now apply visitCell_lookups.
Qed.

(** What the visit of a cell of the rectangle establishes, and every
    visit keeps, holds of the result. *)
Lemma collectVisible_reaches (Q : Collected -> Prop) (row col : Z) :
  inBounds b row col ->
  (forall acc, Q (visitCell loader minZoom baseZoom col acc row)) ->
  (forall acc acc', keeps acc acc' -> Q acc -> Q acc') ->
  Q (collectVisible loader minZoom baseZoom b).
Proof.
  intros [Hrow Hcol] Hvisit Hkeep. unfold collectVisible.
  assert (Hcell : forall acc r c,
             Q acc -> Q (visitCell loader minZoom baseZoom c acc r)).
  { intros acc r c. apply Hkeep. apply visitCell_keeps. }
  apply fold_left_reaches with (x := col).
  - now apply In_intRange.
  - intros acc. unfold visitColumn.
    apply fold_left_reaches with (x := row).
    + now apply In_intRange.
    + apply Hvisit.
    + intros acc' r. apply Hcell.
  - intros acc c Hacc. unfold visitColumn.
    apply fold_left_invariant; [exact Hacc |].
    intros acc' r _. apply Hcell.
Qed.



End Rectangle.

End Collect.

(** ** The loader and the requests *)

Lemma mem_true (c : TileCoordinate) (l : list TileCoordinate) :
  Loader.mem c l = true <-> In c l.
Proof.
  unfold Loader.mem. destruct (in_dec coord_eq_dec c l); split; intros H;
    try reflexivity; try assumption; try discriminate; contradiction.
Qed.

Lemma mem_false (c : TileCoordinate) (l : list TileCoordinate) :
  Loader.mem c l = false <-> ~ In c l.
Proof.
  unfold Loader.mem. destruct (in_dec coord_eq_dec c l); split; intros H;
    try reflexivity; try assumption; try discriminate; contradiction.
Qed.

Lemma sort_insert_perm {A : Type} (comp : A -> A -> bool) (x : A)
    (l : list A) :
  Permutation (sort_insert comp x l) (x :: l).
Proof.
  induction l as [| y rest IH]; simpl.
  - apply Permutation_refl.
  - destruct (comp x y).
    + apply Permutation_refl.
    + eapply Permutation_trans; [apply perm_skip, IH | apply perm_swap].
Qed.

Lemma std_sort_perm {A : Type} (comp : A -> A -> bool) (l : list A) :
  Permutation (std_sort comp l) l.
Proof.
  unfold std_sort. induction l as [| x rest IH]; simpl.
  - apply perm_nil.
  - eapply Permutation_trans; [apply sort_insert_perm |].
    now apply perm_skip.
Qed.

(** The loop over [tilesToRequest] hands every coordinate to [start], in
    order, whatever [start] does. *)
Lemma issueRequests_started (tiles : list TileCoordinate) (l : Loader.t) :
  started (snd (issueRequests l tiles)) = tiles
  /\ requestEvents (snd (issueRequests l tiles)) = snd (issueRequests l tiles)
  /\ lookedUp (snd (issueRequests l tiles)) = []
  /\ Loader.cached (fst (issueRequests l tiles)) = Loader.cached l
  /\ Loader.active (fst (issueRequests l tiles)) = Loader.active l.
Proof.
  revert l. induction tiles as [| c rest IH]; intros l; simpl.
  - repeat split.
  - unfold Loader.start.
    destruct (Loader.pending l c).
    + specialize (IH l). destruct (issueRequests l rest) as [final events].
      simpl in *. destruct IH as [H1 [H2 [H3 [H4 H5]]]].
      rewrite H1, H2. repeat split; assumption.
    + destruct (Loader.getTile l c).
      * specialize (IH l). destruct (issueRequests l rest) as [final events].
        simpl in *. destruct IH as [H1 [H2 [H3 [H4 H5]]]].
        rewrite H1, H2. repeat split; assumption.
      * specialize (IH (Loader.mk (Loader.cached l) (c :: Loader.queued l)
                                  (Loader.active l))).
        destruct (issueRequests _ rest) as [final events].
        simpl in *. destruct IH as [H1 [H2 [H3 [H4 H5]]]].
        rewrite H1, H2. repeat split; assumption.
Qed.

(** With distinct coordinates none of which is queued, [start] throws
    exactly for the coordinates whose fetch is already transferring. *)
Lemma issueRequests_trace (tiles : list TileCoordinate) (l : Loader.t) :
  NoDup tiles ->
  (forall c, In c tiles -> ~ In c (Loader.queued l)) ->
  snd (issueRequests l tiles)
  = map (fun c => if Loader.mem c (Loader.active l)
                  then StartExists c else Start c) tiles.
Proof.
  revert l. induction tiles as [| c rest IH]; intros l Hnd Hq; simpl.
  - reflexivity.
  - inversion Hnd as [| ? ? Hnot Hnd']; subst.
    unfold Loader.start, Loader.pending.
    assert (Hc : Loader.mem c (Loader.queued l) = false).
    { apply mem_false. apply Hq. now left. }
    rewrite Hc. simpl orb.
    destruct (Loader.mem c (Loader.active l)).
    + specialize (IH l Hnd' (fun x Hx => Hq x (or_intror Hx))).
      destruct (issueRequests l rest) as [final events]. simpl in *.
      now rewrite IH.
    + destruct (Loader.getTile l c).
      * specialize (IH l Hnd' (fun x Hx => Hq x (or_intror Hx))).
        destruct (issueRequests l rest) as [final events]. simpl in *.
        now rewrite IH.
      * set (l' := Loader.mk (Loader.cached l) (c :: Loader.queued l)
                             (Loader.active l)).
        assert (Hq' : forall x, In x rest -> ~ In x (Loader.queued l')).
        { intros x Hx [E | Hin].
          - subst x. contradiction.
          - apply (Hq x); [now right | exact Hin]. }
        specialize (IH l' Hnd' Hq').
        destruct (issueRequests l' rest) as [final events]. simpl in *.
        now rewrite IH.
Qed.

(** ** [getVisibleCoordinates] with a provider *)

Lemma cornerEvents_provider (st : TileLayer) (p : BaseTileProvider) :
  _provider st = Some p -> cornerEvents st = [].
Proof.
  intros Hp. unfold cornerEvents, cornerPoints, layerPointToTileCoordinate.
  rewrite Hp. reflexivity.
Qed.

Section Resolved.
Variable QueueSorter :
  TileCoordinate -> TileCoordinate -> TileCoordinate -> bool.
Variable st : TileLayer.
Variable p : BaseTileProvider.
Hypothesis provider : _provider st = Some p.

Let found := collected st p.
Let tiles := tilesToRequest QueueSorter st p.
Let issued := issueRequests (Loader.cancelQueued (_loader st)) tiles.

Lemma getVisibleCoordinates_provider :
  getVisibleCoordinates QueueSorter st
  = (coordinatesToDraw found, fst issued,
     lookups found ++ [CancelQueued] ++ snd issued).
Proof.
  unfold getVisibleCoordinates. rewrite provider.
  rewrite (cornerEvents_provider st p provider).
  fold found tiles. fold issued.
  destruct issued as [loader' starts]. reflexivity.
Qed.

Lemma collected_ok : collectedOk (_loader st) found.
Proof. apply collectVisible_ok. Qed.

Lemma tiles_perm : Permutation tiles (requestedCoordinates found).
Proof. apply std_sort_perm. Qed.

Lemma tiles_NoDup : NoDup tiles.
Proof.
  apply Permutation_NoDup with (requestedCoordinates found).
  - apply Permutation_sym, tiles_perm.
  - apply StdSetFacts.sorted_NoDup. apply collected_ok.
Qed.

Lemma resolved_requests :
  requestEvents (snd (getVisibleCoordinates QueueSorter st)) = snd issued.
Proof.
  rewrite getVisibleCoordinates_provider. simpl snd.
  unfold requestEvents. rewrite filter_app.
  destruct (issueRequests_started tiles (Loader.cancelQueued (_loader st)))
    as [_ [Hreq _]].
  fold issued in Hreq. unfold requestEvents in Hreq.
  assert (Hl : filter is_request_event (lookups found) = []).
  { apply (onlyLookups_no_request (lookups found)).
    apply collectVisible_lookups. }
  rewrite Hl. simpl. exact Hreq.
Qed.

Lemma resolved_lookups :
  lookedUp (snd (getVisibleCoordinates QueueSorter st))
  = lookedUp (lookups found).
Proof.
  rewrite getVisibleCoordinates_provider.
  match goal with
  | |- context [snd (?a, ?b)] => change (snd (a, b)) with b
  end.
  rewrite lookedUp_app.
  change ([CancelQueued] ++ snd issued) with (CancelQueued :: snd issued).
  destruct (issueRequests_started tiles (Loader.cancelQueued (_loader st)))
    as [_ [_ [Hlk _]]].
  fold issued in Hlk.
  change (lookedUp (CancelQueued :: snd issued))
    with (lookedUp (snd issued)).
  rewrite Hlk. apply app_nil_r.
Qed.

Lemma resolved_started :
  started (snd (getVisibleCoordinates QueueSorter st)) = tiles.
Proof.
  rewrite getVisibleCoordinates_provider.
  match goal with
  | |- context [snd (?a, ?b)] => change (snd (a, b)) with b
  end.
  rewrite started_app.
  change ([CancelQueued] ++ snd issued) with (CancelQueued :: snd issued).
  destruct (issueRequests_started tiles (Loader.cancelQueued (_loader st)))
    as [Hst _].
  fold issued in Hst.
  destruct (onlyLookups_no_request (lookups found)) as [_ Hs];
    [apply collectVisible_lookups |].
  rewrite Hs.
  change (started (CancelQueued :: snd issued)) with (started (snd issued)).
  exact Hst.
Qed.

Lemma resolved_draw_set :
  fst (fst (getVisibleCoordinates QueueSorter st))
  = coordinatesToDraw found.
Proof. now rewrite getVisibleCoordinates_provider. Qed.

End Resolved.

(** ** [draw] *)

Section DrawFacts.
Variable QueueSorter :
  TileCoordinate -> TileCoordinate -> TileCoordinate -> bool.

Lemma getVisibleCoordinates_cached (st : TileLayer) :
  Loader.cached (snd (fst (getVisibleCoordinates QueueSorter st)))
  = Loader.cached (_loader st).
Proof.
  destruct (_provider st) as [p |] eqn:Hp.
  - rewrite (getVisibleCoordinates_provider QueueSorter st p Hp). simpl.
    destruct (issueRequests_started
                (tilesToRequest QueueSorter st p)
                (Loader.cancelQueued (_loader st))) as [_ [_ [_ [Hc _]]]].
    rewrite Hc. reflexivity.
  - unfold getVisibleCoordinates. rewrite Hp. reflexivity.
Qed.

Lemma getVisibleCoordinates_resolve_events (st : TileLayer) :
  filter is_resolve_event (snd (getVisibleCoordinates QueueSorter st))
  <> [].
Proof.
  destruct (_provider st) as [p |] eqn:Hp.
  - rewrite (getVisibleCoordinates_provider QueueSorter st p Hp). simpl.
    rewrite filter_app. simpl. intros H.
    apply app_eq_nil in H. destruct H as [_ H]. discriminate.
  - unfold getVisibleCoordinates. rewrite Hp. simpl. discriminate.
Qed.

Lemma getVisibleCoordinates_no_provider (st : TileLayer) :
  _provider st = None ->
  getVisibleCoordinates QueueSorter st
  = (StdSet.empty, _loader st,
     [providerNotDefined "TileLayer::layerPointToTileCoordinate"]).
Proof. intros Hp. unfold getVisibleCoordinates. now rewrite Hp. Qed.

(** What [refreshVisible] leaves alone. *)
Lemma refreshVisible_frame (st : TileLayer) :
  let st' := fst (refreshVisible QueueSorter st) in
  _width st' = _width st /\ _height st' = _height st
  /\ _center st' = _center st
  /\ _padColumn st' = _padColumn st /\ _padRow st' = _padRow st
  /\ _provider st' = _provider st
  /\ _coordsDirty st' = false
  /\ Loader.cached (_loader st') = Loader.cached (_loader st).
Proof.
  unfold refreshVisible.
  destruct (_coordsDirty st) eqn:Hd.
  - pose proof (getVisibleCoordinates_cached st) as Hc.
    destruct (getVisibleCoordinates QueueSorter st) as [[visible loader] ev].
    simpl in *. repeat split; assumption.
  - simpl. repeat split; assumption.
Qed.

Lemma drawTiles_provider (st : TileLayer) (p : BaseTileProvider)
    (coords : list TileCoordinate) :
  _provider st = Some p -> exists drawn, drawTiles st coords = Some drawn.
Proof.
  intros Hp. induction coords as [| c rest [drawn IH]]; simpl.
  - now exists [].
  - rewrite IH. destruct (Loader.getTile (_loader st) c).
    + destruct (_provider st); [| discriminate].
      simpl. eexists; reflexivity.
    + simpl. eexists; reflexivity.
Qed.

Lemma drawTiles_no_resolve (st : TileLayer) (coords : list TileCoordinate)
    (drawn : list Event) :
  drawTiles st coords = Some drawn -> filter is_resolve_event drawn = [].
Proof.
  revert drawn. induction coords as [| c rest IH]; intros drawn; simpl.
  - intros H. inversion H. reflexivity.
  - destruct (Loader.getTile (_loader st) c).
    + destruct (_provider st); [| discriminate].
      destruct (drawTiles st rest) as [ev |]; [| discriminate].
      simpl. intros H. inversion H. simpl. now apply IH.
    + destruct (drawTiles st rest) as [ev |]; [| discriminate].
      simpl. intros H. inversion H. simpl. now apply IH.
Qed.

(** The tiles drawn are those of the coordinates that have a tile, in the
    order of the iteration. *)
Lemma drawTiles_drawn (st : TileLayer) (coords : list TileCoordinate)
    (drawn : list Event) :
  drawTiles st coords = Some drawn ->
  drawnTiles drawn = filter (Loader.getTile (_loader st)) coords.
Proof.
  revert drawn. induction coords as [| c rest IH]; intros drawn; simpl.
  - intros H. inversion H. reflexivity.
  - destruct (Loader.getTile (_loader st) c).
    + destruct (_provider st); [| discriminate].
      destruct (drawTiles st rest) as [ev |]; [| discriminate].
      simpl. intros H. inversion H. simpl. f_equal. now apply IH.
    + destruct (drawTiles st rest) as [ev |]; [| discriminate].
      simpl. intros H. inversion H. simpl. now apply IH.
Qed.

Lemma refreshVisible_providerOk (st : TileLayer) :
  providerOk st -> providerOk (fst (refreshVisible QueueSorter st)).
Proof.
  intros Hok. unfold refreshVisible, providerOk.
  destruct (_coordsDirty st); [| exact Hok].
  destruct (_provider st) as [p |] eqn:Hp.
  - destruct (getVisibleCoordinates QueueSorter st) as [[visible loader] ev].
    simpl. intros H. congruence.
  - rewrite (getVisibleCoordinates_no_provider st Hp). reflexivity.
Qed.

Lemma draw_returns (st : TileLayer) (x y : R) :
  providerOk st -> exists st' events, draw QueueSorter st x y = Some (st', events).
Proof.
  intros Hok. unfold draw.
  pose proof (refreshVisible_providerOk st Hok) as Hok'.
  destruct (refreshVisible QueueSorter st) as [st' resolved]. simpl in Hok'.
  destruct (_provider st') as [p |] eqn:Hp.
  - destruct (drawTiles_provider st' p
                (StdSet.reverse_elements (_visisbleCoords st')) Hp)
      as [drawn ->].
    eexists; eexists; reflexivity.
  - rewrite (Hok' Hp). simpl. eexists; eexists; reflexivity.
Qed.

(** [draw] returns the layer that [refreshVisible] leaves. *)
Lemma draw_inv (st : TileLayer) (x y : R) (st' : TileLayer)
    (events : list Event) :
  draw QueueSorter st x y = Some (st', events) ->
  st' = fst (refreshVisible QueueSorter st)
  /\ exists drawn,
      drawTiles st' (StdSet.reverse_elements (_visisbleCoords st'))
      = Some drawn
      /\ events = snd (refreshVisible QueueSorter st)
                  ++ [FboBegin; OfClear] ++ drawn ++ [FboEnd; FboDraw x y].
Proof.
  unfold draw.
  destruct (refreshVisible QueueSorter st) as [st1 resolved]. simpl.
  destruct (drawTiles st1 _) as [drawn |] eqn:Hd; [| discriminate].
  intros H. inversion H; subst. split; [reflexivity |].
  exists drawn. now split.
Qed.

Lemma draw_resolve_events (st : TileLayer) (x y : R) (st' : TileLayer)
    (events : list Event) :
  draw QueueSorter st x y = Some (st', events) ->
  filter is_resolve_event events
  = filter is_resolve_event (snd (refreshVisible QueueSorter st)).
Proof.
  intros H. destruct (draw_inv st x y st' events H) as [_ [drawn [Hd ->]]].
  rewrite !filter_app, (drawTiles_no_resolve st' _ drawn Hd). simpl.
  now rewrite app_nil_r.
Qed.

Lemma drawnTiles_app (l1 l2 : list Event) :
  drawnTiles (l1 ++ l2) = drawnTiles l1 ++ drawnTiles l2.
Proof. unfold drawnTiles. apply flat_map_app. Qed.

Lemma onlyLookups_draws_nothing (l : list Event) :
  onlyLookups l -> drawnTiles l = [].
Proof.
  induction l as [| e l IH]; intros Hl; [reflexivity |].
  destruct (Hl e (or_introl eq_refl)) as [c ->]. simpl.
  apply IH. intros e' He'. apply Hl. now right.
Qed.

Lemma requests_draw_nothing (l : list Event) :
  requestEvents l = l -> drawnTiles l = [].
Proof.
  unfold requestEvents.
  induction l as [| e l IH]; intros Hl; [reflexivity |].
  simpl in Hl. destruct (is_request_event e) eqn:He.
  - inversion Hl as [Hl']. rewrite Hl'.
    destruct e; try discriminate; simpl; now apply IH.
  - exfalso.
    assert (Hin : In e (filter is_request_event l))
      by (rewrite Hl; now left).
    apply filter_In in Hin. destruct Hin as [_ Hin]. congruence.
Qed.

(** The resolution draws no tile. *)
Lemma refreshVisible_draws_nothing (st : TileLayer) :
  drawnTiles (snd (refreshVisible QueueSorter st)) = [].
Proof.
  unfold refreshVisible. destruct (_coordsDirty st); [| reflexivity].
  destruct (_provider st) as [p |] eqn:Hp.
  - rewrite (getVisibleCoordinates_provider QueueSorter st p Hp).
    match goal with
    | |- context [snd (?a, ?b)] => change (snd (a, b)) with b
    end.
    rewrite drawnTiles_app.
    rewrite (onlyLookups_draws_nothing (lookups (collected st p)))
      by apply collectVisible_lookups.
    change (drawnTiles
              (snd (issueRequests (Loader.cancelQueued (_loader st))
                                  (tilesToRequest QueueSorter st p)))
            = []).
    apply requests_draw_nothing.
    apply (issueRequests_started (tilesToRequest QueueSorter st p)).
  - rewrite (getVisibleCoordinates_no_provider st Hp). reflexivity.
Qed.

Lemma refreshVisible_sorted (st : TileLayer) :
  visibleSorted st -> visibleSorted (fst (refreshVisible QueueSorter st)).
Proof.
  intros Hs. unfold refreshVisible, visibleSorted.
  destruct (_coordsDirty st); [| exact Hs].
  destruct (_provider st) as [p |] eqn:Hp.
  - pose proof (resolved_draw_set QueueSorter st p Hp) as Hd.
    destruct (getVisibleCoordinates QueueSorter st) as [[visible loader] ev].
    simpl in *. rewrite Hd. apply (collected_ok st p).
  - rewrite (getVisibleCoordinates_no_provider st Hp). simpl. constructor.
Qed.

(** The tiles [draw] draws: the memoized coordinates that have a tile, in
    the order of the reverse iteration. *)
Lemma draw_drawn (st : TileLayer) (x y : R) (st' : TileLayer)
    (events : list Event) :
  draw QueueSorter st x y = Some (st', events) ->
  drawnTiles events
  = filter (Loader.getTile (_loader st'))
           (StdSet.reverse_elements (_visisbleCoords st')).
Proof.
  intros H. destruct (draw_inv st x y st' events H) as [_ [drawn [Hd ->]]].
  rewrite !drawnTiles_app, refreshVisible_draws_nothing.
  rewrite (drawTiles_drawn st' _ drawn Hd). simpl.
  apply app_nil_r.
Qed.

End DrawFacts.

Lemma before_filter {A : Type} (f : A -> bool) (l : list A) (a b : A) :
  before l a b -> f a = true -> f b = true -> before (filter f l) a b.
Proof.
  intros [l1 [l2 [l3 ->]]] Ha Hb.
  exists (filter f l1), (filter f l2), (filter f l3).
  rewrite filter_app. simpl. rewrite Ha, filter_app. simpl. now rewrite Hb.
Qed.

(** ** What the resolution reads of the layer *)

Lemma walkParents_ext (l1 l2 : Loader.t) (coord : TileCoordinate)
    (levels : list Z) (acc : Collected) :
  Loader.cached l1 = Loader.cached l2 ->
  walkParents l1 coord levels acc = walkParents l2 coord levels acc.
Proof.
  intros E. revert acc. induction levels as [| i rest IH]; intros acc; simpl.
  - reflexivity.
  - unfold Loader.getTile. rewrite E.
    destruct (Loader.mem (parentAt coord i) (Loader.cached l2)); simpl.
    + reflexivity.
    + apply IH.
Qed.

Lemma fold_left_ext {A B : Type} (f g : A -> B -> A) (l : list B) (a : A) :
  (forall acc x, f acc x = g acc x) -> fold_left f l a = fold_left g l a.
Proof.
  intros H. revert a. induction l as [| x l IH]; intros a; simpl.
  - reflexivity.
  - now rewrite H, IH.
Qed.

Lemma collectVisible_ext (l1 l2 : Loader.t) (minZoom baseZoom : Z)
    (b : GridBounds) :
  Loader.cached l1 = Loader.cached l2 ->
  collectVisible l1 minZoom baseZoom b = collectVisible l2 minZoom baseZoom b.
Proof.
  intros E. unfold collectVisible. apply fold_left_ext.
  intros acc col. unfold visitColumn. apply fold_left_ext.
  intros acc' row. unfold visitCell, Loader.getTile. rewrite E.
  destruct (Loader.mem _ (Loader.cached l2)); simpl.
  - reflexivity.
  - now apply walkParents_ext.
Qed.

Lemma visibleBounds_ext (st1 st2 : TileLayer) (baseZoom : Z) :
  samePendingApart st1 st2 ->
  visibleBounds st1 baseZoom = visibleBounds st2 baseZoom.
Proof.
  intros [Hw [Hh [Hc [Hpc [Hpr [Hp _]]]]]].
  unfold visibleBounds, cornerCoordinate, layerPointToTileCoordinate,
    getCenter.
  now rewrite Hw, Hh, Hc, Hpc, Hpr, Hp.
Qed.

Lemma collected_ext (st1 st2 : TileLayer) (p : BaseTileProvider) :
  samePendingApart st1 st2 -> collected st1 p = collected st2 p.
Proof.
  intros H. unfold collected, baseZoomOf.
  rewrite (visibleBounds_ext st1 st2 _ H).
  destruct H as [_ [_ [Hc [_ [_ [_ Hl]]]]]].
  rewrite Hc. now apply collectVisible_ext.
Qed.

Lemma issueRequests_queued_mono (tiles : list TileCoordinate) (l : Loader.t)
    (c : TileCoordinate) :
  In c (Loader.queued l) ->
  In c (Loader.queued (fst (issueRequests l tiles))).
Proof.
  revert l. induction tiles as [| x rest IH]; intros l Hin; simpl.
  - exact Hin.
  - unfold Loader.start.
    destruct (Loader.pending l x).
    + specialize (IH l Hin).
      destruct (issueRequests l rest). exact IH.
    + destruct (Loader.getTile l x).
      * specialize (IH l Hin).
        destruct (issueRequests l rest). exact IH.
      * specialize (IH (Loader.mk (Loader.cached l) (x :: Loader.queued l)
                                  (Loader.active l))
                       (or_intror Hin)).
        destruct (issueRequests _ rest). exact IH.
Qed.

(** A coordinate without a tile whose fetch is not yet transferring is
    queued when the loop ends. *)
Lemma issueRequests_queued (tiles : list TileCoordinate) (l : Loader.t)
    (c : TileCoordinate) :
  In c tiles -> Loader.getTile l c = false -> ~ In c (Loader.active l) ->
  In c (Loader.queued (fst (issueRequests l tiles))).
Proof.
  revert l. induction tiles as [| x rest IH]; intros l Hin Hget Hact.
  - destruct Hin.
  - simpl. unfold Loader.start, Loader.pending.
    destruct Hin as [-> | Hin].
    + destruct (Loader.mem c (Loader.queued l)) eqn:Hq; simpl.
      * apply mem_true in Hq.
        pose proof (issueRequests_queued_mono rest l c Hq) as Hm.
        destruct (issueRequests l rest). exact Hm.
      * apply mem_false in Hact. rewrite Hact, Hget.
        pose proof (issueRequests_queued_mono rest
                      (Loader.mk (Loader.cached l) (c :: Loader.queued l)
                                 (Loader.active l)) c (or_introl eq_refl))
          as Hm.
        destruct (issueRequests _ rest). exact Hm.
    + destruct (Loader.mem x (Loader.queued l) || Loader.mem x (Loader.active l)).
      * specialize (IH l Hin Hget Hact).
        destruct (issueRequests l rest). exact IH.
      * destruct (Loader.getTile l x).
        -- specialize (IH l Hin Hget Hact).
           destruct (issueRequests l rest). exact IH.
        -- specialize (IH (Loader.mk (Loader.cached l) (x :: Loader.queued l)
                                     (Loader.active l)) Hin Hget Hact).
           destruct (issueRequests _ rest). exact IH.
Qed.

(** ** The example layers, evaluated *)

Lemma round_IZR (n : Z) : round (IZR n) = IZR n.
Proof.
  unfold round. destruct (Rle_dec 0 (IZR n)); f_equal.
  - apply Zfloor_eq. lra.
  - apply Zceil_eq. lra.
Qed.

Lemma Zceil_IZR (n : Z) : Zceil (IZR n) = n.
Proof. apply Zceil_eq. lra. Qed.

Lemma halfWorld_baseZoom : baseZoomOf halfWorldLayer exampleProvider = 1%Z.
Proof.
  unfold baseZoomOf. simpl.
  rewrite (round_IZR 1). unfold CLAMP.
  destruct (Rlt_dec 1 0); [lra |].
  destruct (Rgt_dec 1 18); [lra |].
  apply to_int_IZR.
Qed.

Lemma halfWorld_bounds :
  visibleBounds halfWorldLayer 1 = mkBounds 0 2 0 1.
Proof.
  assert (E : forall x y,
             cornerCoordinate halfWorldLayer 1 (mkVec2 x y)
             = mkCoord (0.5 + (y - 256 / 2) / 256) (1 + (x - 512 / 2) / 256) 1).
  { intros x y. unfold cornerCoordinate, layerPointToTileCoordinate, zoomTo.
    simpl. replace (1 - 1) with 0 by lra. rewrite pow2_0.
    f_equal; lra. }
  unfold visibleBounds. rewrite !E. simpl.
  rewrite !std_min_Rmin, !std_max_Rmax.
  replace (1 + (0 - 512 / 2) / 256) with (IZR 0) by (simpl; lra).
  replace (1 + (512 - 512 / 2) / 256) with (IZR 2) by (simpl; lra).
  replace (0.5 + (0 - 256 / 2) / 256) with (IZR 0) by (simpl; lra).
  replace (0.5 + (256 - 256 / 2) / 256) with (IZR 1) by (simpl; lra).
  replace (Rmin (Rmin (IZR 0) (IZR 2)) (Rmin (IZR 0) (IZR 2))) with (IZR 0)
    by (unfold Rmin; repeat destruct (Rle_dec _ _); lra).
  replace (Rmax (Rmax (IZR 0) (IZR 2)) (Rmax (IZR 0) (IZR 2))) with (IZR 2)
    by (unfold Rmax; repeat destruct (Rle_dec _ _); lra).
  replace (Rmin (Rmin (IZR 0) (IZR 0)) (Rmin (IZR 1) (IZR 1))) with (IZR 0)
    by (unfold Rmin; repeat destruct (Rle_dec _ _); lra).
  replace (Rmax (Rmax (IZR 0) (IZR 0)) (Rmax (IZR 1) (IZR 1))) with (IZR 1)
    by (unfold Rmax; repeat destruct (Rle_dec _ _); lra).
  unfold std_floor, std_ceil.
  rewrite !ZfloorZ, !Zceil_IZR, !to_int_IZR.
  rewrite !clamp_cell by apply pow2_pos.
  unfold spec_clamp_cell. rewrite pow2_1, (ZfloorZ 2).
  reflexivity.
Qed.

Lemma halfWorld_tiles :
  Loader.getTile halfWorldLoader (tileAt 0 0 1) = true
  /\ Loader.getTile halfWorldLoader (tileAt 0 1 1) = false
  /\ Loader.getTile halfWorldLoader (tileAt 0 0 0) = true.
Proof.
  unfold Loader.getTile, halfWorldLoader. simpl.
  split; [| split].
  - apply mem_true. simpl. auto.
  - apply mem_false. simpl.
    intros [H | [H | []]]; apply tileAt_inj in H; lia.
  - apply mem_true. simpl. auto.
Qed.

Lemma insert_before (a b : TileCoordinate) (s : StdSet.t) :
  coord_lt a b -> StdSet.insert a (b :: s) = a :: b :: s.
Proof.
  intros H. simpl. destruct (coord_lt_dec a b); [reflexivity | contradiction].
Qed.

Lemma halfWorld_cell_inGrid : inGrid (tileAt 0 1 1).
Proof.
  apply tileAt_inGrid; rewrite pow2_1; simpl; lra.
Qed.

(** The two sets and the lookups of the loops on the example layer. *)
Lemma halfWorld_collected :
  collected halfWorldLayer exampleProvider
  = mkCollected [tileAt 0 0 0; tileAt 0 0 1] [tileAt 0 1 1]
                [GetTile (tileAt 0 0 1); GetTile (tileAt 0 1 1);
                 GetTile (tileAt 0 1 1); GetTile (tileAt 0 0 0)].
Proof.
  destruct halfWorld_tiles as [Hfine [Hmiss Hparent]].
  unfold collected. rewrite halfWorld_baseZoom, halfWorld_bounds.
  unfold collectVisible.
  change (intRange (minCol (mkBounds 0 2 0 1)) (maxCol (mkBounds 0 2 0 1)))
    with [0%Z; 1%Z].
  cbn [fold_left]. unfold visitColumn.
  change (intRange (minRow (mkBounds 0 2 0 1)) (maxRow (mkBounds 0 2 0 1)))
    with [0%Z].
  cbn [fold_left].
  change (_loader halfWorldLayer) with halfWorldLoader.
  assert (E1 : forall acc,
             visitCell halfWorldLoader (getMinZoom exampleProvider) 1 0 acc 0
             = mkCollected (StdSet.insert (tileAt 0 0 1)
                                          (coordinatesToDraw acc))
                           (requestedCoordinates acc)
                           (lookups acc ++ [GetTile (tileAt 0 0 1)])).
  { intros acc. unfold visitCell. fold (tileAt 0 0 1). now rewrite Hfine. }
  rewrite E1.
  rewrite (visitCell_parent halfWorldLoader 0 1 1 halfWorld_cell_inGrid
             (getMinZoom exampleProvider));
    [| simpl; lia | exact Hmiss | exact Hparent].
  change (tileAt (0 / 2) (1 / 2) (1 - 1)) with (tileAt 0 0 0).
  cbn [coordinatesToDraw requestedCoordinates lookups StdSet.empty app].
  change (StdSet.insert (tileAt 0 0 1) StdSet.empty) with [tileAt 0 0 1].
  change (StdSet.insert (tileAt 0 1 1) StdSet.empty) with [tileAt 0 1 1].
  rewrite insert_before; [reflexivity |].
  left. simpl. lra.
Qed.

Lemma zeroLayer_baseZoom : baseZoomOf zeroLayer exampleProvider = 0%Z.
Proof.
  unfold baseZoomOf. simpl.
  rewrite (round_IZR 0). unfold CLAMP.
  destruct (Rlt_dec 0 0); [lra |].
  destruct (Rgt_dec 0 18); [lra |].
  apply to_int_IZR.
Qed.

Lemma zeroLayer_cell_inGrid : inGrid (tileAt 0 0 0).
Proof.
  apply tileAt_inGrid; rewrite pow2_0; simpl; lra.
Qed.

(** ** The bounds of the rectangle *)

Lemma round_integral (x : R) : exists k : Z, round x = IZR k.
Proof. unfold round. destruct (Rle_dec 0 x); eexists; reflexivity. Qed.

Lemma CLAMP_integral (k lo hi : Z) :
  exists m : Z, CLAMP (IZR k) (IZR lo) (IZR hi) = IZR m.
Proof.
  unfold CLAMP.
  destruct (Rlt_dec (IZR k) (IZR lo)); [now exists lo |].
  destruct (Rgt_dec (IZR k) (IZR hi)); [now exists hi | now exists k].
Qed.

Lemma baseZoomOf_spec (st : TileLayer) (p : BaseTileProvider) :
  (getMinZoom p <= getMaxZoom p)%Z ->
  IZR (baseZoomOf st p) = spec_baseZoom st p.
Proof.
  intros H. unfold baseZoomOf, spec_baseZoom.
  rewrite <- CLAMP_spec_clamp by now apply IZR_le.
  destruct (round_integral (getZoom (_center st))) as [k ->].
  destruct (CLAMP_integral k (getMinZoom p) (getMaxZoom p)) as [m ->].
  now rewrite to_int_IZR.
Qed.

Lemma baseZoomOf_range (st : TileLayer) (p : BaseTileProvider) :
  (getMinZoom p <= getMaxZoom p)%Z ->
  (getMinZoom p <= baseZoomOf st p <= getMaxZoom p)%Z.
Proof.
  intros H. pose proof (baseZoomOf_spec st p H) as E.
  unfold spec_baseZoom in E. rewrite <- CLAMP_spec_clamp in E
    by now apply IZR_le.
  destruct (CLAMP_range (round (getZoom (_center st)))
              (IZR (getMinZoom p)) (IZR (getMaxZoom p))) as [H1 H2];
    [now apply IZR_le |].
  rewrite <- E in H1, H2. split; now apply le_IZR.
Qed.

Lemma min4_spec (a b c d : R) :
  std_min (std_min a b) (std_min c d) = spec_minimum [a; b; c; d].
Proof.
  rewrite !std_min_Rmin. simpl. now rewrite Rmin_assoc.
Qed.

Lemma max4_spec (a b c d : R) :
  std_max (std_max a b) (std_max c d) = spec_maximum [a; b; c; d].
Proof.
  rewrite !std_max_Rmax. simpl. now rewrite Rmax_assoc.
Qed.

Lemma to_int_floor (x : R) : to_int (std_floor x) = Zfloor x.
Proof. unfold std_floor. apply to_int_IZR. Qed.

Lemma to_int_ceil (x : R) : to_int (std_ceil x) = Zceil x.
Proof. unfold std_ceil. apply to_int_IZR. Qed.

Lemma visibleBounds_spec (st : TileLayer) (baseZoom : Z) :
  visibleBounds st baseZoom = spec_visibleBounds st baseZoom.
Proof.
  unfold visibleBounds, spec_visibleBounds, cornerPoints.
  rewrite !min4_spec, !max4_spec, !to_int_floor, !to_int_ceil.
  rewrite !clamp_cell by apply pow2_pos.
  reflexivity.
Qed.

Lemma pow2_whole (n : Z) :
  (0 <= n)%Z -> IZR (Zfloor (pow2 (IZR n))) = pow2 (IZR n).
Proof.
  intros H. rewrite (pow2_IZR n H). now rewrite ZfloorZ.
Qed.

(** *** A layer without a size *)

Lemma zero_size_corner (st : TileLayer) (p : BaseTileProvider)
    (baseZoom : Z) (pt : dvec2) :
  _provider st = Some p -> _width st = 0 -> _height st = 0 ->
  vx pt = 0 -> vy pt = 0 ->
  cornerCoordinate st baseZoom pt = zoomTo (_center st) (IZR baseZoom).
Proof.
  intros Hp Hw Hh Hx Hy.
  unfold cornerCoordinate, layerPointToTileCoordinate, getCenter.
  rewrite Hp, Hw, Hh, Hx, Hy. simpl fst.
  replace ((0 - 0 / 2) / IZR (getTileWidth p)) with 0
    by (unfold Rdiv; ring).
  replace ((0 - 0 / 2) / IZR (getTileHeight p)) with 0
    by (unfold Rdiv; ring).
  rewrite !Rplus_0_r. now destruct (_center st).
Qed.

Lemma std_min_same (a : R) : std_min (std_min a a) (std_min a a) = a.
Proof.
  assert (E : std_min a a = a)
    by (unfold std_min; now destruct (Rlt_dec a a)).
  now rewrite !E.
Qed.

Lemma std_max_same (a : R) : std_max (std_max a a) (std_max a a) = a.
Proof.
  assert (E : std_max a a = a)
    by (unfold std_max; now destruct (Rlt_dec a a)).
  now rewrite !E.
Qed.

Lemma zero_size_bounds (st : TileLayer) (p : BaseTileProvider)
    (baseZoom : Z) :
  _provider st = Some p -> _width st = 0 -> _height st = 0 ->
  let c := zoomTo (_center st) (IZR baseZoom) in
  let gridSize := pow2 (IZR baseZoom) in
  visibleBounds st baseZoom
  = mkBounds
      (spec_clamp_cell (Zfloor (getColumn c) - _padColumn st) gridSize)
      (spec_clamp_cell (Zceil (getColumn c) + _padColumn st) gridSize)
      (spec_clamp_cell (Zfloor (getRow c) - _padRow st) gridSize)
      (spec_clamp_cell (Zceil (getRow c) + _padRow st) gridSize).
Proof.
  intros Hp Hw Hh c gridSize.
  unfold visibleBounds. rewrite Hw, Hh.
  rewrite (zero_size_corner st p baseZoom (mkVec2 0 0) Hp Hw Hh eq_refl
             eq_refl).
  fold c. rewrite !std_min_same, !std_max_same.
  rewrite !to_int_floor, !to_int_ceil.
  rewrite !clamp_cell by apply pow2_pos.
  reflexivity.
Qed.



(** ** More example layers, evaluated *)

Ltac upper_half_baseZoom :=
  unfold baseZoomOf; simpl;
  rewrite (round_IZR 1); unfold CLAMP;
  destruct (Rlt_dec _ _); [lra |];
  destruct (Rgt_dec _ _); [lra |];
  apply to_int_IZR.

Ltac upper_half_bounds layer :=
  let E := fresh "E" in
  assert (E : forall x y,
             cornerCoordinate layer 1 (mkVec2 x y)
             = mkCoord (0.5 + (y - 256 / 2) / 256) (1 + (x - 512 / 2) / 256) 1);
  [ intros x y; unfold cornerCoordinate, layerPointToTileCoordinate, zoomTo;
    simpl; replace (1 - 1) with 0 by lra; rewrite pow2_0;
    f_equal; lra
  | unfold visibleBounds; rewrite !E; simpl;
    rewrite !std_min_Rmin, !std_max_Rmax;
    replace (1 + (0 - 512 / 2) / 256) with (IZR 0) by (simpl; lra);
    replace (1 + (512 - 512 / 2) / 256) with (IZR 2) by (simpl; lra);
    replace (0.5 + (0 - 256 / 2) / 256) with (IZR 0) by (simpl; lra);
    replace (0.5 + (256 - 256 / 2) / 256) with (IZR 1) by (simpl; lra);
    replace (Rmin (Rmin (IZR 0) (IZR 2)) (Rmin (IZR 0) (IZR 2)))
      with (IZR 0)
      by (unfold Rmin; repeat destruct (Rle_dec _ _); lra);
    replace (Rmax (Rmax (IZR 0) (IZR 2)) (Rmax (IZR 0) (IZR 2)))
      with (IZR 2)
      by (unfold Rmax; repeat destruct (Rle_dec _ _); lra);
    replace (Rmin (Rmin (IZR 0) (IZR 0)) (Rmin (IZR 1) (IZR 1)))
      with (IZR 0)
      by (unfold Rmin; repeat destruct (Rle_dec _ _); lra);
    replace (Rmax (Rmax (IZR 0) (IZR 0)) (Rmax (IZR 1) (IZR 1)))
      with (IZR 1)
      by (unfold Rmax; repeat destruct (Rle_dec _ _); lra);
    unfold std_floor, std_ceil;
    rewrite !ZfloorZ, !Zceil_IZR, !to_int_IZR;
    rewrite !clamp_cell by apply pow2_pos;
    unfold spec_clamp_cell; rewrite pow2_1, (ZfloorZ 2);
    reflexivity ].



Lemma cachedHalfWorld_baseZoom :
  baseZoomOf cachedHalfWorldLayer exampleProvider = 1%Z.
Proof. upper_half_baseZoom. Qed.

Lemma cachedHalfWorld_bounds :
  visibleBounds cachedHalfWorldLayer 1 = mkBounds 0 2 0 1.
Proof. upper_half_bounds cachedHalfWorldLayer. Qed.


(** *** The world in one tile *)

Lemma without_self (c : TileCoordinate) :
  LoaderActivity.without c [c] = [].
Proof.
  unfold LoaderActivity.without. simpl.
  destruct (coord_eq_dec c c); [reflexivity | contradiction].
Qed.

Lemma mem_self (c : TileCoordinate) (l : list TileCoordinate) :
  Loader.mem c (c :: l) = true.
Proof. apply mem_true. now left. Qed.

Section OneCell.
Variable st : TileLayer.
Variable p : BaseTileProvider.
Hypothesis coarsest : getMinZoom p = 0%Z.
Hypothesis baseZoom : baseZoomOf st p = 0%Z.
Hypothesis bounds : visibleBounds st 0 = mkBounds 0 1 0 1.

Lemma oneCell_missing :
  Loader.getTile (_loader st) (tileAt 0 0 0) = false ->
  collected st p
  = mkCollected StdSet.empty [tileAt 0 0 0]
                [GetTile (tileAt 0 0 0); GetTile (tileAt 0 0 0)].
Proof.
  intros Hmiss.
  unfold collected. rewrite baseZoom, bounds, coarsest.
  unfold collectVisible.
  change (intRange (minCol (mkBounds 0 1 0 1)) (maxCol (mkBounds 0 1 0 1)))
    with [0%Z].
  cbn [fold_left]. unfold visitColumn.
  change (intRange (minRow (mkBounds 0 1 0 1)) (maxRow (mkBounds 0 1 0 1)))
    with [0%Z].
  cbn [fold_left].
  unfold visitCell. fold (tileAt 0 0 0). rewrite Hmiss.
  cbn [negb coordinatesToDraw requestedCoordinates lookups].
  replace (getZoom (tileAt 0 0 0)) with (IZR 0) by reflexivity.
  rewrite to_int_IZR.
  change (intRangeDown 0 0) with [0%Z].
  cbn [walkParents].
  rewrite (parentAt_self 0 0 0 zeroLayer_cell_inGrid), Hmiss.
  cbn [negb coordinatesToDraw requestedCoordinates lookups].
  rewrite StdSetFacts.insert_idem. reflexivity.
Qed.

Lemma oneCell_cached :
  Loader.getTile (_loader st) (tileAt 0 0 0) = true ->
  collected st p
  = mkCollected [tileAt 0 0 0] StdSet.empty [GetTile (tileAt 0 0 0)].
Proof.
  intros Hget.
  unfold collected. rewrite baseZoom, bounds, coarsest.
  unfold collectVisible.
  change (intRange (minCol (mkBounds 0 1 0 1)) (maxCol (mkBounds 0 1 0 1)))
    with [0%Z].
  cbn [fold_left]. unfold visitColumn.
  change (intRange (minRow (mkBounds 0 1 0 1)) (maxRow (mkBounds 0 1 0 1)))
    with [0%Z].
  cbn [fold_left].
  unfold visitCell. fold (tileAt 0 0 0). rewrite Hget.
  reflexivity.
Qed.

End OneCell.

Lemma zeroLayer_bounds : visibleBounds zeroLayer 0 = mkBounds 0 1 0 1.
Proof.
  rewrite (zero_size_bounds zeroLayer exampleProvider 0 eq_refl eq_refl
             eq_refl).
  simpl. replace (0 - 0) with 0 by lra. rewrite pow2_0.
  assert (Hf : Zfloor (0.5 * 1) = 0%Z) by (apply Zfloor_eq; simpl; lra).
  assert (Hc : Zceil (0.5 * 1) = 1%Z) by (apply Zceil_eq; simpl; lra).
  rewrite Hf, Hc. unfold spec_clamp_cell. rewrite (ZfloorZ 1).
  reflexivity.
Qed.

(** The resolution on the layer without a size. *)
Lemma zeroLayer_resolved :
  getVisibleCoordinates exampleSorter zeroLayer
  = (StdSet.empty,
     Loader.mk [] [tileAt 0 0 0] [],
     [GetTile (tileAt 0 0 0); GetTile (tileAt 0 0 0);
      CancelQueued; Start (tileAt 0 0 0)]).
Proof.
  rewrite (getVisibleCoordinates_provider exampleSorter zeroLayer
             exampleProvider eq_refl).
  unfold tilesToRequest.
  rewrite (oneCell_missing zeroLayer exampleProvider eq_refl
             zeroLayer_baseZoom zeroLayer_bounds eq_refl).
  reflexivity.
Qed.

Lemma worldWith_baseZoom (l : Loader.t) (dirty : bool) (visible : StdSet.t) :
  baseZoomOf (worldWith l dirty visible) exampleProvider = 0%Z.
Proof.
  unfold baseZoomOf. simpl.
  rewrite (round_IZR 0). unfold CLAMP.
  destruct (Rlt_dec 0 0); [lra |].
  destruct (Rgt_dec 0 18); [lra |].
  apply to_int_IZR.
Qed.

Lemma worldWith_bounds (l : Loader.t) (dirty : bool) (visible : StdSet.t) :
  visibleBounds (worldWith l dirty visible) 0 = mkBounds 0 1 0 1.
Proof.
  assert (E : forall x y,
             cornerCoordinate (worldWith l dirty visible) 0 (mkVec2 x y)
             = mkCoord (0.5 + (y - 256 / 2) / 256)
                       (0.5 + (x - 256 / 2) / 256) 0).
  { intros x y. unfold cornerCoordinate, layerPointToTileCoordinate, zoomTo.
    simpl. replace (0 - 0) with 0 by lra. rewrite pow2_0.
    f_equal; lra. }
  unfold visibleBounds. rewrite !E. simpl.
  rewrite !std_min_Rmin, !std_max_Rmax.
  replace (0.5 + (0 - 256 / 2) / 256) with (IZR 0) by (simpl; lra).
  replace (0.5 + (256 - 256 / 2) / 256) with (IZR 1) by (simpl; lra).
  replace (Rmin (Rmin (IZR 0) (IZR 1)) (Rmin (IZR 0) (IZR 1))) with (IZR 0)
    by (unfold Rmin; repeat destruct (Rle_dec _ _); lra).
  replace (Rmax (Rmax (IZR 0) (IZR 1)) (Rmax (IZR 0) (IZR 1))) with (IZR 1)
    by (unfold Rmax; repeat destruct (Rle_dec _ _); lra).
  replace (Rmin (Rmin (IZR 0) (IZR 0)) (Rmin (IZR 1) (IZR 1))) with (IZR 0)
    by (unfold Rmin; repeat destruct (Rle_dec _ _); lra).
  replace (Rmax (Rmax (IZR 0) (IZR 0)) (Rmax (IZR 1) (IZR 1))) with (IZR 1)
    by (unfold Rmax; repeat destruct (Rle_dec _ _); lra).
  unfold std_floor, std_ceil.
  rewrite !ZfloorZ, !Zceil_IZR, !to_int_IZR.
  rewrite !clamp_cell by apply pow2_pos.
  unfold spec_clamp_cell. rewrite pow2_0, (ZfloorZ 1).
  reflexivity.
Qed.

Lemma std_min_IZR (a b : Z) : std_min (IZR a) (IZR b) = IZR (Z.min a b).
Proof.
  unfold std_min. destruct (Rlt_dec (IZR b) (IZR a)) as [H | H].
  - apply lt_IZR in H. f_equal. lia.
  - assert ((a <= b)%Z) by (apply le_IZR; lra). f_equal. lia.
Qed.

Lemma c_log2_1 : c_log2 1 = 0.
Proof. unfold c_log2. rewrite ln_1. unfold Rdiv. ring. Qed.

(** [setup] with the example provider and 256 by 256 pixels brings a new
    layer to the world in one tile. *)
Lemma world_setup :
  setup TileLayer_new (Some exampleProvider) 256 256
  = (worldWith (Loader.mk [] [] []) true StdSet.empty, [],
     Some (mkVec2 256 256)).
Proof.
  unfold setup, worldWith.
  assert (Hz : c_log2 (std_min (IZR 256) (IZR 256)
                       / IZR (Z.min (getTileWidth exampleProvider)
                                    (getTileHeight exampleProvider)))
               = 0).
  { rewrite std_min_IZR.
    change (Z.min (getTileWidth exampleProvider)
                  (getTileHeight exampleProvider)) with 256%Z.
    change (Z.min 256 256) with 256%Z.
    replace (IZR 256 / IZR 256) with 1 by lra. apply c_log2_1. }
  rewrite Hz. unfold zoomTo. simpl.
  replace (0 - 0) with 0 by lra. rewrite pow2_0, Rmult_1_r.
  reflexivity.
Qed.

(** The first draw finds no tile and asks for the one there is. *)
Lemma world_first_draw (x y : R) :
  draw exampleSorter (worldWith (Loader.mk [] [] []) true StdSet.empty) x y
  = Some (worldWith (Loader.mk [] [tileAt 0 0 0] []) false StdSet.empty,
          [GetTile (tileAt 0 0 0); GetTile (tileAt 0 0 0); CancelQueued;
           Start (tileAt 0 0 0); FboBegin; OfClear; FboEnd; FboDraw x y]).
Proof.
  set (st := worldWith (Loader.mk [] [] []) true StdSet.empty).
  assert (Hres : getVisibleCoordinates exampleSorter st
                 = (StdSet.empty, Loader.mk [] [tileAt 0 0 0] [],
                    [GetTile (tileAt 0 0 0); GetTile (tileAt 0 0 0);
                     CancelQueued; Start (tileAt 0 0 0)])).
  { rewrite (getVisibleCoordinates_provider exampleSorter st
               exampleProvider eq_refl).
    unfold tilesToRequest.
    rewrite (oneCell_missing st exampleProvider eq_refl
               (worldWith_baseZoom _ _ _) (worldWith_bounds _ _ _) eq_refl).
    reflexivity. }
  unfold draw, refreshVisible.
  change (_coordsDirty st) with true. cbv iota.
  rewrite Hres. reflexivity.
Qed.

(** The draw after the tile has arrived finds it and draws it. *)
Lemma world_second_draw (x y : R) :
  exists tx ty w h,
    draw exampleSorter
         (worldWith (Loader.mk [tileAt 0 0 0] [] []) true StdSet.empty) x y
    = Some (worldWith (Loader.mk [tileAt 0 0 0] [] []) false [tileAt 0 0 0],
            [GetTile (tileAt 0 0 0); CancelQueued; FboBegin; OfClear;
             GetTile (tileAt 0 0 0); TileDraw (tileAt 0 0 0) tx ty w h;
             FboEnd; FboDraw x y]).
Proof.
  set (st := worldWith (Loader.mk [tileAt 0 0 0] [] []) true StdSet.empty).
  assert (Hget : Loader.getTile (Loader.mk [tileAt 0 0 0] [] [])
                                (tileAt 0 0 0) = true)
    by apply mem_self.
  assert (Hres : getVisibleCoordinates exampleSorter st
                 = ([tileAt 0 0 0], Loader.mk [tileAt 0 0 0] [] [],
                    [GetTile (tileAt 0 0 0); CancelQueued])).
  { rewrite (getVisibleCoordinates_provider exampleSorter st
               exampleProvider eq_refl).
    unfold tilesToRequest.
    rewrite (oneCell_cached st exampleProvider eq_refl
               (worldWith_baseZoom _ _ _) (worldWith_bounds _ _ _) Hget).
    reflexivity. }
  unfold draw, refreshVisible.
  change (_coordsDirty st) with true. cbv iota.
  rewrite Hres.
  cbn [StdSet.reverse_elements rev app _visisbleCoords drawTiles _loader].
  rewrite Hget.
  cbn [_provider st worldWith option_map drawTiles].
  do 4 eexists. reflexivity.
Qed.

(** The scenario from the constructor: the second draw shows the tile
    that was fetched between the two. *)
Lemma fetchScenario_run :
  exists st' events,
    run exampleSorter TileLayer_new fetchScenario = Some (st', events)
    /\ _visisbleCoords st' = [tileAt 0 0 0]
    /\ Loader.cached (_loader st') = [tileAt 0 0 0]
    /\ drawnTiles events = [tileAt 0 0 0]
    /\ started events = [tileAt 0 0 0]
    /\ cancelCount events = 2%nat.
Proof.
  destruct (world_second_draw 0 0) as [tx [ty [w [h Hsecond]]]].
  unfold fetchScenario, run, step.
  rewrite world_setup. cbn [fst].
  rewrite world_first_draw.
  unfold LoaderActivity.transfer, withLoader.
  cbn [_loader worldWith Loader.queued Loader.cached Loader.active
       _width _height _coordsDirty _center _padColumn _padRow _provider
       _visisbleCoords].
  rewrite mem_self, without_self.
  unfold LoaderActivity.complete.
  cbn [Loader.queued Loader.cached Loader.active].
  rewrite mem_self, without_self.
  unfold onTileCached.
  cbn [_loader Loader.queued Loader.cached Loader.active
       _width _height _coordsDirty _center _padColumn _padRow _provider
       _visisbleCoords].
  change (mkLayer 256 256 (Loader.mk [tileAt 0 0 0] [] []) true
                  (mkCoord 0.5 0.5 0) 0 0 (Some exampleProvider) StdSet.empty)
    with (worldWith (Loader.mk [tileAt 0 0 0] [] []) true StdSet.empty).
  rewrite Hsecond.
  eexists. eexists. split; [reflexivity |].
  repeat split; reflexivity.
Qed.

(** ** What every reachable layer satisfies *)

Section Reachable.
Variable QueueSorter :
  TileCoordinate -> TileCoordinate -> TileCoordinate -> bool.

Lemma new_layer_ok : providerOk TileLayer_new /\ visibleSorted TileLayer_new.
Proof. split; [intros _; reflexivity | constructor]. Qed.

Lemma step_preserves (st st' : TileLayer) (op : Op) (events : list Event) :
  step QueueSorter st op = Some (st', events) ->
  providerOk st /\ visibleSorted st ->
  providerOk st' /\ visibleSorted st'.
Proof.
  intros Hstep [Hp Hs].
  destruct op; simpl in Hstep;
    try (inversion Hstep; subst; now split).
  - destruct provider as [p |]; simpl in Hstep; inversion Hstep; subst;
      [| now split].
    split; [intros Hnone; discriminate | exact Hs].
  - unfold setCenterGeo in Hstep.
    destruct (_provider st) eqn:E; inversion Hstep; subst; now split.
  - destruct (LoaderActivity.complete (_loader st) args);
      inversion Hstep; subst; now split.
  - destruct (draw_inv QueueSorter st x y st' events Hstep) as [-> _].
    split; [now apply refreshVisible_providerOk
           | now apply refreshVisible_sorted].
Qed.

Lemma run_preserves (ops : list Op) (st st' : TileLayer)
    (events : list Event) :
  run QueueSorter st ops = Some (st', events) ->
  providerOk st /\ visibleSorted st ->
  providerOk st' /\ visibleSorted st'.
Proof.
  revert st events. induction ops as [| op rest IH]; intros st events; simpl.
  - intros H. inversion H; subst. auto.
  - destruct (step QueueSorter st op) as [[st1 ev1] |] eqn:Hstep;
      [| discriminate].
    destruct (run QueueSorter st1 rest) as [[st2 ev2] |] eqn:Hrun;
      [| discriminate].
    intros H Hok. inversion H; subst.
    apply (IH st1 ev2 Hrun).
    now apply (step_preserves st st1 op ev1).
Qed.

(** No sequence of operations on a layer that satisfies the two
    conditions stops short. *)
Lemma run_returns (ops : list Op) (st : TileLayer) :
  providerOk st /\ visibleSorted st ->
  exists st' events, run QueueSorter st ops = Some (st', events).
Proof.
  revert st. induction ops as [| op rest IH]; intros st Hok; simpl.
  - eexists; eexists; reflexivity.
  - assert (Hstep : exists st1 ev1,
               step QueueSorter st op = Some (st1, ev1)).
    { destruct op; simpl; try (eexists; eexists; reflexivity).
      - destruct (fst (setup st provider width height)).
        eexists; eexists; reflexivity.
      - destruct (setCenterGeo st center zoom). eexists; eexists; reflexivity.
      - destruct (LoaderActivity.complete (_loader st) args);
          eexists; eexists; reflexivity.
      - apply draw_returns. apply Hok. }
    destruct Hstep as [st1 [ev1 Hstep]]. rewrite Hstep.
    destruct (IH st1 (step_preserves st st1 op ev1 Hstep Hok))
      as [st2 [ev2 Hrun]].
    rewrite Hrun. eexists; eexists; reflexivity.
Qed.

End Reachable.

(** * The claims *)

(** ** Rescaling *)

(** C9.  For every coordinate [c] and all zoom levels [z1] and [z2], real
    ones included, rescaling [c] to [z1] and then to [z2] gives the same
    coordinate as rescaling it to [z2] at once. *)
Theorem zoomTo_path_independent (c : TileCoordinate) (z1 z2 : R) :
  zoomTo (zoomTo c z1) z2 = zoomTo c z2.
Proof.
  unfold zoomTo. simpl.
  assert (E : pow2 (z1 - getZoom c) * pow2 (z2 - z1) = pow2 (z2 - getZoom c)).
  { rewrite <- pow2_add. f_equal. lra. }
  rewrite !Rmult_assoc, E. reflexivity.
Qed.

(** ** A layer without a provider *)

(** C5.  Without a provider [getVisibleCoordinates] logs an error, returns
    the empty set and leaves the loader alone (no fetch is cancelled or
    started); [setCenter] with a geographic coordinate logs an error and
    leaves the whole layer, its center included, as it was; and
    [layerPointToTileCoordinate] logs an error and returns the center.  All
    three return. *)
Theorem no_provider_noop
    (QueueSorter : TileCoordinate -> TileCoordinate -> TileCoordinate -> bool)
    (st : TileLayer) :
  _provider st = None ->
  getVisibleCoordinates QueueSorter st
  = (StdSet.empty, _loader st,
     [providerNotDefined "TileLayer::layerPointToTileCoordinate"])
  /\ (forall center zoom,
         setCenterGeo st center zoom
         = (st, [providerNotDefined "TileLayer::setCenter"]))
  /\ (forall layerPoint,
         layerPointToTileCoordinate st layerPoint
         = (getCenter st,
            [providerNotDefined "TileLayer::layerPointToTileCoordinate"])).
Proof.
  intros Hp. split; [| split].
  - now apply getVisibleCoordinates_no_provider.
  - intros center zoom. unfold setCenterGeo. now rewrite Hp.
  - intros layerPoint. unfold layerPointToTileCoordinate. now rewrite Hp.
Qed.

Lemma no_provider_noop_witness :
  _provider TileLayer_new = None
  /\ getVisibleCoordinates exampleSorter TileLayer_new
     = (StdSet.empty, _loader TileLayer_new,
        [providerNotDefined "TileLayer::layerPointToTileCoordinate"])
  /\ (forall center zoom,
         setCenterGeo TileLayer_new center zoom
         = (TileLayer_new, [providerNotDefined "TileLayer::setCenter"]))
  /\ (forall layerPoint,
         layerPointToTileCoordinate TileLayer_new layerPoint
         = (getCenter TileLayer_new,
            [providerNotDefined "TileLayer::layerPointToTileCoordinate"])).
Proof.
  split; [reflexivity |].
  apply (no_provider_noop exampleSorter TileLayer_new). reflexivity.
Defined.

(** ** The frame of [draw] *)

(** The resolution leaves the running transfers to the loader. *)
Lemma getVisibleCoordinates_active
    (QueueSorter : TileCoordinate -> TileCoordinate -> TileCoordinate -> bool)
    (st : TileLayer) :
  Loader.active (snd (fst (getVisibleCoordinates QueueSorter st)))
  = Loader.active (_loader st).
Proof.
  destruct (_provider st) as [p |] eqn:Hp.
  - rewrite (getVisibleCoordinates_provider QueueSorter st p Hp). simpl.
    destruct (issueRequests_started
                (tilesToRequest QueueSorter st p)
                (Loader.cancelQueued (_loader st))) as [_ [_ [_ [_ Ha]]]].
    rewrite Ha. reflexivity.
  - unfold getVisibleCoordinates. rewrite Hp. reflexivity.
Qed.

(** C10, as the code has it.  [draw(x, y)] returns on every layer whose
    memoized set is empty while there is no provider (every layer built by
    the constructor and the operations is such a layer), and whenever it
    returns, the center, the width, the height, the two paddings and the
    provider are those it started with and the flag is cleared.  Beside
    the memoized set and the flag it can change the loader, a member of
    the layer: a draw that finds the flag set keeps the set and the loader
    that [getVisibleCoordinates] leaves, whose queue of pending fetches is
    the one [cancelQueued] and [start] built.  The tiles of the cache and
    the running transfers are never changed; a draw that finds the flag
    cleared, and a draw without a provider, leave the whole loader as it
    was, and the first of them the memoized set too. *)
Theorem draw_frame
    (QueueSorter : TileCoordinate -> TileCoordinate -> TileCoordinate -> bool)
    (st : TileLayer) (x y : R) :
  (providerOk st ->
   exists st' events, draw QueueSorter st x y = Some (st', events))
  /\ (forall st' events,
         draw QueueSorter st x y = Some (st', events) ->
         _center st' = _center st
         /\ _width st' = _width st /\ _height st' = _height st
         /\ _padColumn st' = _padColumn st /\ _padRow st' = _padRow st
         /\ _provider st' = _provider st
         /\ _coordsDirty st' = false
         /\ Loader.cached (_loader st') = Loader.cached (_loader st)
         /\ Loader.active (_loader st') = Loader.active (_loader st)
         /\ (_coordsDirty st = true ->
             _visisbleCoords st'
             = fst (fst (getVisibleCoordinates QueueSorter st))
             /\ _loader st'
                = snd (fst (getVisibleCoordinates QueueSorter st)))
         /\ (_coordsDirty st = false ->
             _visisbleCoords st' = _visisbleCoords st
             /\ _loader st' = _loader st)
         /\ (_provider st = None -> _loader st' = _loader st)).
Proof.
  split.
  - apply draw_returns.
  - intros st' events H.
    destruct (draw_inv QueueSorter st x y st' events H) as [-> _].
    destruct (refreshVisible_frame QueueSorter st)
      as [Hw [Hh [Hc [Hpc [Hpr [Hp [Hd Hl]]]]]]].
    repeat (split; [assumption |]).
    unfold refreshVisible.
    pose proof (getVisibleCoordinates_active QueueSorter st) as Ha.
    pose proof (getVisibleCoordinates_no_provider QueueSorter st) as Hn.
    destruct (_coordsDirty st).
    + destruct (getVisibleCoordinates QueueSorter st)
        as [[visible loader] ev].
      simpl in *.
      split; [exact Ha |].
      split; [intros _; now split |].
      split; [discriminate |].
      intros Hnone. specialize (Hn Hnone). now inversion Hn.
    + simpl.
      split; [reflexivity |].
      split; [discriminate |].
      split; [intros _; now split |].
      reflexivity.
Qed.

Lemma draw_frame_witness :
  providerOk halfWorldLayer
  /\ exists st' events,
      draw exampleSorter halfWorldLayer 0 0 = Some (st', events)
      /\ _center st' = _center halfWorldLayer
      /\ _width st' = _width halfWorldLayer
      /\ _height st' = _height halfWorldLayer
      /\ _padColumn st' = _padColumn halfWorldLayer
      /\ _padRow st' = _padRow halfWorldLayer
      /\ _provider st' = _provider halfWorldLayer
      /\ _coordsDirty st' = false
      /\ Loader.cached (_loader st') = Loader.cached (_loader halfWorldLayer)
      /\ Loader.active (_loader st') = Loader.active (_loader halfWorldLayer).
Proof.
  assert (Hok : providerOk halfWorldLayer) by (intros Hp; discriminate).
  split; [exact Hok |].
  destruct (proj1 (draw_frame exampleSorter halfWorldLayer 0 0) Hok)
    as [st' [events Hdraw]].
  exists st', events.
  split; [exact Hdraw |].
  destruct (proj2 (draw_frame exampleSorter halfWorldLayer 0 0) st' events
                  Hdraw)
    as [H1 [H2 [H3 [H4 [H5 [H6 [H7 [H8 [H9 _]]]]]]]]].
  repeat (split; [assumption |]). exact H9.
Defined.

(** C10, as the claim words it, fails: the draw of a layer whose one
    visible tile is missing hands the tile to [start], and the loader of
    the layer, whose queue was empty, comes back with the fetch queued. *)
Lemma draw_changes_loader_queue :
  exists st' events,
    draw exampleSorter zeroLayer 0 0 = Some (st', events)
    /\ Loader.queued (_loader zeroLayer) = []
    /\ Loader.queued (_loader st') = [tileAt 0 0 0]
    /\ _loader st' <> _loader zeroLayer.
Proof.
  unfold draw, refreshVisible.
  change (_coordsDirty zeroLayer) with true. cbv iota.
  rewrite zeroLayer_resolved.
  eexists. eexists. split; [reflexivity |].
  split; [reflexivity |]. split; [reflexivity |].
  simpl. discriminate.
Qed.

(** ** The dirty flag *)

(** C6, as the code has it.  [setWidth], [setHeight], [setCenter] with a
    tile coordinate, [onTileCached] and [onTileUncached] set the flag;
    [setCenter] with a geographic coordinate sets it when there is a
    provider and otherwise leaves the layer, the flag included, as it was.
    [draw] resolves the visible set exactly when the flag is set, keeps the
    result as the memoized set and clears the flag; a draw that finds the
    flag cleared leaves the layer as it was, so that a second draw right
    after a first one resolves nothing and draws the same memoized set. *)
Theorem dirty_flag_discipline
    (QueueSorter : TileCoordinate -> TileCoordinate -> TileCoordinate -> bool)
    (st : TileLayer) :
  (forall width, _coordsDirty (setWidth st width) = true)
  /\ (forall height, _coordsDirty (setHeight st height) = true)
  /\ (forall center, _coordsDirty (setCenter st center) = true)
  /\ (forall center zoom,
         _provider st <> None ->
         _coordsDirty (fst (setCenterGeo st center zoom)) = true)
  /\ (forall center zoom,
         _provider st = None -> fst (setCenterGeo st center zoom) = st)
  /\ (forall args, _coordsDirty (onTileCached st args) = true)
  /\ (forall args, _coordsDirty (onTileUncached st args) = true)
  /\ (forall x y st' events,
         draw QueueSorter st x y = Some (st', events) ->
         _coordsDirty st' = false
         /\ (_coordsDirty st = true ->
             _visisbleCoords st'
             = fst (fst (getVisibleCoordinates QueueSorter st)))
         /\ (_coordsDirty st = false -> st' = st)
         /\ (filter is_resolve_event events <> [] <-> _coordsDirty st = true)
         /\ (forall x' y',
                exists events',
                  draw QueueSorter st' x' y' = Some (st', events')
                  /\ filter is_resolve_event events' = []
                  /\ drawnTiles events' = drawnTiles events)).
Proof.
  repeat (split; [reflexivity |]).
  split.
  { intros center zoom Hp. unfold setCenterGeo.
    destruct (_provider st); [reflexivity | contradiction]. }
  split.
  { intros center zoom Hp. unfold setCenterGeo. now rewrite Hp. }
  repeat (split; [reflexivity |]).
  intros x y st' events H.
  pose proof (draw_resolve_events QueueSorter st x y st' events H) as Hres.
  destruct (draw_inv QueueSorter st x y st' events H)
    as [Hst' [drawn [Hdrawn Hevents]]].
  assert (Hdirty : _coordsDirty st' = false).
  { rewrite Hst'. apply (refreshVisible_frame QueueSorter st). }
  split; [exact Hdirty |].
  split.
  { intros Hd. rewrite Hst'. unfold refreshVisible. rewrite Hd.
    destruct (getVisibleCoordinates QueueSorter st) as [[visible loader] ev].
    reflexivity. }
  split.
  { intros Hd. rewrite Hst'. unfold refreshVisible. now rewrite Hd. }
  split.
  { rewrite Hres. unfold refreshVisible.
    destruct (_coordsDirty st) eqn:Hd.
    - pose proof (getVisibleCoordinates_resolve_events QueueSorter st) as Hne.
      destruct (getVisibleCoordinates QueueSorter st) as [[visible loader] ev].
      simpl in *. split; [reflexivity | intros _; exact Hne].
    - simpl. split; [intros Hne; now elim Hne | discriminate]. }
  intros x' y'.
  assert (Hre : refreshVisible QueueSorter st' = (st', [])).
  { unfold refreshVisible. now rewrite Hdirty. }
  exists ([FboBegin; OfClear] ++ drawn ++ [FboEnd; FboDraw x' y']).
  split; [| split].
  - unfold draw. rewrite Hre, Hdrawn. reflexivity.
  - simpl. rewrite filter_app.
    rewrite (drawTiles_no_resolve st' _ drawn Hdrawn). reflexivity.
  - rewrite (draw_drawn QueueSorter st x y st' events H).
    rewrite !drawnTiles_app, (drawTiles_drawn st' _ drawn Hdrawn). simpl.
    apply app_nil_r.
Qed.

Lemma dirty_flag_discipline_witness :
  _provider TileLayer_new = None
  /\ fst (setCenterGeo TileLayer_new (Geo.mkGeo 0 0) 1) = TileLayer_new
  /\ _coordsDirty idleLayer = false
  /\ (_coordsDirty TileLayer_new = true ->
      _visisbleCoords idleLayer
      = fst (fst (getVisibleCoordinates exampleSorter TileLayer_new))).
Proof.
  pose proof (dirty_flag_discipline exampleSorter TileLayer_new)
    as [_ [_ [_ [_ [Hgeo [_ [_ Hdraw]]]]]]].
  assert (Hp : _provider TileLayer_new = None) by reflexivity.
  assert (Hd : draw exampleSorter TileLayer_new 0 0
               = Some (idleLayer,
                       [providerNotDefined "TileLayer::layerPointToTileCoordinate";
                        FboBegin; OfClear; FboEnd; FboDraw 0 0]))
    by reflexivity.
  destruct (Hdraw 0 0 _ _ Hd) as [H1 [H2 _]].
  split; [exact Hp |].
  split; [exact (Hgeo (Geo.mkGeo 0 0) 1 Hp) |].
  split; [exact H1 | exact H2].
Defined.

(** C6, as the claim words it, fails for [setCenter] with a geographic
    coordinate: on the layer a first draw leaves, which has no provider and
    a cleared flag, the call leaves the flag cleared. *)
Lemma setCenterGeo_leaves_flag_cleared :
  draw exampleSorter TileLayer_new 0 0
  = Some (idleLayer,
          [providerNotDefined "TileLayer::layerPointToTileCoordinate";
           FboBegin; OfClear; FboEnd; FboDraw 0 0])
  /\ _coordsDirty (fst (setCenterGeo idleLayer (Geo.mkGeo 0 0) 1)) = false
  /\ ~ (forall st center zoom,
           _coordsDirty (fst (setCenterGeo st center zoom)) = true).
Proof.
  split; [reflexivity |].
  split; [reflexivity |].
  intros H. specialize (H idleLayer (Geo.mkGeo 0 0) 1).
  simpl in H. discriminate.
Qed.

(** ** Duplicate requests *)

(** C8.  With a provider, [getVisibleCoordinates] hands every coordinate of
    the request set to [start], once each and in the order of the sort; the
    call throws for exactly the coordinates whose fetch is already
    transferring (what was only queued has just been cancelled), the
    exception is caught, and each coordinate after it is still handed to
    [start], so that every other requested coordinate is queued when the
    function returns.  The draw set returned is the one the loops
    collected: it is the same for any two layers that differ only in their
    pending fetches, so a duplicate is not visible in what the caller
    gets. *)
Theorem duplicate_start_skipped
    (QueueSorter : TileCoordinate -> TileCoordinate -> TileCoordinate -> bool)
    (st : TileLayer) (p : BaseTileProvider) :
  _provider st = Some p ->
  let result := getVisibleCoordinates QueueSorter st in
  let tiles := tilesToRequest QueueSorter st p in
  Permutation tiles (requestedCoordinates (collected st p))
  /\ started (snd result) = tiles
  /\ requestEvents (snd result)
     = map (fun c => if Loader.mem c (Loader.active (_loader st))
                     then StartExists c else Start c) tiles
  /\ (forall c, In c tiles -> ~ In c (Loader.active (_loader st)) ->
                In c (Loader.queued (snd (fst result))))
  /\ fst (fst result) = coordinatesToDraw (collected st p)
  /\ (forall st2, samePendingApart st st2 ->
                  fst (fst (getVisibleCoordinates QueueSorter st2))
                  = fst (fst result)).
Proof.
  intros Hp result tiles.
  pose proof (tiles_perm QueueSorter st p) as Hperm.
  pose proof (tiles_NoDup QueueSorter st p) as Hnd.
  pose proof (collected_ok st p) as Hok.
  pose proof (resolved_requests QueueSorter st p Hp) as Hreq.
  assert (Hres : result
                 = (coordinatesToDraw (collected st p),
                    fst (issueRequests (Loader.cancelQueued (_loader st))
                                       tiles),
                    lookups (collected st p) ++ [CancelQueued]
                    ++ snd (issueRequests (Loader.cancelQueued (_loader st))
                                          tiles)))
    by apply (getVisibleCoordinates_provider QueueSorter st p Hp).
  split; [exact Hperm |].
  split; [apply (resolved_started QueueSorter st p Hp) |].
  split.
  { unfold result. rewrite Hreq.
    now apply (issueRequests_trace tiles
                 (Loader.cancelQueued (_loader st))). }
  split.
  { intros c Hc Hact. rewrite Hres. simpl.
    apply issueRequests_queued; [exact Hc | | exact Hact].
    destruct Hok as [_ [_ [_ [Hr _]]]].
    apply (Hr c). apply (Permutation_in c Hperm Hc). }
  split; [now rewrite Hres |].
  intros st2 Hsame.
  assert (Hp2 : _provider st2 = Some p).
  { destruct Hsame as [_ [_ [_ [_ [_ [E _]]]]]]. now rewrite <- E. }
  rewrite (getVisibleCoordinates_provider QueueSorter st2 p Hp2), Hres.
  simpl. now rewrite (collected_ext st st2 p Hsame).
Qed.

Lemma duplicate_start_skipped_witness :
  _provider halfWorldLayer = Some exampleProvider
  /\ tilesToRequest exampleSorter halfWorldLayer exampleProvider
     = [tileAt 0 1 1]
  /\ Loader.mem (tileAt 0 1 1) (Loader.active (_loader halfWorldLayer)) = true
  /\ requestEvents (snd (getVisibleCoordinates exampleSorter halfWorldLayer))
     = [StartExists (tileAt 0 1 1)]
  /\ fst (fst (getVisibleCoordinates exampleSorter halfWorldLayer))
     = [tileAt 0 0 0; tileAt 0 0 1].
Proof.
  assert (Htiles : tilesToRequest exampleSorter halfWorldLayer exampleProvider
                   = [tileAt 0 1 1]).
  { unfold tilesToRequest. rewrite halfWorld_collected. reflexivity. }
  assert (Hmem : Loader.mem (tileAt 0 1 1)
                            (Loader.active (_loader halfWorldLayer)) = true).
  { apply mem_true. simpl. now left. }
  destruct (duplicate_start_skipped exampleSorter halfWorldLayer
              exampleProvider eq_refl) as [_ [_ [H1 [_ [H2 _]]]]].
  split; [reflexivity |].
  split; [exact Htiles |].
  split; [exact Hmem |].
  split.
  - rewrite H1, Htiles. cbn [map]. now rewrite Hmem.
  - rewrite H2. now rewrite halfWorld_collected.
Defined.

(** ** The grid boundary *)

(** C7.  With a provider, every coordinate that [getVisibleCoordinates]
    looks up in the cache, puts in the request set, hands to [start] or
    returns in the draw set has whole-number row and column inside the grid
    of its zoom level: at least 0 and less than [2^zoom]. *)
Theorem lookups_inside_grid
    (QueueSorter : TileCoordinate -> TileCoordinate -> TileCoordinate -> bool)
    (st : TileLayer) (p : BaseTileProvider) :
  _provider st = Some p ->
  let result := getVisibleCoordinates QueueSorter st in
  (forall c, In c (lookedUp (snd result)) -> inGrid c)
  /\ (forall c, In c (requestedCoordinates (collected st p)) -> inGrid c)
  /\ (forall c, In c (started (snd result)) -> inGrid c)
  /\ (forall c, In c (fst (fst result)) -> inGrid c).
Proof.
  intros Hp result.
  destruct (collected_ok st p) as [_ [_ [Hd [Hr Hl]]]].
  split; [| split; [| split]].
  - intros c Hc. unfold result in Hc.
    rewrite (resolved_lookups QueueSorter st p Hp) in Hc. now apply Hl.
  - intros c Hc. now apply Hr.
  - intros c Hc. unfold result in Hc.
    rewrite (resolved_started QueueSorter st p Hp) in Hc.
    apply Hr. eapply Permutation_in; [apply tiles_perm | exact Hc].
  - intros c Hc. unfold result in Hc.
    rewrite (resolved_draw_set QueueSorter st p Hp) in Hc. now apply Hd.
Qed.

Lemma lookups_inside_grid_witness :
  _provider halfWorldLayer = Some exampleProvider
  /\ (forall c,
         In c (lookedUp (snd (getVisibleCoordinates exampleSorter
                                                    halfWorldLayer))) ->
         inGrid c).
Proof.
  split; [reflexivity |].
  apply (lookups_inside_grid exampleSorter halfWorldLayer exampleProvider).
  reflexivity.
Defined.

(** ** The cached parent of a missing tile *)




(** ** The order of drawing *)

(** C2, as the code has it.  [draw] walks the memoized set from [rbegin()]
    to [rend()], that is from the greatest key to the least, and the keys
    ascend by zoom first.  So of two coordinates of the set that have
    tiles, the one with the greater key is drawn first; in particular the
    tile of the finer zoom is drawn before the tile of the coarser zoom, and
    the coarser one ends on top. *)
Theorem finer_tile_drawn_first
    (QueueSorter : TileCoordinate -> TileCoordinate -> TileCoordinate -> bool)
    (st : TileLayer) (x y : R) (st' : TileLayer) (events : list Event)
    (a b : TileCoordinate) :
  visibleSorted st ->
  draw QueueSorter st x y = Some (st', events) ->
  In a (_visisbleCoords st') -> In b (_visisbleCoords st') ->
  Loader.getTile (_loader st') a = true ->
  Loader.getTile (_loader st') b = true ->
  (coord_lt a b -> before (drawnTiles events) b a)
  /\ (getZoom a < getZoom b -> before (drawnTiles events) b a).
Proof.
  intros Hs Hdraw Ha Hb Hta Htb.
  assert (Hsorted : visibleSorted st').
  { destruct (draw_inv QueueSorter st x y st' events Hdraw) as [-> _].
    now apply refreshVisible_sorted. }
  assert (H : coord_lt a b -> before (drawnTiles events) b a).
  { intros Hlt. rewrite (draw_drawn QueueSorter st x y st' events Hdraw).
    apply before_filter; [| exact Htb | exact Hta].
    now apply StdSetFacts.reverse_elements_before. }
  split; [exact H |].
  intros Hz. apply H. now apply coord_lt_zoom.
Qed.

Lemma halfWorld_draw :
  exists st' events,
    draw exampleSorter halfWorldLayer 0 0 = Some (st', events)
    /\ _visisbleCoords st' = [tileAt 0 0 0; tileAt 0 0 1]
    /\ Loader.cached (_loader st') = Loader.cached halfWorldLoader
    /\ drawnTiles events = [tileAt 0 0 1; tileAt 0 0 0].
Proof.
  destruct (draw_returns exampleSorter halfWorldLayer 0 0) as [st' [events H]];
    [intros Hp; discriminate |].
  exists st', events.
  pose proof (draw_drawn exampleSorter halfWorldLayer 0 0 st' events H)
    as Hdrawn.
  destruct (draw_inv exampleSorter halfWorldLayer 0 0 st' events H)
    as [Hst' _].
  assert (Hvis : _visisbleCoords st' = [tileAt 0 0 0; tileAt 0 0 1]).
  { rewrite Hst'. unfold refreshVisible.
    change (_coordsDirty halfWorldLayer) with true. cbv iota.
    pose proof (resolved_draw_set exampleSorter halfWorldLayer
                  exampleProvider eq_refl) as Hd.
    rewrite halfWorld_collected in Hd.
    destruct (getVisibleCoordinates exampleSorter halfWorldLayer)
      as [[visible loader] ev].
    exact Hd. }
  assert (Hcache : Loader.cached (_loader st')
                   = Loader.cached halfWorldLoader).
  { rewrite Hst'. apply (refreshVisible_frame exampleSorter halfWorldLayer). }
  split; [exact H |].
  split; [exact Hvis |].
  split; [exact Hcache |].
  rewrite Hdrawn, Hvis. unfold StdSet.reverse_elements. simpl rev.
  destruct halfWorld_tiles as [Hfine [_ Hparent]].
  assert (Hta : Loader.getTile (_loader st') (tileAt 0 0 0) = true)
    by (unfold Loader.getTile in *; now rewrite Hcache).
  assert (Htb : Loader.getTile (_loader st') (tileAt 0 0 1) = true)
    by (unfold Loader.getTile in *; now rewrite Hcache).
  cbn [filter]. now rewrite Hta, Htb.
Qed.

Lemma finer_tile_drawn_first_witness :
  exists st' events,
    visibleSorted halfWorldLayer
    /\ draw exampleSorter halfWorldLayer 0 0 = Some (st', events)
    /\ In (tileAt 0 0 0) (_visisbleCoords st')
    /\ In (tileAt 0 0 1) (_visisbleCoords st')
    /\ Loader.getTile (_loader st') (tileAt 0 0 0) = true
    /\ Loader.getTile (_loader st') (tileAt 0 0 1) = true
    /\ getZoom (tileAt 0 0 0) < getZoom (tileAt 0 0 1)
    /\ before (drawnTiles events) (tileAt 0 0 1) (tileAt 0 0 0).
Proof.
  destruct halfWorld_draw as [st' [events [Hdraw [Hvis [Hcache _]]]]].
  destruct halfWorld_tiles as [Hfine [_ Hparent]].
  exists st', events.
  assert (Hs : visibleSorted halfWorldLayer) by constructor.
  assert (Ha : In (tileAt 0 0 0) (_visisbleCoords st'))
    by (rewrite Hvis; now left).
  assert (Hb : In (tileAt 0 0 1) (_visisbleCoords st'))
    by (rewrite Hvis; right; now left).
  assert (Hta : Loader.getTile (_loader st') (tileAt 0 0 0) = true)
    by (unfold Loader.getTile in *; now rewrite Hcache).
  assert (Htb : Loader.getTile (_loader st') (tileAt 0 0 1) = true)
    by (unfold Loader.getTile in *; now rewrite Hcache).
  assert (Hz : getZoom (tileAt 0 0 0) < getZoom (tileAt 0 0 1))
    by (simpl; lra).
  repeat (split; [assumption |]).
  exact (proj2 (finer_tile_drawn_first exampleSorter halfWorldLayer 0 0
                  st' events (tileAt 0 0 0) (tileAt 0 0 1)
                  Hs Hdraw Ha Hb Hta Htb) Hz).
Defined.

(** C2, as the claim words it, fails: on the example layer the resolution
    returns the world tile of zoom 0 and a tile of zoom 1, both have tiles,
    and the tile of zoom 0 is not drawn before the tile of zoom 1: it is
    drawn after it. *)
Lemma coarse_tile_drawn_last :
  exists st' events,
    draw exampleSorter halfWorldLayer 0 0 = Some (st', events)
    /\ fst (fst (getVisibleCoordinates exampleSorter halfWorldLayer))
       = [tileAt 0 0 0; tileAt 0 0 1]
    /\ _visisbleCoords st' = [tileAt 0 0 0; tileAt 0 0 1]
    /\ getZoom (tileAt 0 0 0) < getZoom (tileAt 0 0 1)
    /\ drawnTiles events = [tileAt 0 0 1; tileAt 0 0 0]
    /\ ~ before (drawnTiles events) (tileAt 0 0 0) (tileAt 0 0 1).
Proof.
  destruct halfWorld_draw as [st' [events [Hdraw [Hvis [_ Hdrawn]]]]].
  exists st', events.
  split; [exact Hdraw |].
  split.
  { rewrite (resolved_draw_set exampleSorter halfWorldLayer exampleProvider
               eq_refl).
    now rewrite halfWorld_collected. }
  split; [exact Hvis |].
  split; [simpl; lra |].
  split; [exact Hdrawn |].
  rewrite Hdrawn. apply before_NoDup_asym.
  - constructor.
    + intros [H | []]. apply tileAt_inj in H. lia.
    + constructor; [intros [] | constructor].
  - now exists [], [], [].
Qed.

(** ** The bounds of the iterated rectangle *)

(** C3.  For a provider whose least zoom is not above its greatest, the
    zoom of the grid is the rounded zoom of the center clamped to the zoom
    range of the provider, and the loops run over the rectangle whose
    bounds are the floor of the least and the ceiling of the greatest
    column and row of the four corners (each mapped by
    [layerPointToTileCoordinate] and rescaled to the base zoom), moved
    outward by the padding and clamped to the whole numbers from 0 to
    [2^baseZoom]; from zoom 0 on [2^baseZoom] is itself that greatest whole
    number. *)
Theorem grid_rectangle_as_specified (st : TileLayer) (p : BaseTileProvider) :
  _provider st = Some p ->
  (getMinZoom p <= getMaxZoom p)%Z ->
  let baseZoom := baseZoomOf st p in
  IZR baseZoom = spec_baseZoom st p
  /\ (getMinZoom p <= baseZoom <= getMaxZoom p)%Z
  /\ visibleBounds st baseZoom = spec_visibleBounds st baseZoom
  /\ collected st p
     = collectVisible (_loader st) (getMinZoom p) baseZoom
                      (spec_visibleBounds st baseZoom)
  /\ (forall pt,
         cornerCoordinate st baseZoom pt
         = zoomTo (fst (layerPointToTileCoordinate st pt)) (IZR baseZoom))
  /\ ((0 <= baseZoom)%Z ->
      IZR (Zfloor (pow2 (IZR baseZoom))) = pow2 (IZR baseZoom)).
Proof.
  intros Hp Hzoom baseZoom.
  split; [now apply baseZoomOf_spec |].
  split; [now apply baseZoomOf_range |].
  split; [apply visibleBounds_spec |].
  split.
  { unfold collected. fold baseZoom. now rewrite visibleBounds_spec. }
  split; [reflexivity |].
  apply pow2_whole.
Qed.

Lemma grid_rectangle_as_specified_witness :
  _provider halfWorldLayer = Some exampleProvider
  /\ (getMinZoom exampleProvider <= getMaxZoom exampleProvider)%Z
  /\ IZR (baseZoomOf halfWorldLayer exampleProvider)
     = spec_baseZoom halfWorldLayer exampleProvider
  /\ visibleBounds halfWorldLayer
                   (baseZoomOf halfWorldLayer exampleProvider)
     = spec_visibleBounds halfWorldLayer
                          (baseZoomOf halfWorldLayer exampleProvider).
Proof.
  assert (Hz : (getMinZoom exampleProvider <= getMaxZoom exampleProvider)%Z)
    by (simpl; lia).
  split; [reflexivity |].
  split; [exact Hz |].
  destruct (grid_rectangle_as_specified halfWorldLayer exampleProvider
              eq_refl Hz) as [H1 [_ [H2 _]]].
  split; [exact H1 | exact H2].
Defined.

(** ** A layer without a size *)






(** * More of the layer *)

(** ** More on the loops *)

Lemma In_intRangeDown (from downTo i : Z) :
  In i (intRangeDown from downTo) <-> (downTo <= i <= from)%Z.
Proof.
  unfold intRangeDown. rewrite in_map_iff. split.
  - intros [k [Hk Hin]]. apply in_seq in Hin. lia.
  - intros H. exists (Z.to_nat (from - i)). split; [lia |].
    apply in_seq. lia.
Qed.

Lemma parentAt_level (coord : TileCoordinate) (i : Z) :
  getZoom (parentAt coord i) = IZR i.
Proof. reflexivity. Qed.

Lemma nil_of_no_member {A : Type} (l : list A) :
  (forall x, ~ In x l) -> l = [].
Proof.
  destruct l as [| x l]; [reflexivity |].
  intros H. exfalso. apply (H x). now left.
Qed.

Lemma onlyLookups_map (events : list Event) :
  onlyLookups events -> events = map GetTile (lookedUp events).
Proof.
  induction events as [| e rest IH]; intros H; [reflexivity |].
  destruct (H e (or_introl eq_refl)) as [c ->]. simpl. f_equal.
  apply IH. intros e' He'. apply H. now right.
Qed.

Lemma allOf_draw (L : TileCoordinate -> Prop) (acc : Collected)
    (c : TileCoordinate) :
  L c -> allOf L acc ->
  allOf L (mkCollected (StdSet.insert c (coordinatesToDraw acc))
                       (requestedCoordinates acc)
                       (lookups acc ++ [GetTile c])).
Proof.
  intros Hc Hacc x. simpl. rewrite StdSetFacts.In_insert, lookedUp_app.
  intros [[-> | H] | [H | H]]; try (apply Hacc; tauto); try exact Hc.
  apply in_app_or in H. destruct H as [H | [<- | []]];
    [apply Hacc; tauto | exact Hc].
Qed.

Lemma allOf_request (L : TileCoordinate -> Prop) (acc : Collected)
    (c : TileCoordinate) :
  L c -> allOf L acc ->
  allOf L (mkCollected (coordinatesToDraw acc)
                       (StdSet.insert c (requestedCoordinates acc))
                       (lookups acc ++ [GetTile c])).
Proof.
  intros Hc Hacc x. simpl. rewrite StdSetFacts.In_insert, lookedUp_app.
  intros [H | [[-> | H] | H]]; try (apply Hacc; tauto); try exact Hc.
  apply in_app_or in H. destruct H as [H | [<- | []]];
    [apply Hacc; tauto | exact Hc].
Qed.

Lemma walkParents_allOf (L : TileCoordinate -> Prop) (loader : Loader.t)
    (coord : TileCoordinate) (levels : list Z) (acc : Collected) :
  (forall i, In i levels -> L (parentAt coord i)) ->
  allOf L acc -> allOf L (walkParents loader coord levels acc).
Proof.
  revert acc. induction levels as [| i rest IH]; intros acc HL Hacc; simpl.
  - exact Hacc.
  - destruct (Loader.getTile loader (parentAt coord i)); simpl.
    + apply allOf_draw; [apply HL; now left | exact Hacc].
    + apply IH; [intros j Hj; apply HL; now right |].
      apply allOf_request; [apply HL; now left | exact Hacc].
Qed.

Lemma visitCell_allOf (L : TileCoordinate -> Prop) (loader : Loader.t)
    (minZoom zoom col row : Z) (acc : Collected) :
  (forall i, (minZoom <= i <= zoom)%Z -> L (parentAt (tileAt row col zoom) i)) ->
  L (tileAt row col zoom) ->
  allOf L acc -> allOf L (visitCell loader minZoom zoom col acc row).
Proof.
  intros Hlevels Hcell Hacc. unfold visitCell. fold (tileAt row col zoom).
  destruct (Loader.getTile loader (tileAt row col zoom)); simpl.
  - now apply allOf_draw.
  - apply walkParents_allOf; [| now apply allOf_request].
    intros i Hi. apply Hlevels.
    replace (getZoom (tileAt row col zoom)) with (IZR zoom) in Hi
      by reflexivity.
    rewrite to_int_IZR in Hi. now apply In_intRangeDown in Hi.
Qed.

(** The lookups made so far stay in the record. *)
Lemma walkParents_lookups_kept (loader : Loader.t) (coord : TileCoordinate)
    (levels : list Z) (acc : Collected) (c : TileCoordinate) :
  In c (lookedUp (lookups acc)) ->
  In c (lookedUp (lookups (walkParents loader coord levels acc))).
Proof.
  revert acc. induction levels as [| i rest IH]; intros acc Hc; simpl.
  - exact Hc.
  - destruct (Loader.getTile loader (parentAt coord i)); simpl.
    + rewrite lookedUp_app. apply in_or_app. now left.
    + apply IH. simpl. rewrite lookedUp_app. apply in_or_app. now left.
Qed.

Lemma visitCell_lookups_kept (loader : Loader.t) (minZoom zoom col row : Z)
    (acc : Collected) (c : TileCoordinate) :
  In c (lookedUp (lookups acc)) ->
  In c (lookedUp (lookups (visitCell loader minZoom zoom col acc row))).
Proof.
  intros Hc. unfold visitCell.
  destruct (Loader.getTile loader _); simpl.
  - rewrite lookedUp_app. apply in_or_app. now left.
  - apply walkParents_lookups_kept. simpl.
    rewrite lookedUp_app. apply in_or_app. now left.
Qed.

Lemma visitCell_looks_up (loader : Loader.t) (minZoom zoom col row : Z)
    (acc : Collected) :
  In (tileAt row col zoom)
     (lookedUp (lookups (visitCell loader minZoom zoom col acc row))).
Proof.
  unfold visitCell. fold (tileAt row col zoom).
  destruct (Loader.getTile loader _); simpl.
  - rewrite lookedUp_app. apply in_or_app. right. now left.
  - apply walkParents_lookups_kept. simpl.
    rewrite lookedUp_app. apply in_or_app. right. now left.
Qed.

(** What the visit of a cell of the rectangle establishes, and the visit of
    any cell keeps, holds of the result. *)
Lemma collectVisible_reaches_step (loader : Loader.t) (minZoom baseZoom : Z)
    (b : GridBounds) (Q : Collected -> Prop) (row col : Z) :
  inBounds b row col ->
  (forall acc, Q (visitCell loader minZoom baseZoom col acc row)) ->
  (forall acc r c, Q acc -> Q (visitCell loader minZoom baseZoom c acc r)) ->
  Q (collectVisible loader minZoom baseZoom b).
Proof.
  intros [Hrow Hcol] Hvisit Hkeep. unfold collectVisible.
  apply fold_left_reaches with (x := col).
  - now apply In_intRange.
  - intros acc. unfold visitColumn.
    apply fold_left_reaches with (x := row).
    + now apply In_intRange.
    + apply Hvisit.
    + intros acc' r. apply Hkeep.
  - intros acc c Hacc. unfold visitColumn.
    apply fold_left_invariant; [exact Hacc |].
    intros acc' r _. apply Hkeep.
Qed.

Lemma walkParents_requests_kept (loader : Loader.t) (coord : TileCoordinate)
    (levels : list Z) (acc : Collected) (c : TileCoordinate) :
  In c (requestedCoordinates acc) ->
  In c (requestedCoordinates (walkParents loader coord levels acc)).
Proof.
  revert acc. induction levels as [| i rest IH]; intros acc Hc; simpl.
  - exact Hc.
  - destruct (Loader.getTile loader (parentAt coord i)); simpl.
    + exact Hc.
    + apply IH. simpl. now apply StdSetFacts.In_insert_keep.
Qed.

(** With no level cached the walk requests every level and draws
    nothing. *)
Lemma walkParents_none_cached (loader : Loader.t) (coord : TileCoordinate)
    (levels : list Z) (acc : Collected) :
  (forall i, In i levels ->
             Loader.getTile loader (parentAt coord i) = false) ->
  coordinatesToDraw (walkParents loader coord levels acc)
  = coordinatesToDraw acc
  /\ (forall i, In i levels ->
                In (parentAt coord i)
                   (requestedCoordinates (walkParents loader coord levels acc))).
Proof.
  revert acc. induction levels as [| i rest IH]; intros acc Hnone; simpl.
  - split; [reflexivity | intros i []].
  - rewrite (Hnone i) by now left. simpl.
    destruct (IH (mkCollected
                    (coordinatesToDraw acc)
                    (StdSet.insert (parentAt coord i)
                                   (requestedCoordinates acc))
                    (lookups acc ++ [GetTile (parentAt coord i)])))
      as [Hd Hr]; [intros j Hj; apply Hnone; now right |].
    split; [exact Hd |].
    intros j [<- | Hj]; [| now apply Hr].
    apply walkParents_requests_kept. simpl. apply StdSetFacts.In_insert_same.
Qed.

Lemma issueRequests_queued_sub (tiles : list TileCoordinate) (l : Loader.t)
    (c : TileCoordinate) :
  In c (Loader.queued (fst (issueRequests l tiles))) ->
  In c (Loader.queued l) \/ (In c tiles /\ ~ In c (Loader.active l)).
Proof.
  revert l. induction tiles as [| x rest IH]; intros l; simpl.
  - now left.
  - unfold Loader.start, Loader.pending.
    destruct (Loader.mem x (Loader.queued l)) eqn:Hq; simpl.
    + intros H. specialize (IH l).
      destruct (issueRequests l rest). simpl in *.
      destruct (IH H) as [H1 | [H1 H2]]; [now left | right; tauto].
    + destruct (Loader.mem x (Loader.active l)) eqn:Ha.
      * intros H. specialize (IH l).
        destruct (issueRequests l rest). simpl in *.
        destruct (IH H) as [H1 | [H1 H2]]; [now left | right; tauto].
      * destruct (Loader.getTile l x).
        -- intros H. specialize (IH l).
           destruct (issueRequests l rest). simpl in *.
           destruct (IH H) as [H1 | [H1 H2]]; [now left | right; tauto].
        -- intros H.
           specialize (IH (Loader.mk (Loader.cached l) (x :: Loader.queued l)
                                     (Loader.active l))).
           destruct (issueRequests _ rest). simpl in *.
           destruct (IH H) as [[<- | H1] | [H1 H2]].
           ++ right. split; [now left |]. now apply mem_false.
           ++ now left.
           ++ right. tauto.
Qed.

(** ** What the resolution does with each cell *)

(** X1.  With a provider, every cell of the iterated rectangle is looked up
    in the cache.  A cell that has a tile is in the draw set returned and is
    not handed to [start]; a cell that has none is handed to [start] and is
    not in the draw set. *)
Theorem every_cell_accounted
    (QueueSorter : TileCoordinate -> TileCoordinate -> TileCoordinate -> bool)
    (st : TileLayer) (p : BaseTileProvider) (row col : Z) :
  _provider st = Some p ->
  let baseZoom := baseZoomOf st p in
  let cell := tileAt row col baseZoom in
  let result := getVisibleCoordinates QueueSorter st in
  inBounds (visibleBounds st baseZoom) row col ->
  In cell (lookedUp (snd result))
  /\ (Loader.getTile (_loader st) cell = true ->
      In cell (fst (fst result)) /\ ~ In cell (started (snd result)))
  /\ (Loader.getTile (_loader st) cell = false ->
      In cell (started (snd result)) /\ ~ In cell (fst (fst result))).
Proof.
  intros Hp baseZoom cell result Hin.
  destruct (collected_ok st p) as [_ [_ [Hd [Hr _]]]].
  unfold result.
  rewrite (resolved_lookups QueueSorter st p Hp),
    (resolved_started QueueSorter st p Hp),
    (resolved_draw_set QueueSorter st p Hp).
  split; [| split].
  - unfold collected. fold baseZoom.
    apply collectVisible_reaches_step with (row := row) (col := col).
    + exact Hin.
    + intros acc. apply visitCell_looks_up.
    + intros acc r c. apply visitCell_lookups_kept.
  - intros Hget. split.
    + unfold collected. fold baseZoom.
      apply collectVisible_reaches with (row := row) (col := col).
      * exact Hin.
      * intros acc. now apply visitCell_cached.
      * intros acc acc' [Kd _]. apply Kd.
    + intros Hs.
      apply (Permutation_in _ (tiles_perm QueueSorter st p)) in Hs.
      destruct (Hr cell Hs) as [_ Hmiss]. congruence.
  - intros Hget. split.
    + apply (Permutation_in _ (Permutation_sym (tiles_perm QueueSorter st p))).
      unfold collected. fold baseZoom.
      apply collectVisible_reaches with (row := row) (col := col).
      * exact Hin.
      * intros acc. now apply visitCell_missing.
      * intros acc acc' [_ Kr]. apply Kr.
    + intros Hs. destruct (Hd cell Hs) as [_ Hhas]. congruence.
Qed.

Lemma every_cell_accounted_witness :
  _provider halfWorldLayer = Some exampleProvider
  /\ inBounds (visibleBounds halfWorldLayer 1) 0 0
  /\ inBounds (visibleBounds halfWorldLayer 1) 0 1
  /\ In (tileAt 0 0 1)
        (fst (fst (getVisibleCoordinates exampleSorter halfWorldLayer)))
  /\ In (tileAt 0 1 1)
        (started (snd (getVisibleCoordinates exampleSorter halfWorldLayer))).
Proof.
  destruct halfWorld_tiles as [Hfine [Hmiss _]].
  assert (H0 : inBounds (visibleBounds halfWorldLayer 1) 0 0)
    by (rewrite halfWorld_bounds; unfold inBounds; simpl; lia).
  assert (H1 : inBounds (visibleBounds halfWorldLayer 1) 0 1)
    by (rewrite halfWorld_bounds; unfold inBounds; simpl; lia).
  pose proof (every_cell_accounted exampleSorter halfWorldLayer
                exampleProvider 0 0 eq_refl) as A.
  pose proof (every_cell_accounted exampleSorter halfWorldLayer
                exampleProvider 0 1 eq_refl) as B.
  rewrite halfWorld_baseZoom in A, B.
  destruct (A H0) as [_ [A1 _]]. destruct (B H1) as [_ [_ B1]].
  split; [reflexivity |].
  split; [exact H0 |].
  split; [exact H1 |].
  split; [apply (A1 Hfine) | apply (B1 Hmiss)].
Defined.

(** X2.  With a provider, every coordinate of the draw set returned has a
    tile in the loader that comes back, and no coordinate handed to [start]
    has one: a fetch is never started for a tile that is already there.
    The two are disjoint, and neither holds a coordinate twice. *)
Theorem drawn_have_tiles_started_have_none
    (QueueSorter : TileCoordinate -> TileCoordinate -> TileCoordinate -> bool)
    (st : TileLayer) (p : BaseTileProvider) :
  _provider st = Some p ->
  let result := getVisibleCoordinates QueueSorter st in
  (forall c, In c (fst (fst result)) ->
             Loader.getTile (snd (fst result)) c = true)
  /\ (forall c, In c (started (snd result)) ->
                Loader.getTile (_loader st) c = false
                /\ Loader.getTile (snd (fst result)) c = false)
  /\ (forall c, In c (fst (fst result)) -> ~ In c (started (snd result)))
  /\ NoDup (fst (fst result))
  /\ NoDup (started (snd result)).
Proof.
  intros Hp result.
  destruct (collected_ok st p) as [Sd [_ [Hd [Hr _]]]].
  assert (Hcache : forall c,
             Loader.getTile (snd (fst result)) c
             = Loader.getTile (_loader st) c).
  { intros c. unfold Loader.getTile, result.
    now rewrite (getVisibleCoordinates_cached QueueSorter st). }
  assert (Hmiss : forall c, In c (started (snd result)) ->
                            Loader.getTile (_loader st) c = false).
  { intros c Hc. unfold result in Hc.
    rewrite (resolved_started QueueSorter st p Hp) in Hc.
    apply (Permutation_in _ (tiles_perm QueueSorter st p)) in Hc.
    now apply Hr. }
  assert (Hhas : forall c, In c (fst (fst result)) ->
                           Loader.getTile (_loader st) c = true).
  { intros c Hc. unfold result in Hc.
    rewrite (resolved_draw_set QueueSorter st p Hp) in Hc. now apply Hd. }
  split; [intros c Hc; rewrite Hcache; now apply Hhas |].
  split; [intros c Hc; rewrite Hcache; split; now apply Hmiss |].
  split.
  { intros c Hc Hs. apply Hhas in Hc. apply Hmiss in Hs. congruence. }
  split.
  - unfold result. rewrite (resolved_draw_set QueueSorter st p Hp).
    now apply StdSetFacts.sorted_NoDup.
  - unfold result. rewrite (resolved_started QueueSorter st p Hp).
    apply tiles_NoDup.
Qed.

Lemma drawn_have_tiles_started_have_none_witness :
  _provider halfWorldLayer = Some exampleProvider
  /\ (forall c,
         In c (fst (fst (getVisibleCoordinates exampleSorter
                                               halfWorldLayer))) ->
         ~ In c (started (snd (getVisibleCoordinates exampleSorter
                                                     halfWorldLayer)))).
Proof.
  split; [reflexivity |].
  apply (drawn_have_tiles_started_have_none exampleSorter halfWorldLayer
           exampleProvider eq_refl).
Defined.

(** X3.  With a provider whose least zoom is not above its greatest, every
    coordinate that the resolution looks up, hands to [start] or returns in
    the draw set is at a whole zoom level from the provider's least zoom up
    to the base zoom, which is not above the provider's greatest: the
    provider is never asked for a level it does not have, and nothing finer
    than the base zoom is drawn. *)
Theorem resolution_within_zoom_range
    (QueueSorter : TileCoordinate -> TileCoordinate -> TileCoordinate -> bool)
    (st : TileLayer) (p : BaseTileProvider) (c : TileCoordinate) :
  _provider st = Some p ->
  (getMinZoom p <= getMaxZoom p)%Z ->
  let baseZoom := baseZoomOf st p in
  let result := getVisibleCoordinates QueueSorter st in
  In c (lookedUp (snd result)) \/ In c (started (snd result))
  \/ In c (fst (fst result)) ->
  exists i : Z,
    atLevel c i
    /\ (getMinZoom p <= i <= baseZoom)%Z /\ (baseZoom <= getMaxZoom p)%Z.
Proof.
  intros Hp Hzoom baseZoom result Hc.
  destruct (baseZoomOf_range st p Hzoom) as [Hlo Hhi]. fold baseZoom in Hlo, Hhi.
  set (L := fun c : TileCoordinate =>
              exists i : Z,
                atLevel c i
                /\ (getMinZoom p <= i <= baseZoom)%Z
                /\ (baseZoom <= getMaxZoom p)%Z).
  assert (Hall : allOf L (collected st p)).
  { unfold collected. fold baseZoom.
    apply collectVisible_invariant.
    - intros x [[] | [[] | []]].
    - intros acc row col _ Hacc. apply visitCell_allOf; [| | exact Hacc].
      + intros i Hi. exists i. split; [apply parentAt_level | lia].
      + exists baseZoom. split; [reflexivity | lia]. }
  apply Hall. unfold result in Hc.
  rewrite (resolved_lookups QueueSorter st p Hp),
    (resolved_started QueueSorter st p Hp),
    (resolved_draw_set QueueSorter st p Hp) in Hc.
  destruct Hc as [Hc | [Hc | Hc]]; [tauto | | tauto].
  right. left. apply (Permutation_in _ (tiles_perm QueueSorter st p) Hc).
Qed.

Lemma resolution_within_zoom_range_witness :
  _provider halfWorldLayer = Some exampleProvider
  /\ (getMinZoom exampleProvider <= getMaxZoom exampleProvider)%Z
  /\ In (tileAt 0 0 0)
        (fst (fst (getVisibleCoordinates exampleSorter halfWorldLayer)))
  /\ exists i : Z,
      atLevel (tileAt 0 0 0) i
      /\ (getMinZoom exampleProvider <= i
          <= baseZoomOf halfWorldLayer exampleProvider)%Z
      /\ (baseZoomOf halfWorldLayer exampleProvider
          <= getMaxZoom exampleProvider)%Z.
Proof.
  assert (Hz : (getMinZoom exampleProvider <= getMaxZoom exampleProvider)%Z)
    by (simpl; lia).
  assert (Hin : In (tileAt 0 0 0)
                   (fst (fst (getVisibleCoordinates exampleSorter
                                                    halfWorldLayer)))).
  { rewrite (resolved_draw_set exampleSorter halfWorldLayer exampleProvider
               eq_refl), halfWorld_collected. now left. }
  split; [reflexivity |].
  split; [exact Hz |].
  split; [exact Hin |].
  apply (resolution_within_zoom_range exampleSorter halfWorldLayer
           exampleProvider (tileAt 0 0 0) eq_refl Hz).
  right. right. exact Hin.
Defined.

(** X4.  With a provider and a loader that holds no tile, the draw set
    returned is empty, and for every cell of the iterated rectangle the
    coordinate of every level from the base zoom down to the provider's
    least zoom is handed to [start]. *)
Theorem empty_cache_requests_every_level
    (QueueSorter : TileCoordinate -> TileCoordinate -> TileCoordinate -> bool)
    (st : TileLayer) (p : BaseTileProvider) :
  _provider st = Some p ->
  Loader.cached (_loader st) = [] ->
  let baseZoom := baseZoomOf st p in
  let result := getVisibleCoordinates QueueSorter st in
  fst (fst result) = StdSet.empty
  /\ (forall row col i,
         inBounds (visibleBounds st baseZoom) row col ->
         (getMinZoom p <= i <= baseZoom)%Z ->
         In (parentAt (tileAt row col baseZoom) i) (started (snd result))).
Proof.
  intros Hp Hempty baseZoom result.
  assert (Hnone : forall c, Loader.getTile (_loader st) c = false).
  { intros c. unfold Loader.getTile. now rewrite Hempty. }
  destruct (collected_ok st p) as [_ [_ [Hd _]]].
  unfold result.
  rewrite (resolved_started QueueSorter st p Hp),
    (resolved_draw_set QueueSorter st p Hp).
  split.
  - apply nil_of_no_member. intros c Hc.
    destruct (Hd c Hc) as [_ Hhas]. rewrite Hnone in Hhas. discriminate.
  - intros row col i Hin Hi.
    apply (Permutation_in _ (Permutation_sym (tiles_perm QueueSorter st p))).
    unfold collected. fold baseZoom.
    apply collectVisible_reaches with (row := row) (col := col).
    + exact Hin.
    + intros acc. unfold visitCell. fold (tileAt row col baseZoom).
      rewrite Hnone. simpl negb. cbv iota.
      apply walkParents_none_cached.
      * intros j _. apply Hnone.
      * replace (getZoom (tileAt row col baseZoom)) with (IZR baseZoom)
          by reflexivity.
        rewrite to_int_IZR. now apply In_intRangeDown.
    + intros acc acc' [_ Kr]. apply Kr.
Qed.

Lemma empty_cache_requests_every_level_witness :
  _provider zeroLayer = Some exampleProvider
  /\ Loader.cached (_loader zeroLayer) = []
  /\ fst (fst (getVisibleCoordinates exampleSorter zeroLayer)) = StdSet.empty.
Proof.
  split; [reflexivity |].
  split; [reflexivity |].
  apply (empty_cache_requests_every_level exampleSorter zeroLayer
           exampleProvider eq_refl eq_refl).
Defined.

(** ** A view whose cells all have tiles *)

Lemma In_cellsOf (b : GridBounds) (zoom : Z) (c : TileCoordinate) :
  In c (cellsOf b zoom)
  <-> exists row col, inBounds b row col /\ c = tileAt row col zoom.
Proof.
  unfold cellsOf. rewrite in_flat_map. split.
  - intros [col [Hcol Hc]]. apply in_map_iff in Hc.
    destruct Hc as [row [<- Hrow]].
    apply In_intRange in Hcol, Hrow.
    exists row, col. split; [now split | reflexivity].
  - intros [row [col [[Hrow Hcol] ->]]].
    exists col. split; [now apply In_intRange |].
    apply in_map_iff. exists row. split; [reflexivity |].
    now apply In_intRange.
Qed.

Lemma rows_all_cached (loader : Loader.t) (minZoom zoom col : Z)
    (rows : list Z) (acc : Collected) :
  (forall row, In row rows ->
               Loader.getTile loader (tileAt row col zoom) = true) ->
  let res := fold_left (visitCell loader minZoom zoom col) rows acc in
  requestedCoordinates res = requestedCoordinates acc
  /\ lookups res
     = lookups acc ++ map GetTile (map (fun row => tileAt row col zoom) rows)
  /\ (forall c, In c (coordinatesToDraw res)
                <-> In c (coordinatesToDraw acc)
                    \/ In c (map (fun row => tileAt row col zoom) rows)).
Proof.
  revert acc. induction rows as [| row rest IH]; intros acc Hall; simpl.
  - split; [reflexivity |]. split; [now rewrite app_nil_r |].
    intros c. tauto.
  - assert (E : visitCell loader minZoom zoom col acc row
                = mkCollected
                    (StdSet.insert (tileAt row col zoom)
                                   (coordinatesToDraw acc))
                    (requestedCoordinates acc)
                    (lookups acc ++ [GetTile (tileAt row col zoom)])).
    { unfold visitCell. fold (tileAt row col zoom).
      now rewrite (Hall row (or_introl eq_refl)). }
    rewrite E.
    destruct (IH (mkCollected
                    (StdSet.insert (tileAt row col zoom)
                                   (coordinatesToDraw acc))
                    (requestedCoordinates acc)
                    (lookups acc ++ [GetTile (tileAt row col zoom)])))
      as [Hr [Hl Hd]]; [intros r Hr; apply Hall; now right |].
    split; [exact Hr |]. split.
    + rewrite Hl. simpl. now rewrite <- app_assoc.
    + intros c. rewrite Hd. simpl. rewrite StdSetFacts.In_insert.
      split; intros H; intuition.
Qed.

Lemma columns_all_cached (loader : Loader.t) (minZoom zoom : Z)
    (b : GridBounds) (cols : list Z) (acc : Collected) :
  (forall row col, In col cols -> (minRow b <= row < maxRow b)%Z ->
                   Loader.getTile loader (tileAt row col zoom) = true) ->
  let cells :=
    flat_map (fun col => map (fun row => tileAt row col zoom)
                             (intRange (minRow b) (maxRow b))) cols in
  let res := fold_left (visitColumn loader minZoom zoom b) cols acc in
  requestedCoordinates res = requestedCoordinates acc
  /\ lookups res = lookups acc ++ map GetTile cells
  /\ (forall c, In c (coordinatesToDraw res)
                <-> In c (coordinatesToDraw acc) \/ In c cells).
Proof.
  revert acc. induction cols as [| col rest IH]; intros acc Hall; simpl.
  - split; [reflexivity |]. split; [now rewrite app_nil_r |].
    intros c. tauto.
  - destruct (rows_all_cached loader minZoom zoom col
                (intRange (minRow b) (maxRow b)) acc)
      as [Hr1 [Hl1 Hd1]].
    { intros row Hrow. apply Hall; [now left | now apply In_intRange]. }
    fold (visitColumn loader minZoom zoom b acc col) in Hr1, Hl1, Hd1.
    destruct (IH (visitColumn loader minZoom zoom b acc col))
      as [Hr [Hl Hd]].
    { intros row c Hc. apply Hall. now right. }
    split; [now rewrite Hr |]. split.
    + rewrite Hl, Hl1, map_app, <- app_assoc. reflexivity.
    + intros c. rewrite Hd, Hd1, in_app_iff. tauto.
Qed.

(** X5.  With a provider, when every cell of the iterated rectangle has a
    tile, the resolution looks each cell up once, column by column, then
    calls [cancelQueued] and nothing else: no fetch is started, the loader
    comes back with its queue dropped, and the draw set is exactly the set
    of the cells. *)
Theorem cached_view_starts_nothing
    (QueueSorter : TileCoordinate -> TileCoordinate -> TileCoordinate -> bool)
    (st : TileLayer) (p : BaseTileProvider) :
  _provider st = Some p ->
  let baseZoom := baseZoomOf st p in
  let b := visibleBounds st baseZoom in
  let result := getVisibleCoordinates QueueSorter st in
  (forall row col, inBounds b row col ->
                   Loader.getTile (_loader st) (tileAt row col baseZoom)
                   = true) ->
  snd result = map GetTile (cellsOf b baseZoom) ++ [CancelQueued]
  /\ snd (fst result) = Loader.cancelQueued (_loader st)
  /\ (forall c, In c (fst (fst result)) <-> In c (cellsOf b baseZoom)).
Proof.
  intros Hp baseZoom b result Hall.
  destruct (columns_all_cached (_loader st) (getMinZoom p) baseZoom b
              (intRange (minCol b) (maxCol b))
              (mkCollected StdSet.empty StdSet.empty []))
    as [Hr [Hl Hd]].
  { intros row col Hcol Hrow. apply Hall. split; [exact Hrow |].
    now apply In_intRange. }
  fold (collectVisible (_loader st) (getMinZoom p) baseZoom b)
    in Hr, Hl, Hd.
  fold (cellsOf b baseZoom) in Hl, Hd.
  change (collectVisible (_loader st) (getMinZoom p) baseZoom b)
    with (collected st p) in Hr, Hl, Hd.
  simpl in Hr, Hl.
  assert (Htiles : tilesToRequest QueueSorter st p = []).
  { unfold tilesToRequest. rewrite Hr. reflexivity. }
  unfold result.
  rewrite (getVisibleCoordinates_provider QueueSorter st p Hp).
  rewrite Htiles, Hl. simpl.
  split; [reflexivity |]. split; [reflexivity |].
  intros c. rewrite Hd. simpl. tauto.
Qed.

Lemma cached_view_starts_nothing_witness :
  _provider cachedHalfWorldLayer = Some exampleProvider
  /\ inBounds (visibleBounds cachedHalfWorldLayer
                 (baseZoomOf cachedHalfWorldLayer exampleProvider)) 0 0
  /\ inBounds (visibleBounds cachedHalfWorldLayer
                 (baseZoomOf cachedHalfWorldLayer exampleProvider)) 0 1
  /\ (forall row col,
         inBounds (visibleBounds cachedHalfWorldLayer
                     (baseZoomOf cachedHalfWorldLayer exampleProvider))
                  row col ->
         Loader.getTile (_loader cachedHalfWorldLayer)
           (tileAt row col (baseZoomOf cachedHalfWorldLayer exampleProvider))
         = true)
  /\ snd (getVisibleCoordinates exampleSorter cachedHalfWorldLayer)
     = [GetTile (tileAt 0 0 1); GetTile (tileAt 0 1 1); CancelQueued]
  /\ (forall c,
         In c (fst (fst (getVisibleCoordinates exampleSorter
                           cachedHalfWorldLayer)))
         <-> In c [tileAt 0 0 1; tileAt 0 1 1]).
Proof.
  assert (Hall : forall row col,
             inBounds (visibleBounds cachedHalfWorldLayer
                         (baseZoomOf cachedHalfWorldLayer exampleProvider))
                      row col ->
             Loader.getTile (_loader cachedHalfWorldLayer)
               (tileAt row col
                  (baseZoomOf cachedHalfWorldLayer exampleProvider))
             = true).
  { intros row col.
    rewrite cachedHalfWorld_baseZoom, cachedHalfWorld_bounds.
    unfold inBounds. simpl. intros [Hrow Hcol].
    assert (Er : row = 0%Z) by lia.
    assert (Ec : col = 0%Z \/ col = 1%Z) by lia.
    subst row. apply mem_true.
    destruct Ec as [-> | ->]; simpl; auto. }
  pose proof (cached_view_starts_nothing exampleSorter cachedHalfWorldLayer
                exampleProvider eq_refl Hall) as [Htrace [_ Hset]].
  rewrite cachedHalfWorld_baseZoom, cachedHalfWorld_bounds in Htrace, Hset.
  assert (H00 : inBounds (visibleBounds cachedHalfWorldLayer
                            (baseZoomOf cachedHalfWorldLayer exampleProvider))
                         0 0).
  { rewrite cachedHalfWorld_baseZoom, cachedHalfWorld_bounds.
    unfold inBounds. simpl. lia. }
  assert (H01 : inBounds (visibleBounds cachedHalfWorldLayer
                            (baseZoomOf cachedHalfWorldLayer exampleProvider))
                         0 1).
  { rewrite cachedHalfWorld_baseZoom, cachedHalfWorld_bounds.
    unfold inBounds. simpl. lia. }
  split; [reflexivity |].
  split; [exact H00 |].
  split; [exact H01 |].
  split; [exact Hall |].
  split; [exact Htrace | exact Hset].
Defined.

(** ** The order of the calls, and the queue that is left *)

(** X6.  With a provider the calls of the resolution come in three parts:
    first all the cache lookups, then one [cancelQueued], then one [start]
    for each coordinate of the sorted request set, which throws exactly for
    the coordinates already transferring.  The loader that comes back holds
    the same tiles and the same transfers, and its queue holds exactly the
    requested coordinates that are not already transferring: whatever was
    queued before is dropped. *)
Theorem resolution_trace_and_queue
    (QueueSorter : TileCoordinate -> TileCoordinate -> TileCoordinate -> bool)
    (st : TileLayer) (p : BaseTileProvider) :
  _provider st = Some p ->
  let result := getVisibleCoordinates QueueSorter st in
  let tiles := tilesToRequest QueueSorter st p in
  let loader' := snd (fst result) in
  snd result
  = map GetTile (lookedUp (snd result))
    ++ CancelQueued
       :: map (fun c => if Loader.mem c (Loader.active (_loader st))
                        then StartExists c else Start c) tiles
  /\ Loader.cached loader' = Loader.cached (_loader st)
  /\ Loader.active loader' = Loader.active (_loader st)
  /\ (forall c, In c (Loader.queued loader')
                <-> In c tiles /\ ~ In c (Loader.active (_loader st))).
Proof.
  intros Hp result tiles loader'.
  pose proof (resolved_lookups QueueSorter st p Hp) as Hlook.
  fold result in Hlook.
  assert (Hres : result = _)
    by apply (getVisibleCoordinates_provider QueueSorter st p Hp).
  fold tiles in Hres.
  assert (Htrace : snd (issueRequests (Loader.cancelQueued (_loader st))
                                      tiles)
                   = map (fun c => if Loader.mem c (Loader.active (_loader st))
                                   then StartExists c else Start c) tiles).
  { apply (issueRequests_trace tiles (Loader.cancelQueued (_loader st))).
    - apply tiles_NoDup.
    - intros c _ []. }
  destruct (issueRequests_started tiles (Loader.cancelQueued (_loader st)))
    as [_ [_ [_ [Hc Ha]]]].
  split.
  { rewrite Hlook. rewrite Hres at 1.
    match goal with
    | |- context [snd (?a, ?b)] => change (snd (a, b)) with b
    end.
    rewrite Htrace.
    rewrite <- (onlyLookups_map (lookups (collected st p)))
      by apply collectVisible_lookups.
    reflexivity. }
  unfold loader'. rewrite Hres. simpl fst. simpl snd.
  split; [exact Hc |]. split; [exact Ha |].
  intros c. split.
  - intros Hq. apply issueRequests_queued_sub in Hq.
    destruct Hq as [[] | Hq]. exact Hq.
  - intros [Hin Hact].
    apply issueRequests_queued; [exact Hin | | exact Hact].
    destruct (collected_ok st p) as [_ [_ [_ [Hr _]]]].
    apply (Hr c). apply (Permutation_in c (tiles_perm QueueSorter st p) Hin).
Qed.

Lemma resolution_trace_and_queue_witness :
  _provider zeroLayer = Some exampleProvider
  /\ forall c,
      In c (Loader.queued
              (snd (fst (getVisibleCoordinates exampleSorter zeroLayer))))
      <-> In c (tilesToRequest exampleSorter zeroLayer exampleProvider)
          /\ ~ In c (Loader.active (_loader zeroLayer)).
Proof.
  split; [reflexivity |].
  apply (resolution_trace_and_queue exampleSorter zeroLayer exampleProvider
           eq_refl).
Defined.

(** ** Resolving twice *)

(** X7.  Resolving again with the loader the first resolution left, and
    nothing else changed, gives the same draw set, the same loader and the
    same calls: the queue is dropped and rebuilt as it was. *)
Theorem resolution_repeats
    (QueueSorter : TileCoordinate -> TileCoordinate -> TileCoordinate -> bool)
    (st : TileLayer) :
  let result := getVisibleCoordinates QueueSorter st in
  getVisibleCoordinates QueueSorter (withLoader st (snd (fst result)))
  = result.
Proof.
  intros result. destruct (_provider st) as [p |] eqn:Hp.
  - assert (Hres : result = _)
      by apply (getVisibleCoordinates_provider QueueSorter st p Hp).
    set (l' := snd (fst result)).
    assert (Hp' : _provider (withLoader st l') = Some p) by exact Hp.
    destruct (issueRequests_started
                (tilesToRequest QueueSorter st p)
                (Loader.cancelQueued (_loader st)))
      as [_ [_ [_ [Hc Ha]]]].
    assert (Hl' : l' = fst (issueRequests (Loader.cancelQueued (_loader st))
                                          (tilesToRequest QueueSorter st p)))
      by (unfold l'; now rewrite Hres).
    assert (Hsame : samePendingApart (withLoader st l') st).
    { unfold samePendingApart, withLoader. simpl.
      repeat (split; [reflexivity |]). rewrite Hl'. exact Hc. }
    assert (Hcoll : collected (withLoader st l') p = collected st p)
      by now apply collected_ext.
    assert (Htiles : tilesToRequest QueueSorter (withLoader st l') p
                     = tilesToRequest QueueSorter st p).
    { unfold tilesToRequest. now rewrite Hcoll. }
    assert (Hcancel : Loader.cancelQueued (_loader (withLoader st l'))
                      = Loader.cancelQueued (_loader st)).
    { unfold Loader.cancelQueued, withLoader. simpl.
      rewrite Hl', Hc, Ha. reflexivity. }
    rewrite (getVisibleCoordinates_provider QueueSorter _ p Hp').
    rewrite Hcoll, Htiles, Hcancel. now rewrite Hres.
  - unfold result.
    rewrite (getVisibleCoordinates_no_provider QueueSorter st Hp).
    simpl snd.
    now rewrite (getVisibleCoordinates_no_provider QueueSorter
                   (withLoader st (_loader st)) Hp).
Qed.

(** ** What [draw] draws, and where *)

Lemma filter_all {A : Type} (f : A -> bool) (l : list A) :
  (forall x, In x l -> f x = true) -> filter f l = l.
Proof.
  induction l as [| x l IH]; intros H; simpl; [reflexivity |].
  rewrite (H x (or_introl eq_refl)). f_equal.
  apply IH. intros y Hy. apply H. now right.
Qed.

Lemma NoDup_rev_of {A : Type} (l : list A) : NoDup l -> NoDup (rev l).
Proof.
  intros H. apply (Permutation_NoDup (Permutation_rev l) H).
Qed.

Lemma In_drawnTiles (events : list Event) (c : TileCoordinate)
    (tx ty w h : R) :
  In (TileDraw c tx ty w h) events -> In c (drawnTiles events).
Proof.
  intros H. unfold drawnTiles. apply in_flat_map.
  exists (TileDraw c tx ty w h). split; [exact H | now left].
Qed.

(** Where the loop of [draw] puts a tile, and how large. *)
Lemma drawTiles_positions (st : TileLayer) (coords : list TileCoordinate)
    (drawn : list Event) (c : TileCoordinate) (tx ty w h : R) :
  drawTiles st coords = Some drawn ->
  In (TileDraw c tx ty w h) drawn ->
  exists p,
    _provider st = Some p
    /\ In c coords /\ Loader.getTile (_loader st) c = true
    /\ w = IZR (getTileWidth p) * pow2 (getZoom (_center st) - getZoom c)
    /\ h = IZR (getTileHeight p) * pow2 (getZoom (_center st) - getZoom c)
    /\ tx = _width st * 0.5
            + w * (getColumn c
                   - getColumn (zoomTo (_center st) (getZoom c)))
    /\ ty = _height st * 0.5
            + h * (getRow c - getRow (zoomTo (_center st) (getZoom c))).
Proof.
  revert drawn. induction coords as [| x rest IH]; intros drawn; simpl.
  - intros H. inversion H. intros [].
  - destruct (Loader.getTile (_loader st) x) eqn:Hget.
    + destruct (_provider st) as [p |] eqn:Hp; [| discriminate].
      destruct (drawTiles st rest) as [ev |]; [| discriminate].
      simpl. intros H. inversion H; subst. clear H.
      intros [H | [H | H]].
      * discriminate.
      * inversion H; subst. exists p.
        repeat split; try reflexivity; try assumption. now left.
      * destruct (IH ev eq_refl H) as [q [Hq [Hin Hrest]]].
        exists q. split; [exact Hq |]. split; [now right | exact Hrest].
    + destruct (drawTiles st rest) as [ev |]; [| discriminate].
      simpl. intros H. inversion H; subst. clear H.
      intros [H | H]; [discriminate |].
      destruct (IH ev eq_refl H) as [q [Hq [Hin Hrest]]].
      exists q. split; [exact Hq |]. split; [now right | exact Hrest].
Qed.

(** A [TileDraw] of [draw] comes from its loop. *)
Lemma draw_tile_from_loop
    (QueueSorter : TileCoordinate -> TileCoordinate -> TileCoordinate -> bool)
    (st : TileLayer) (x y : R) (st' : TileLayer) (events : list Event)
    (c : TileCoordinate) (tx ty w h : R) :
  draw QueueSorter st x y = Some (st', events) ->
  In (TileDraw c tx ty w h) events ->
  exists drawn,
    drawTiles st' (StdSet.reverse_elements (_visisbleCoords st')) = Some drawn
    /\ In (TileDraw c tx ty w h) drawn.
Proof.
  intros Hdraw Hin.
  destruct (draw_inv QueueSorter st x y st' events Hdraw)
    as [_ [drawn [Hd ->]]].
  exists drawn. split; [exact Hd |].
  apply in_app_or in Hin. destruct Hin as [Hin | Hin].
  - apply In_drawnTiles in Hin.
    rewrite refreshVisible_draws_nothing in Hin. destruct Hin.
  - simpl in Hin. destruct Hin as [Hin | [Hin | Hin]]; try discriminate.
    apply in_app_or in Hin. destruct Hin as [Hin | Hin]; [exact Hin |].
    simpl in Hin. destruct Hin as [Hin | [Hin | []]]; discriminate.
Qed.

(** X8.  A [draw] that finds the flag set draws the tiles of exactly the
    coordinates the resolution returned, each once, from the last of the
    set to the first; the same set is kept as the memoized set. *)
Theorem draw_draws_resolved_set
    (QueueSorter : TileCoordinate -> TileCoordinate -> TileCoordinate -> bool)
    (st : TileLayer) (x y : R) (st' : TileLayer) (events : list Event) :
  _coordsDirty st = true ->
  draw QueueSorter st x y = Some (st', events) ->
  let resolved := fst (fst (getVisibleCoordinates QueueSorter st)) in
  _visisbleCoords st' = resolved
  /\ drawnTiles events = rev resolved
  /\ NoDup (drawnTiles events).
Proof.
  intros Hdirty Hdraw resolved.
  pose proof (draw_drawn QueueSorter st x y st' events Hdraw) as Hdrawn.
  destruct (draw_inv QueueSorter st x y st' events Hdraw) as [Hst' _].
  assert (Hvis : _visisbleCoords st' = resolved).
  { rewrite Hst'. unfold refreshVisible, resolved. rewrite Hdirty.
    destruct (getVisibleCoordinates QueueSorter st) as [[visible loader] ev].
    reflexivity. }
  assert (Hcache : Loader.cached (_loader st') = Loader.cached (_loader st)).
  { rewrite Hst'. apply (refreshVisible_frame QueueSorter st). }
  assert (Hall : forall c, In c resolved ->
                           Loader.getTile (_loader st') c = true
                           /\ NoDup resolved).
  { intros c Hc. unfold Loader.getTile. rewrite Hcache.
    destruct (_provider st) as [p |] eqn:Hp.
    - unfold resolved in *.
      rewrite (resolved_draw_set QueueSorter st p Hp) in *.
      destruct (collected_ok st p) as [Sd [_ [Hd _]]].
      split; [now apply Hd | now apply StdSetFacts.sorted_NoDup].
    - unfold resolved in Hc.
      rewrite (getVisibleCoordinates_no_provider QueueSorter st Hp) in Hc.
      destruct Hc. }
  assert (Hrev : drawnTiles events = rev resolved).
  { rewrite Hdrawn, Hvis. unfold StdSet.reverse_elements.
    apply filter_all. intros c Hc. apply in_rev in Hc. now apply Hall. }
  split; [exact Hvis |]. split; [exact Hrev |].
  rewrite Hrev. destruct resolved as [| c rest] eqn:E; [constructor |].
  apply NoDup_rev_of. apply (Hall c). now left.
Qed.

Lemma draw_draws_resolved_set_witness :
  exists st' events,
    _coordsDirty halfWorldLayer = true
    /\ draw exampleSorter halfWorldLayer 0 0 = Some (st', events)
    /\ drawnTiles events
       = rev (fst (fst (getVisibleCoordinates exampleSorter halfWorldLayer))).
Proof.
  destruct (draw_returns exampleSorter halfWorldLayer 0 0) as [st' [events H]];
    [intros Hp; discriminate |].
  exists st', events.
  split; [reflexivity |]. split; [exact H |].
  apply (draw_draws_resolved_set exampleSorter halfWorldLayer 0 0 st' events
           eq_refl H).
Defined.

(** X9.  A tile is drawn over the image of its grid cell: with non-zero
    tile sizes, the upper left corner of the rectangle [draw] gives the
    tile of [c] maps back, through [layerPointToTileCoordinate], to [c]
    rescaled to the zoom of the center, and the lower right corner to the
    coordinate one row and one column further.  The tile's size is the
    provider's tile size times [2^(center zoom - tile zoom)], and only
    memoized coordinates that have a tile are drawn. *)
Theorem drawn_tile_covers_its_cell
    (QueueSorter : TileCoordinate -> TileCoordinate -> TileCoordinate -> bool)
    (st : TileLayer) (p : BaseTileProvider) (x y : R) (st' : TileLayer)
    (events : list Event) (c : TileCoordinate) (tx ty w h : R) :
  _provider st = Some p ->
  getTileWidth p <> 0%Z -> getTileHeight p <> 0%Z ->
  draw QueueSorter st x y = Some (st', events) ->
  In (TileDraw c tx ty w h) events ->
  let zoom := getZoom (_center st) in
  fst (layerPointToTileCoordinate st' (mkVec2 tx ty)) = zoomTo c zoom
  /\ fst (layerPointToTileCoordinate st' (mkVec2 (tx + w) (ty + h)))
     = zoomTo (mkCoord (getRow c + 1) (getColumn c + 1) (getZoom c)) zoom
  /\ w = IZR (getTileWidth p) * pow2 (zoom - getZoom c)
  /\ h = IZR (getTileHeight p) * pow2 (zoom - getZoom c)
  /\ In c (_visisbleCoords st')
  /\ Loader.getTile (_loader st') c = true.
Proof.
  intros Hp Htw Hth Hdraw Hin zoom.
  destruct (draw_tile_from_loop QueueSorter st x y st' events c tx ty w h
              Hdraw Hin) as [drawn [Hloop Hin']].
  destruct (drawTiles_positions st' _ drawn c tx ty w h Hloop Hin')
    as [q [Hq [Hmem [Hget [Hw [Hh [Hx Hy]]]]]]].
  destruct (draw_inv QueueSorter st x y st' events Hdraw) as [Hst' _].
  destruct (refreshVisible_frame QueueSorter st)
    as [Ewidth [Eheight [Ecenter [_ [_ [Eprov _]]]]]].
  rewrite <- Hst' in Ewidth, Eheight, Ecenter, Eprov.
  assert (q = p) by congruence. subst q.
  rewrite Ecenter in Hw, Hh, Hx, Hy. rewrite Ewidth in Hx.
  rewrite Eheight in Hy. fold zoom in Hw, Hh, Hx, Hy.
  assert (HtwR : IZR (getTileWidth p) <> 0) by (apply not_0_IZR; exact Htw).
  assert (HthR : IZR (getTileHeight p) <> 0) by (apply not_0_IZR; exact Hth).
  set (s := pow2 (zoom - getZoom c)) in *.
  set (s' := pow2 (getZoom c - zoom)).
  assert (Hss : s * s' = 1).
  { unfold s, s'. rewrite <- pow2_add.
    replace (zoom - getZoom c + (getZoom c - zoom)) with 0 by lra.
    apply pow2_0. }
  assert (Hcol : forall k,
             getColumn (_center st)
             + (tx + k * w - _width st / 2) / IZR (getTileWidth p)
             = (getColumn c + k) * s).
  { intros k. rewrite Hx, Hw. unfold zoomTo. simpl. fold zoom s'.
    clearbody s s'.
    replace (_width st * 0.5) with (_width st / 2) by lra.
    transitivity (getColumn (_center st) * (1 - s * s')
                  + (getColumn c + k) * s); [field; exact HtwR |].
    rewrite Hss. ring. }
  assert (Hrow : forall k,
             getRow (_center st)
             + (ty + k * h - _height st / 2) / IZR (getTileHeight p)
             = (getRow c + k) * s).
  { intros k. rewrite Hy, Hh. unfold zoomTo. simpl. fold zoom s'.
    clearbody s s'.
    replace (_height st * 0.5) with (_height st / 2) by lra.
    transitivity (getRow (_center st) * (1 - s * s')
                  + (getRow c + k) * s); [field; exact HthR |].
    rewrite Hss. ring. }
  assert (Hpoint : forall k,
             fst (layerPointToTileCoordinate st'
                    (mkVec2 (tx + k * w) (ty + k * h)))
             = zoomTo (mkCoord (getRow c + k) (getColumn c + k) (getZoom c))
                      zoom).
  { intros k. unfold layerPointToTileCoordinate, getCenter.
    rewrite Eprov, Hp, Ewidth, Eheight, Ecenter. simpl fst.
    unfold zoomTo. simpl. fold zoom. fold s.
    now rewrite (Hcol k), (Hrow k). }
  split.
  { pose proof (Hpoint 0) as H0.
    rewrite !Rmult_0_l, !Rplus_0_r in H0. rewrite H0.
    now destruct c. }
  split.
  { pose proof (Hpoint 1) as H1. now rewrite !Rmult_1_l in H1. }
  split; [exact Hw |]. split; [exact Hh |].
  split; [| exact Hget].
  unfold StdSet.reverse_elements in Hmem. now apply in_rev in Hmem.
Qed.

Lemma drawn_tile_covers_its_cell_witness :
  exists st' events tx ty w h,
    _provider halfWorldLayer = Some exampleProvider
    /\ getTileWidth exampleProvider <> 0%Z
    /\ getTileHeight exampleProvider <> 0%Z
    /\ draw exampleSorter halfWorldLayer 0 0 = Some (st', events)
    /\ In (TileDraw (tileAt 0 0 0) tx ty w h) events
    /\ fst (layerPointToTileCoordinate st' (mkVec2 tx ty))
       = zoomTo (tileAt 0 0 0) (getZoom (_center halfWorldLayer)).
Proof.
  destruct halfWorld_draw as [st' [events [Hdraw [_ [_ Hdrawn]]]]].
  assert (Hin : In (tileAt 0 0 0) (drawnTiles events))
    by (rewrite Hdrawn; right; now left).
  unfold drawnTiles in Hin. apply in_flat_map in Hin.
  destruct Hin as [e [He Hc]].
  destruct e; try (now destruct Hc).
  destruct Hc as [-> | []].
  assert (Htw : getTileWidth exampleProvider <> 0%Z) by (simpl; lia).
  assert (Hth : getTileHeight exampleProvider <> 0%Z) by (simpl; lia).
  exists st', events, tx, ty, w, h.
  repeat (split; [first [reflexivity | assumption] |]).
  apply (drawn_tile_covers_its_cell exampleSorter halfWorldLayer
           exampleProvider 0 0 st' events (tileAt 0 0 0) tx ty w h
           eq_refl Htw Hth Hdraw He).
Defined.

(** ** Points of the layer and coordinates *)

(** X10.  With a provider whose tile sizes are not 0,
    [layerPointToTileCoordinate] is a one-to-one map from the points of the
    layer onto the coordinates at the zoom of the center: the middle of the
    layer maps to the center, the point is recovered from its coordinate,
    and every coordinate at that zoom is the image of a point.  Nothing is
    logged. *)
Theorem layer_point_round_trip (st : TileLayer) (p : BaseTileProvider) :
  _provider st = Some p ->
  getTileWidth p <> 0%Z -> getTileHeight p <> 0%Z ->
  let center := _center st in
  let tw := IZR (getTileWidth p) in
  let th := IZR (getTileHeight p) in
  layerPointToTileCoordinate st (mkVec2 (_width st / 2) (_height st / 2))
  = (center, [])
  /\ (forall pt,
         let c := fst (layerPointToTileCoordinate st pt) in
         getZoom c = getZoom center
         /\ vx pt = _width st / 2 + tw * (getColumn c - getColumn center)
         /\ vy pt = _height st / 2 + th * (getRow c - getRow center)
         /\ snd (layerPointToTileCoordinate st pt) = [])
  /\ (forall t,
         getZoom t = getZoom center ->
         fst (layerPointToTileCoordinate st
                (mkVec2 (_width st / 2 + tw * (getColumn t - getColumn center))
                        (_height st / 2 + th * (getRow t - getRow center))))
         = t).
Proof.
  intros Hp Htw Hth center tw th.
  assert (HtwR : tw <> 0) by (apply not_0_IZR; exact Htw).
  assert (HthR : th <> 0) by (apply not_0_IZR; exact Hth).
  unfold layerPointToTileCoordinate, getCenter. rewrite Hp.
  fold center tw th.
  split; [| split].
  - f_equal. destruct center as [r c z]. simpl. f_equal; field; assumption.
  - intros pt. simpl. repeat split; field; assumption.
  - intros t Hz. simpl. destruct t as [r c z]. simpl in *. rewrite <- Hz.
    f_equal; field; assumption.
Qed.

Lemma layer_point_round_trip_witness :
  _provider halfWorldLayer = Some exampleProvider
  /\ getTileWidth exampleProvider <> 0%Z
  /\ getTileHeight exampleProvider <> 0%Z
  /\ layerPointToTileCoordinate halfWorldLayer
       (mkVec2 (_width halfWorldLayer / 2) (_height halfWorldLayer / 2))
     = (_center halfWorldLayer, []).
Proof.
  assert (Htw : getTileWidth exampleProvider <> 0%Z) by (simpl; lia).
  assert (Hth : getTileHeight exampleProvider <> 0%Z) by (simpl; lia).
  repeat (split; [first [reflexivity | assumption] |]).
  apply (layer_point_round_trip halfWorldLayer exampleProvider eq_refl
           Htw Hth).
Defined.

(** ** [setup] *)

Lemma zoomTo_back (c : TileCoordinate) (z : R) :
  zoomTo (zoomTo c z) (getZoom c) = c.
Proof.
  unfold zoomTo. simpl.
  assert (E : pow2 (z - getZoom c) * pow2 (getZoom c - z) = 1).
  { rewrite <- pow2_add.
    replace (z - getZoom c + (getZoom c - z)) with 0 by lra.
    apply pow2_0. }
  destruct c as [r k zc]. simpl in *.
  rewrite !Rmult_assoc, E, !Rmult_1_r. reflexivity.
Qed.

Lemma pow2_log2 (x : R) : 0 < x -> pow2 (c_log2 x) = x.
Proof.
  intros Hx. unfold pow2, c_log2, Rpower.
  assert (Hln : ln 2 <> 0).
  { assert (0 < ln 2); [| lra].
    rewrite <- ln_1. apply ln_increasing; lra. }
  replace (ln x / ln 2 * ln 2) with (ln x) by (field; exact Hln).
  now apply exp_ln.
Qed.

(** X11.  [setup] without a provider logs an error and changes nothing.
    With a provider it installs the provider and the size, allocates the
    buffer of that size, and leaves the flag, the memoized set, the loader
    and the paddings as they were: on a layer whose flag is cleared, the
    draw that follows resolves nothing and draws from the memoized set of
    before the call. *)
Theorem setup_keeps_memoized_set
    (QueueSorter : TileCoordinate -> TileCoordinate -> TileCoordinate -> bool)
    (st : TileLayer) (p : BaseTileProvider) (width height : Z) :
  let st1 := fst (fst (setup st (Some p) width height)) in
  setup st None width height
  = (st, [providerNotDefined "TileLayer::setup"], None)
  /\ _provider st1 = Some p
  /\ _width st1 = IZR width /\ _height st1 = IZR height
  /\ snd (setup st (Some p) width height)
     = Some (mkVec2 (IZR width) (IZR height))
  /\ snd (fst (setup st (Some p) width height)) = []
  /\ _coordsDirty st1 = _coordsDirty st
  /\ _visisbleCoords st1 = _visisbleCoords st
  /\ _loader st1 = _loader st
  /\ _padColumn st1 = _padColumn st /\ _padRow st1 = _padRow st
  /\ (_coordsDirty st = false ->
      forall x y,
        exists events,
          draw QueueSorter st1 x y = Some (st1, events)
          /\ filter is_resolve_event events = []
          /\ drawnTiles events
             = filter (Loader.getTile (_loader st))
                      (StdSet.reverse_elements (_visisbleCoords st))).
Proof.
  intros st1. repeat (split; [reflexivity |]).
  intros Hclean x y.
  assert (Hok : providerOk st1) by (intros H; discriminate).
  destruct (draw_returns QueueSorter st1 x y Hok) as [st2 [events Hdraw]].
  destruct (draw_inv QueueSorter st1 x y st2 events Hdraw) as [Hst2 _].
  assert (Hre : refreshVisible QueueSorter st1 = (st1, [])).
  { unfold refreshVisible.
    change (_coordsDirty st1) with (_coordsDirty st). now rewrite Hclean. }
  rewrite Hre in Hst2. simpl in Hst2. subst st2.
  exists events. split; [exact Hdraw |]. split.
  - rewrite (draw_resolve_events QueueSorter st1 x y st1 events Hdraw).
    now rewrite Hre.
  - apply (draw_drawn QueueSorter st1 x y st1 events Hdraw).
Qed.

Lemma setup_keeps_memoized_set_witness :
  _coordsDirty idleLayer = false
  /\ forall x y,
      exists events,
        draw exampleSorter
             (fst (fst (setup idleLayer (Some exampleProvider) 512 512))) x y
        = Some (fst (fst (setup idleLayer (Some exampleProvider) 512 512)),
                events)
        /\ filter is_resolve_event events = [].
Proof.
  split; [reflexivity |].
  intros x y.
  destruct (setup_keeps_memoized_set exampleSorter idleLayer exampleProvider
              512 512) as [_ [_ [_ [_ [_ [_ [_ [_ [_ [_ [_ H]]]]]]]]]]].
  destruct (H eq_refl x y) as [events [H1 [H2 _]]].
  exists events. now split.
Defined.

(** X12.  When the smaller side of the layer is [m] times the smaller side
    of a tile, all positive, [setup] gives the center the zoom at which [m]
    tiles span that side, [2^zoom = m], and keeps the center on the same
    point of the world: its row and column are scaled by [m / 2^z0], where
    [z0] is the zoom of before, and rescaling the new center to [z0] gives
    the center of before. *)
Theorem setup_zoom_fits_layer (st : TileLayer) (p : BaseTileProvider)
    (width height m : Z) :
  (0 < getTileWidth p)%Z -> (0 < getTileHeight p)%Z -> (0 < m)%Z ->
  Z.min width height
  = (m * Z.min (getTileWidth p) (getTileHeight p))%Z ->
  let st1 := fst (fst (setup st (Some p) width height)) in
  pow2 (getZoom (_center st1)) = IZR m
  /\ getRow (_center st1)
     = getRow (_center st) * (IZR m / pow2 (getZoom (_center st)))
  /\ getColumn (_center st1)
     = getColumn (_center st) * (IZR m / pow2 (getZoom (_center st)))
  /\ zoomTo (_center st1) (getZoom (_center st)) = _center st.
Proof.
  intros Htw Hth Hm Hmin st1.
  set (t := Z.min (getTileWidth p) (getTileHeight p)) in *.
  assert (Ht : (0 < t)%Z) by (unfold t; lia).
  assert (HtR : 0 < IZR t) by (apply IZR_lt in Ht; exact Ht).
  assert (HmR : 0 < IZR m) by (apply IZR_lt in Hm; exact Hm).
  assert (Hratio : std_min (IZR width) (IZR height) / IZR t = IZR m).
  { rewrite std_min_IZR, Hmin, mult_IZR. field. lra. }
  assert (Hz : pow2 (getZoom (_center st1)) = IZR m).
  { unfold st1, setup. simpl. fold t. rewrite Hratio.
    now apply pow2_log2. }
  assert (Hscale : pow2 (getZoom (_center st1) - getZoom (_center st))
                   = IZR m / pow2 (getZoom (_center st))).
  { unfold Rminus. rewrite pow2_add, pow2_opp, Hz. reflexivity. }
  split; [exact Hz |].
  assert (Hc : _center st1 = zoomTo (_center st) (getZoom (_center st1)))
    by reflexivity.
  split; [| split].
  - transitivity (getRow (zoomTo (_center st) (getZoom (_center st1))));
      [reflexivity |].
    unfold zoomTo at 1. cbn [getRow]. now rewrite Hscale.
  - transitivity (getColumn (zoomTo (_center st) (getZoom (_center st1))));
      [reflexivity |].
    unfold zoomTo at 1. cbn [getColumn]. now rewrite Hscale.
  - rewrite Hc. apply zoomTo_back.
Qed.

Lemma setup_zoom_fits_layer_witness :
  (0 < getTileWidth exampleProvider)%Z
  /\ (0 < getTileHeight exampleProvider)%Z
  /\ (0 < 2)%Z
  /\ Z.min 512 512
     = (2 * Z.min (getTileWidth exampleProvider)
                  (getTileHeight exampleProvider))%Z
  /\ pow2 (getZoom
             (_center (fst (fst (setup TileLayer_new (Some exampleProvider)
                                       512 512)))))
     = IZR 2.
Proof.
  assert (Htw : (0 < getTileWidth exampleProvider)%Z) by (simpl; lia).
  assert (Hth : (0 < getTileHeight exampleProvider)%Z) by (simpl; lia).
  assert (Hm : (0 < 2)%Z) by lia.
  assert (Hmin : Z.min 512 512
                 = (2 * Z.min (getTileWidth exampleProvider)
                              (getTileHeight exampleProvider))%Z)
    by reflexivity.
  repeat (split; [assumption |]).
  apply (setup_zoom_fits_layer TileLayer_new exampleProvider 512 512 2
           Htw Hth Hm Hmin).
Defined.

(** ** The cell under the center *)

(** One axis of the rectangle: a position of the grid that lies between the
    least and the greatest corner, strictly below the greatest, is in a
    cell of the clamped range. *)
Lemma axis_contains (lo hi x : R) (pad g : Z) :
  lo <= x -> x < hi -> 0 <= x < IZR g -> (0 <= pad)%Z ->
  (spec_clamp_cell (Zfloor lo - pad) (IZR g) <= Zfloor x
   < spec_clamp_cell (Zceil hi + pad) (IZR g))%Z.
Proof.
  intros Hlo Hhi [H0 Hg] Hpad.
  unfold spec_clamp_cell. rewrite ZfloorZ.
  assert (Hf0 : (0 <= Zfloor x)%Z) by now apply Zfloor_nonneg.
  assert (Hfx : IZR (Zfloor x) <= x) by apply Zfloor_bound.
  assert (Hfg : (Zfloor x < g)%Z) by (apply lt_IZR; lra).
  assert (Hfl : (Zfloor lo <= Zfloor x)%Z) by now apply Zfloor_le.
  assert (Hch : (Zfloor x < Zceil hi)%Z).
  { apply lt_IZR. pose proof (Zceil_bound hi). lra. }
  lia.
Qed.

Lemma corner_column (st : TileLayer) (p : BaseTileProvider) (baseZoom : Z)
    (pt : dvec2) :
  _provider st = Some p ->
  getColumn (cornerCoordinate st baseZoom pt)
  = getColumn (zoomTo (_center st) (IZR baseZoom))
    + (vx pt - _width st / 2) / IZR (getTileWidth p)
      * pow2 (IZR baseZoom - getZoom (_center st)).
Proof.
  intros Hp.
  unfold cornerCoordinate, layerPointToTileCoordinate, getCenter, zoomTo.
  rewrite Hp. simpl. ring.
Qed.

Lemma corner_row (st : TileLayer) (p : BaseTileProvider) (baseZoom : Z)
    (pt : dvec2) :
  _provider st = Some p ->
  getRow (cornerCoordinate st baseZoom pt)
  = getRow (zoomTo (_center st) (IZR baseZoom))
    + (vy pt - _height st / 2) / IZR (getTileHeight p)
      * pow2 (IZR baseZoom - getZoom (_center st)).
Proof.
  intros Hp.
  unfold cornerCoordinate, layerPointToTileCoordinate, getCenter, zoomTo.
  rewrite Hp. simpl. ring.
Qed.

(** Half the extent of the layer, in tiles of the base zoom. *)
Lemma half_extent_pos (size t s : R) :
  0 < size -> 0 < t -> 0 < s ->
  (0 - size / 2) / t * s < 0 /\ 0 < (size - size / 2) / t * s.
Proof.
  intros Hsize Ht Hs.
  assert (Hq : 0 < size / 2 / t) by (apply Rdiv_lt_0_compat; lra).
  assert (Hqs : 0 < size / 2 / t * s) by now apply Rmult_lt_0_compat.
  replace ((0 - size / 2) / t * s) with (- (size / 2 / t * s))
    by (field; lra).
  replace ((size - size / 2) / t * s) with (size / 2 / t * s)
    by (field; lra).
  lra.
Qed.

(** X13.  For a layer of positive width and height with paddings that are
    not negative, and a provider with positive tile sizes and
    [0 <= minZoom <= maxZoom]: when the center, rescaled to the base zoom,
    lies inside the grid, the cell that contains it is in the iterated
    rectangle; it is looked up, and it is in the draw set returned or handed
    to [start]. *)
Theorem center_cell_resolved
    (QueueSorter : TileCoordinate -> TileCoordinate -> TileCoordinate -> bool)
    (st : TileLayer) (p : BaseTileProvider) :
  _provider st = Some p ->
  (0 < getTileWidth p)%Z -> (0 < getTileHeight p)%Z ->
  0 < _width st -> 0 < _height st ->
  (0 <= _padColumn st)%Z -> (0 <= _padRow st)%Z ->
  (0 <= getMinZoom p <= getMaxZoom p)%Z ->
  let baseZoom := baseZoomOf st p in
  let c := zoomTo (_center st) (IZR baseZoom) in
  0 <= getRow c < pow2 (IZR baseZoom) ->
  0 <= getColumn c < pow2 (IZR baseZoom) ->
  let row := Zfloor (getRow c) in
  let col := Zfloor (getColumn c) in
  let result := getVisibleCoordinates QueueSorter st in
  inBounds (visibleBounds st baseZoom) row col
  /\ In (tileAt row col baseZoom) (lookedUp (snd result))
  /\ (In (tileAt row col baseZoom) (fst (fst result))
      \/ In (tileAt row col baseZoom) (started (snd result))).
Proof.
  intros Hp Htw Hth Hw Hh Hpc Hpr Hzoom baseZoom c Hrow Hcol row col result.
  assert (Hbz : (0 <= baseZoom)%Z).
  { pose proof (baseZoomOf_range st p (proj2 Hzoom)). unfold baseZoom. lia. }
  assert (HtwR : 0 < IZR (getTileWidth p)) by now apply (IZR_lt 0).
  assert (HthR : 0 < IZR (getTileHeight p)) by now apply (IZR_lt 0).
  pose proof (pow2_pos (IZR baseZoom - getZoom (_center st))) as Hs.
  assert (Hin : inBounds (visibleBounds st baseZoom) row col).
  { rewrite (pow2_IZR baseZoom Hbz) in Hrow, Hcol.
    unfold visibleBounds, inBounds. cbn [minRow maxRow minCol maxCol].
    rewrite !to_int_floor, !to_int_ceil.
    rewrite !clamp_cell by apply pow2_pos.
    rewrite (pow2_IZR baseZoom Hbz).
    destruct (half_extent_pos (_width st) _ _ Hw HtwR Hs) as [Hxl Hxr].
    destruct (half_extent_pos (_height st) _ _ Hh HthR Hs) as [Hyl Hyr].
    split.
    - apply axis_contains; try assumption.
      + rewrite !std_min_Rmin.
        eapply Rle_trans; [apply Rmin_l |].
        eapply Rle_trans; [apply Rmin_l |].
        rewrite (corner_row st p baseZoom _ Hp). fold c.
        cbn [vy]. lra.
      + rewrite !std_max_Rmax.
        eapply Rlt_le_trans; [| apply Rmax_r].
        eapply Rlt_le_trans; [| apply Rmax_r].
        rewrite (corner_row st p baseZoom _ Hp). fold c.
        cbn [vy]. lra.
    - apply axis_contains; try assumption.
      + rewrite !std_min_Rmin.
        eapply Rle_trans; [apply Rmin_l |].
        eapply Rle_trans; [apply Rmin_l |].
        rewrite (corner_column st p baseZoom _ Hp). fold c.
        cbn [vx]. lra.
      + rewrite !std_max_Rmax.
        eapply Rlt_le_trans; [| apply Rmax_r].
        eapply Rlt_le_trans; [| apply Rmax_r].
        rewrite (corner_column st p baseZoom _ Hp). fold c.
        cbn [vx]. lra. }
  split; [exact Hin |].
  unfold result.
  rewrite (resolved_lookups QueueSorter st p Hp),
    (resolved_started QueueSorter st p Hp),
    (resolved_draw_set QueueSorter st p Hp).
  split.
  - unfold collected. fold baseZoom.
    apply collectVisible_reaches_step with (row := row) (col := col).
    + exact Hin.
    + intros acc. apply visitCell_looks_up.
    + intros acc r k. apply visitCell_lookups_kept.
  - destruct (Loader.getTile (_loader st) (tileAt row col baseZoom))
      eqn:Hget.
    + left. unfold collected. fold baseZoom.
      apply collectVisible_reaches with (row := row) (col := col).
      * exact Hin.
      * intros acc. now apply visitCell_cached.
      * intros acc acc' [Kd _]. apply Kd.
    + right.
      apply (Permutation_in _ (Permutation_sym (tiles_perm QueueSorter st p))).
      unfold collected. fold baseZoom.
      apply collectVisible_reaches with (row := row) (col := col).
      * exact Hin.
      * intros acc. now apply visitCell_missing.
      * intros acc acc' [_ Kr]. apply Kr.
Qed.

Lemma center_cell_resolved_witness :
  let baseZoom := baseZoomOf halfWorldLayer exampleProvider in
  let c := zoomTo (_center halfWorldLayer) (IZR baseZoom) in
  (0 < _width halfWorldLayer /\ 0 < _height halfWorldLayer)
  /\ (0 <= getMinZoom exampleProvider <= getMaxZoom exampleProvider)%Z
  /\ 0 <= getRow c < pow2 (IZR baseZoom)
  /\ 0 <= getColumn c < pow2 (IZR baseZoom)
  /\ inBounds (visibleBounds halfWorldLayer baseZoom)
              (Zfloor (getRow c)) (Zfloor (getColumn c)).
Proof.
  intros baseZoom c.
  assert (Htw : (0 < getTileWidth exampleProvider)%Z) by (simpl; lia).
  assert (Hth : (0 < getTileHeight exampleProvider)%Z) by (simpl; lia).
  assert (Hw : 0 < _width halfWorldLayer) by (simpl; lra).
  assert (Hh : 0 < _height halfWorldLayer) by (simpl; lra).
  assert (Hpc : (0 <= _padColumn halfWorldLayer)%Z) by (simpl; lia).
  assert (Hpr : (0 <= _padRow halfWorldLayer)%Z) by (simpl; lia).
  assert (Hz : (0 <= getMinZoom exampleProvider
                <= getMaxZoom exampleProvider)%Z) by (simpl; lia).
  assert (Hc : c = mkCoord 0.5 1 1).
  { unfold c, baseZoom. rewrite halfWorld_baseZoom. unfold zoomTo. simpl.
    replace (1 - 1) with 0 by lra. rewrite pow2_0. f_equal; lra. }
  assert (Hrow : 0 <= getRow c < pow2 (IZR baseZoom)).
  { rewrite Hc. unfold baseZoom. rewrite halfWorld_baseZoom, pow2_1.
    simpl. lra. }
  assert (Hcol : 0 <= getColumn c < pow2 (IZR baseZoom)).
  { rewrite Hc. unfold baseZoom. rewrite halfWorld_baseZoom, pow2_1.
    simpl. lra. }
  split; [split; assumption |].
  split; [exact Hz |].
  split; [exact Hrow |].
  split; [exact Hcol |].
  apply (center_cell_resolved exampleSorter halfWorldLayer exampleProvider
           eq_refl Htw Hth Hw Hh Hpc Hpr Hz Hrow Hcol).
Defined.

(** ** The loader over a sequence of operations *)

Lemma cancelCount_app (l1 l2 : list Event) :
  cancelCount (l1 ++ l2) = (cancelCount l1 + cancelCount l2)%nat.
Proof. unfold cancelCount. now rewrite filter_app, length_app. Qed.

Lemma cancelCount_none (l : list Event) :
  (forall e, In e l -> e <> CancelQueued) -> cancelCount l = 0%nat.
Proof.
  induction l as [| e l IH]; intros Hl; [reflexivity |].
  assert (He : e <> CancelQueued) by (apply Hl; now left).
  unfold cancelCount in *. simpl.
  destruct e; try (apply IH; intros e' He'; apply Hl; now right).
  now contradiction He.
Qed.

Lemma drawCount_cons (op : Op) (ops : list Op) :
  drawCount (op :: ops) = (drawCount [op] + drawCount ops)%nat.
Proof. unfold drawCount. simpl. now destruct op. Qed.

Lemma setupCount_cons (op : Op) (ops : list Op) :
  setupCount (op :: ops) = (setupCount [op] + setupCount ops)%nat.
Proof. unfold setupCount. simpl. now destruct op. Qed.

(** A resolution calls [cancelQueued] at most once, and leaves the
    running transfers to the loader. *)
Lemma refreshVisible_loader
    (QueueSorter : TileCoordinate -> TileCoordinate -> TileCoordinate -> bool)
    (st : TileLayer) :
  (cancelCount (snd (refreshVisible QueueSorter st)) <= 1)%nat
  /\ Loader.active (_loader (fst (refreshVisible QueueSorter st)))
     = Loader.active (_loader st).
Proof.
  unfold refreshVisible. destruct (_coordsDirty st).
  - destruct (_provider st) as [p |] eqn:Hp.
    + rewrite (getVisibleCoordinates_provider QueueSorter st p Hp).
      cbn [fst snd _loader].
      destruct (issueRequests_started (tilesToRequest QueueSorter st p)
                  (Loader.cancelQueued (_loader st)))
        as [_ [Hreq [_ [_ Hact]]]].
      split.
      * rewrite !cancelCount_app.
        rewrite (cancelCount_none (lookups (collected st p))).
        2:{ intros e He.
            assert (HL : onlyLookups (lookups (collected st p)))
              by apply collectVisible_lookups.
            destruct (HL e He) as [c ->]. discriminate. }
        rewrite (cancelCount_none (snd (issueRequests _ _))).
        2:{ intros e He. rewrite <- Hreq in He.
            apply filter_In in He. destruct He as [_ He].
            intros ->. discriminate. }
        simpl. lia.
      * rewrite Hact. reflexivity.
    + rewrite (getVisibleCoordinates_no_provider QueueSorter st Hp).
      simpl. split; [unfold cancelCount; simpl; lia | reflexivity].
  - simpl. split; [unfold cancelCount; simpl; lia | reflexivity].
Qed.

Lemma no_resolve_no_cancel (l : list Event) :
  filter is_resolve_event l = [] -> cancelCount l = 0%nat.
Proof.
  intros H. apply cancelCount_none. intros e He ->.
  assert (Hin : In CancelQueued (filter is_resolve_event l))
    by (apply filter_In; now split).
  rewrite H in Hin. contradiction.
Qed.

Ltac frame_of_call :=
  unfold callsFrame, cancelCount, drawCount, setupCount; simpl;
  repeat split;
  first [reflexivity | assumption | discriminate | lia | congruence].

Lemma step_callsFrame
    (QueueSorter : TileCoordinate -> TileCoordinate -> TileCoordinate -> bool)
    (st st' : TileLayer) (op : Op) (events : list Event) :
  step QueueSorter st op = Some (st', events) ->
  callsFrame st st' [op] events.
Proof.
  intros Hstep.
  destruct op; simpl in Hstep.
  - destruct provider as [p |]; simpl in Hstep; inversion Hstep; subst;
      frame_of_call.
  - inversion Hstep; subst; frame_of_call.
  - inversion Hstep; subst; frame_of_call.
  - inversion Hstep; subst; frame_of_call.
  - unfold setCenterGeo in Hstep.
    destruct (_provider st) eqn:E; inversion Hstep; subst; frame_of_call.
  - inversion Hstep; subst; frame_of_call.
  - destruct (LoaderActivity.complete (_loader st) args);
      inversion Hstep; subst; frame_of_call.
  - inversion Hstep; subst; frame_of_call.
  - destruct (draw_inv QueueSorter st x y st' events Hstep)
      as [Hst' [drawn [Hd Hev]]].
    destruct (refreshVisible_frame QueueSorter st)
      as [_ [_ [_ [H1 [H2 [H3 [_ H4]]]]]]].
    destruct (refreshVisible_loader QueueSorter st) as [Hc Ha].
    rewrite <- Hst' in H1, H2, H3, H4, Ha.
    assert (Hcount : (cancelCount events <= 1)%nat).
    { rewrite Hev, !cancelCount_app.
      rewrite (no_resolve_no_cancel drawn
                 (drawTiles_no_resolve st' _ drawn Hd)).
      change (cancelCount [FboBegin; OfClear]) with 0%nat.
      change (cancelCount [FboEnd; FboDraw x y]) with 0%nat.
      lia. }
    unfold callsFrame, drawCount, setupCount. simpl.
    repeat split;
      first [assumption | discriminate | congruence].
Qed.

Lemma callsFrame_cons (st st1 st2 : TileLayer) (op : Op) (rest : list Op)
    (ev1 ev2 : list Event) :
  callsFrame st st1 [op] ev1 -> callsFrame st1 st2 rest ev2 ->
  callsFrame st st2 (op :: rest) (ev1 ++ ev2).
Proof.
  intros [A1 [A2 [A3 [A4 [A5 [A6 A7]]]]]] [B1 [B2 [B3 [B4 [B5 [B6 B7]]]]]].
  unfold callsFrame.
  rewrite drawCount_cons, setupCount_cons, cancelCount_app.
  split; [congruence |]. split; [congruence |].
  split; [auto |].
  split; [intros Hz; rewrite B4, A4 by lia; reflexivity |].
  split; [lia |].
  split.
  - intros Hz.
    destruct (A6 ltac:(lia)) as [C1 [C2 C3]].
    destruct (B6 ltac:(lia)) as [D1 [D2 D3]].
    rewrite lookedUp_app, started_app, C2, C3, D2, D3.
    split; [congruence | now split].
  - intros Hq. simpl in Hq. apply andb_prop in Hq. destruct Hq as [Hq1 Hq2].
    destruct (A7 ltac:(simpl; now rewrite Hq1)) as [C1 C2].
    destruct (B7 Hq2) as [D1 D2].
    split; congruence.
Qed.

(** X14.  Over any sequence of calls of the client and steps of the loader
    that returns: the paddings stay as they were; a provider, once set,
    stays set, and only [setup] changes it; [cancelQueued] is called at
    most once for each draw; between draws the layer makes no call on the
    loader and keeps its memoized set; and when the loader takes no step of
    its own, the tiles of the cache and the running transfers are the same
    at the end, whatever the layer was asked to do. *)
Theorem loader_driven_by_draws
    (QueueSorter : TileCoordinate -> TileCoordinate -> TileCoordinate -> bool)
    (ops : list Op) (st st' : TileLayer) (events : list Event) :
  run QueueSorter st ops = Some (st', events) ->
  _padColumn st' = _padColumn st /\ _padRow st' = _padRow st
  /\ (_provider st <> None -> _provider st' <> None)
  /\ (setupCount ops = 0%nat -> _provider st' = _provider st)
  /\ (cancelCount events <= drawCount ops)%nat
  /\ (drawCount ops = 0%nat ->
      _visisbleCoords st' = _visisbleCoords st
      /\ lookedUp events = [] /\ started events = [])
  /\ (forallb (fun op => negb (isLoaderStep op)) ops = true ->
      Loader.cached (_loader st') = Loader.cached (_loader st)
      /\ Loader.active (_loader st') = Loader.active (_loader st)).
Proof.
  change (run QueueSorter st ops = Some (st', events) ->
          callsFrame st st' ops events).
  revert st events. induction ops as [| op rest IH]; intros st events; simpl.
  - intros H. inversion H; subst. unfold callsFrame, cancelCount. simpl.
    repeat split; first [reflexivity | assumption | lia | auto].
  - destruct (step QueueSorter st op) as [[st1 ev1] |] eqn:Hstep;
      [| discriminate].
    destruct (run QueueSorter st1 rest) as [[st2 ev2] |] eqn:Hrun;
      [| discriminate].
    intros H. inversion H; subst.
    apply (callsFrame_cons st st1 st').
    + now apply (step_callsFrame QueueSorter).
    + now apply IH.
Qed.

Lemma loader_driven_by_draws_witness :
  exists st' events,
    run exampleSorter TileLayer_new fetchScenario = Some (st', events)
    /\ drawnTiles events = [tileAt 0 0 0]
    /\ cancelCount events = 2%nat
    /\ (cancelCount events <= drawCount fetchScenario)%nat
    /\ _padColumn st' = _padColumn TileLayer_new
    /\ _padRow st' = _padRow TileLayer_new.
Proof.
  destruct fetchScenario_run
    as [st' [events [Hrun [_ [_ [Hdrawn [_ Hcount]]]]]]].
  exists st', events.
  destruct (loader_driven_by_draws exampleSorter fetchScenario TileLayer_new
              st' events Hrun) as [H1 [H2 [_ [_ [H5 _]]]]].
  repeat (split; [assumption |]). exact H2.
Defined.

(** ** Sequences of operations on a new layer *)

(** Without a provider the loop of [draw] stops at the first memoized
    coordinate that has a tile. *)
Lemma drawTiles_null_provider (st : TileLayer) (coords : list TileCoordinate)
    (c : TileCoordinate) :
  _provider st = None -> In c coords ->
  Loader.getTile (_loader st) c = true ->
  drawTiles st coords = None.
Proof.
  intros Hp Hin Hget. induction coords as [| a rest IH]; [destruct Hin |].
  simpl. destruct (Loader.getTile (_loader st) a) eqn:Ha.
  - now rewrite Hp.
  - destruct Hin as [-> | Hin]; [congruence |].
    now rewrite (IH Hin).
Qed.

(** X15.  On a new layer every sequence of calls of the client ([setup],
    the setters, [draw]) and steps of the loader (a fetch starts
    transferring, completes, is dropped, each with its notification)
    returns: however the cache fills, no [draw] reaches the dereference of
    a null provider, because the memoized set is empty for as long as no
    provider has been set, and the memoized set stays ascending and without
    duplicates.  The condition is the one [draw] needs: on a layer without
    a provider whose flag is cleared, a memoized coordinate that has a tile
    is enough for [draw] not to return. *)
Theorem calls_on_new_layer_return
    (QueueSorter : TileCoordinate -> TileCoordinate -> TileCoordinate -> bool)
    (ops : list Op) :
  (exists st' events,
      run QueueSorter TileLayer_new ops = Some (st', events)
      /\ (_provider st' = None -> _visisbleCoords st' = StdSet.empty)
      /\ StronglySorted coord_lt (_visisbleCoords st'))
  /\ (forall st c x y,
         _provider st = None -> _coordsDirty st = false ->
         In c (_visisbleCoords st) ->
         Loader.getTile (_loader st) c = true ->
         draw QueueSorter st x y = None).
Proof.
  split.
  - destruct (run_returns QueueSorter ops TileLayer_new new_layer_ok)
      as [st' [events Hrun]].
    destruct (run_preserves QueueSorter ops TileLayer_new st' events Hrun
                new_layer_ok) as [Hp Hs].
    exists st', events. split; [exact Hrun |]. split; [exact Hp | exact Hs].
  - intros st c x y Hp Hclean Hin Hget.
    unfold draw, refreshVisible. rewrite Hclean.
    rewrite (drawTiles_null_provider st _ c Hp); [reflexivity | | exact Hget].
    unfold StdSet.reverse_elements. now apply in_rev in Hin.
Qed.
